(** * Block filters of the log storage: bloom filter, text matchers, filter dispatch

    A shallow embedding of the [logstorage] package: the bloom filter
    (build, query, wire format), the primitive matchers
    ([matchPrefix], [matchPhrase], [matchStringRange], ...) and the
    [apply] method of every filter variant, followed by the properties
    proved about them.

    Conventions.
    - A Go [uintN] is a [Z] with its wrap-around written out ([wrap64]).
    - A Go [string] is a [string] (a sequence of 8-bit characters), a Go
      [[]byte] is a [list byte].
    - A Go slice is its visible elements together with the rest of its
      backing array ([slice]).
    - A procedure that mutates the bitmap is a function from the bitmap to
      the bitmap it leaves behind and a [status] that says whether the
      procedure returned or panicked. *)

From Stdlib Require Import ZArith Lia Bool.
From Stdlib Require Import Strings.Byte Strings.Ascii Strings.String.
From Stdlib Require Import DecimalString.
From stdpp Require Import base option list gmap strings.

Local Open Scope string_scope.
Local Open Scope list_scope.
Local Open Scope Z_scope.

(** ** Machine words and bytes *)

Definition wrap64 (x : Z) : Z := x mod 2 ^ 64.

Definition byte_of_Z (x : Z) : byte :=
  match Byte.of_N (Z.to_N (x mod 256)) with
  | Some b => b
  | None => x00
  end.

Definition Z_of_byte (b : byte) : Z := Z.of_N (Byte.to_N b).

(** The [n] low bytes of [u], least significant byte first. *)
Fixpoint le_bytes (n : nat) (u : Z) : list byte :=
  match n with
  | O => []
  | S n' => byte_of_Z u :: le_bytes n' (u / 256)
  end.

(** The number whose little-endian bytes are [bs]. *)
Fixpoint le_value (bs : list byte) : Z :=
  match bs with
  | [] => 0
  | b :: bs' => Z_of_byte b + 256 * le_value bs'
  end.

(** ** Slices *)

(** A slice [a] of Go: [elems] is [a[:len(a)]], [spare] is
    [a[len(a):cap(a)]], the part of the backing array behind it. *)
Record slice (A : Type) : Type := mkSlice { elems : list A; spare : list A }.
Arguments mkSlice {A} _ _.
Arguments elems {A} _.
Arguments spare {A} _.

Definition emptySlice {A : Type} : slice A := mkSlice [] [].

(** Modelled from the spec: [slicesutil.SetLength] is not under src/; the
    spec has the builders "size the bit array" with it.  The slice gets
    the length [newLen]; what the backing array already holds is kept and
    the array is extended with zero values where it is too short. *)
Definition SetLength {A : Type} (zero : A) (a : slice A) (newLen : nat) : slice A :=
  let backing :=
    elems a ++ spare a ++ repeat zero (newLen - (length (elems a) + length (spare a))) in
  mkSlice (take newLen backing) (drop newLen backing).

(** ** Package encoding *)

(** Modelled from the spec: [encoding.MarshalUint64] and
    [encoding.UnmarshalUint64] are not under src/; the spec gives the wire
    format as a "sequence of 8-byte little-endian words". *)
Definition MarshalUint64 (dst : list byte) (u : Z) : list byte := dst ++ le_bytes 8 u.

(** [None] is the panic of [src[:8]] on a source shorter than 8 bytes. *)
Definition UnmarshalUint64 (src : list byte) : option Z :=
  if (length src <? 8)%nat then None else Some (le_value (take 8 src)).

(** Modelled from the spec: the 16-bit and 32-bit encoders of package
    [encoding] are not under src/; they are taken in the byte order the
    spec gives for the 64-bit one. *)
Definition MarshalUint16 (dst : list byte) (u : Z) : list byte := dst ++ le_bytes 2 u.
Definition MarshalUint32 (dst : list byte) (u : Z) : list byte := dst ++ le_bytes 4 u.
Definition UnmarshalUint16 (src : list byte) : option Z :=
  if (length src <? 2)%nat then None else Some (le_value (take 2 src)).
Definition UnmarshalUint32 (src : list byte) : option Z :=
  if (length src <? 4)%nat then None else Some (le_value (take 4 src)).

(** ** The bloom filter *)

(** Package [xxhash] is an external library: its 64-bit hash of a byte
    sequence is a parameter of the development. *)
Class Hasher : Type := { xxhash_Sum64 : list byte -> Z }.

Definition bloomFilterHashesCount : nat := 6.
Definition bloomFilterBitsPerItem : nat := 16.

Record bloomFilter : Type := mkBloomFilter { bits : slice Z }.

(** The result of [unmarshal]: the filter it leaves, the error it returns
    (with the length it reports), or a runtime panic. *)
Inductive unmarshalResult : Type :=
| UnmarshalDone (bf : bloomFilter)
| UnmarshalError (srcLen : nat)
| UnmarshalPanic.

Definition reset (bf : bloomFilter) : bloomFilter :=
  let b := bits bf in
  mkBloomFilter (mkSlice [] (map (fun _ => 0) (elems b) ++ spare b)).

Definition marshal (bf : bloomFilter) (dst : list byte) : list byte :=
  fold_left MarshalUint64 (elems (bits bf)) dst.

(** The loop of [unmarshal]: one word read for every element of [bits],
    the source advanced by 8 bytes each time. *)
Fixpoint unmarshalWords (bits : list Z) (src : list byte) : option (list Z) :=
  match bits with
  | [] => Some []
  | _ :: rest =>
      match UnmarshalUint64 src with
      | None => None
      | Some w =>
          match unmarshalWords rest (drop 8 src) with
          | None => None
          | Some ws => Some (w :: ws)
          end
      end
  end.

Definition unmarshal (bf : bloomFilter) (src : list byte) : unmarshalResult :=
  if negb (length src mod 8 =? 0)%nat then UnmarshalError (length src)
  else
    let bf := reset bf in
    let wordsCount := (length src / 8)%nat in
    let bits := SetLength 0 (bits bf) wordsCount in
    match unmarshalWords (elems bits) src with
    | None => UnmarshalPanic
    | Some ws => UnmarshalDone (mkBloomFilter (mkSlice ws (spare bits)))
    end.

(** One step of the loops of [initBloomFilter] and [containsAll]: the word
    index and the bit mask of the hash [h] in a bit array of [len] words.
    [None] is the panic of a division by zero. *)
Definition bitPosition (len : nat) (h : Z) : option (nat * Z) :=
  let maxBits := wrap64 (Z.of_nat len * 64) in
  if maxBits =? 0 then None
  else
    let idx := h mod maxBits in
    let i := idx / 64 in
    let j := idx mod 64 in
    let mask := wrap64 (Z.shiftl 1 j) in
    Some (Z.to_nat i, mask).

(** [None] is a runtime panic: a division by zero or an index out of range. *)
Fixpoint initBloomFilter (bits : list Z) (hashes : list Z) : option (list Z) :=
  match hashes with
  | [] => Some bits
  | h :: hashes' =>
      match bitPosition (length bits) h with
      | None => None
      | Some (i, mask) =>
          match bits !! i with
          | None => None
          | Some w =>
              let bits' :=
                if Z.land w mask =? 0 then <[i := Z.lor w mask]> bits else bits in
              initBloomFilter bits' hashes'
          end
      end
  end.

Section BloomFilterHashes.
Context {H : Hasher}.

(** What [xxhash.Sum64] returns is a [uint64]. *)
Definition Sum64 (b : list byte) : Z := wrap64 (xxhash_Sum64 b).

(** The inner loop of [appendTokensHashes] and [appendHashesHashes]:
    [n] times, hash the 8 bytes behind [hp], then increment [*hp]. *)
Fixpoint hashChain (n : nat) (hp : Z) : list Z :=
  match n with
  | O => []
  | S n' => Sum64 (le_bytes 8 hp) :: hashChain n' (wrap64 (hp + 1))
  end.

Fixpoint appendTokensHashes (dst : list Z) (tokens : list string) : list Z :=
  match tokens with
  | [] => dst
  | token :: tokens' =>
      let hp := Sum64 (list_byte_of_string token) in
      appendTokensHashes (dst ++ hashChain bloomFilterHashesCount hp) tokens'
  end.

Fixpoint appendHashesHashes (dst : list Z) (hashes : list Z) : list Z :=
  match hashes with
  | [] => dst
  | h :: hashes' =>
      appendHashesHashes (dst ++ hashChain bloomFilterHashesCount h) hashes'
  end.

Definition bloomFilterAddTokens (bits : list Z) (tokens : list string) : option (list Z) :=
  initBloomFilter bits (appendTokensHashes [] tokens).

Definition bloomFilterAddHashes (bits : list Z) (hashes : list Z) : option (list Z) :=
  initBloomFilter bits (appendHashesHashes [] hashes).

Definition mustInitTokens (bf : bloomFilter) (tokens : list string) : option bloomFilter :=
  let bitsCount := (length tokens * bloomFilterBitsPerItem)%nat in
  let wordsCount := ((bitsCount + 63) / 64)%nat in
  let bits := SetLength 0 (bits bf) wordsCount in
  match bloomFilterAddTokens (elems bits) tokens with
  | None => None
  | Some ws => Some (mkBloomFilter (mkSlice ws (spare bits)))
  end.

Definition mustInitHashes (bf : bloomFilter) (hashes : list Z) : option bloomFilter :=
  let bitsCount := (length hashes * bloomFilterBitsPerItem)%nat in
  let wordsCount := ((bitsCount + 63) / 64)%nat in
  let bits := SetLength 0 (bits bf) wordsCount in
  match bloomFilterAddHashes (elems bits) hashes with
  | None => None
  | Some ws => Some (mkBloomFilter (mkSlice ws (spare bits)))
  end.
End BloomFilterHashes.

(** The loop of [containsAll] over a bit array that is not empty. *)
Fixpoint containsAllLoop (bits : list Z) (hashes : list Z) : option bool :=
  match hashes with
  | [] => Some true
  | h :: hashes' =>
      match bitPosition (length bits) h with
      | None => None
      | Some (i, mask) =>
          match bits !! i with
          | None => None
          | Some w =>
              if Z.land w mask =? 0 then Some false
              else containsAllLoop bits hashes'
          end
      end
  end.

Definition containsAll (bf : bloomFilter) (hashes : list Z) : option bool :=
  let bits := elems (bits bf) in
  if (length bits =? 0)%nat then Some true
  else containsAllLoop bits hashes.

(** ** Strings of Go *)

Definition ToUnsafeString (b : list byte) : string := string_of_list_byte b.
Definition ToUnsafeBytes (s : string) : list byte := list_byte_of_string s.

Definition Z_of_ascii (c : ascii) : Z := Z.of_N (N_of_ascii c).

(** [s[i]] as a number.  Every use below reads inside the string; outside
    of it (a panic of Go) the model reads 0. *)
Definition byteAt (s : string) (i : nat) : Z :=
  match String.get i s with
  | Some c => Z_of_ascii c
  | None => 0
  end.

(** [s[n:]] and [s[:n]]. *)
Fixpoint strFrom (n : nat) (s : string) : string :=
  match n, s with
  | O, _ => s
  | S n', String _ s' => strFrom n' s'
  | S _, EmptyString => EmptyString
  end.

Fixpoint strTo (n : nat) (s : string) : string :=
  match n, s with
  | O, _ => EmptyString
  | S n', String c s' => String c (strTo n' s')
  | S _, EmptyString => EmptyString
  end.

(** The comparison operators of Go on strings: byte-wise, the shorter of
    two strings first when it begins the other. *)
Definition strLt (s t : string) : bool := String.ltb s t.
Definition strLe (s t : string) : bool := String.leb s t.
Definition strGt (s t : string) : bool := String.ltb t s.
Definition strGe (s t : string) : bool := String.leb t s.
Definition strEq (s t : string) : bool := String.eqb s t.

(** [strings.HasPrefix] and [strings.Index] of the Go library: the index
    of the first place where [substr] stands in [s], or -1. *)
Definition HasPrefix (s prefix : string) : bool := String.prefix prefix s.

Fixpoint Index (s substr : string) : Z :=
  if HasPrefix s substr then 0
  else
    match s with
    | EmptyString => -1
    | String _ s' =>
        let n := Index s' substr in
        if n <? 0 then -1 else n + 1
    end.

(** [strings.IndexByte] and [bytes.IndexByte]. *)
Fixpoint IndexByte (b : list byte) (c : byte) : Z :=
  match b with
  | [] => -1
  | x :: b' =>
      if Byte.eqb x c then 0
      else
        let n := IndexByte b' c in
        if n <? 0 then -1 else n + 1
  end.

(** [strconv.AppendUint(dst, n, 10)]. *)
Definition AppendUint (dst : list byte) (n : Z) : list byte :=
  dst ++ list_byte_of_string (NilZero.string_of_uint (N.to_uint (Z.to_N n))).

(** ** Runes: packages utf8 and unicode *)

Definition RuneSelf : Z := 128.
Definition RuneError : Z := 65533.

(** The Go library beyond ASCII: the decoders of multi-byte sequences, the
    classes of the runes from 128 on, and the case mappings, are
    parameters.  On ASCII the functions below are written out. *)
Class Unicode : Type := {
  (** [utf8.DecodeRuneInString] on a string whose first byte is not ASCII *)
  decodeRuneMultibyte : string -> Z * nat;
  (** [utf8.DecodeLastRuneInString] on a string whose last byte is not ASCII *)
  decodeLastRuneMultibyte : string -> Z * nat;
  (** [utf8.RuneCountInString] *)
  RuneCountInString : string -> Z;
  (** [unicode.IsLetter] and [unicode.IsDigit] on a rune from 128 on *)
  isLetterBeyondASCII : Z -> bool;
  isDigitBeyondASCII : Z -> bool;
  (** [strings.ToLower], [strings.ToUpper] *)
  ToLower : string -> string;
  ToUpper : string -> string;
  (** [stringsutil.AppendLowercase], of this repository and not under src/ *)
  AppendLowercase : list byte -> string -> list byte
}.

Section Runes.
Context {U : Unicode}.

Definition DecodeRuneInString (s : string) : Z * nat :=
  match s with
  | EmptyString => (RuneError, O)
  | String c _ =>
      if Z_of_ascii c <? RuneSelf then (Z_of_ascii c, 1%nat)
      else decodeRuneMultibyte s
  end.

Definition DecodeLastRuneInString (s : string) : Z * nat :=
  match String.length s with
  | O => (RuneError, O)
  | S n =>
      if byteAt s n <? RuneSelf then (byteAt s n, 1%nat)
      else decodeLastRuneMultibyte s
  end.

Definition inRange (lo hi r : Z) : bool := (lo <=? r) && (r <=? hi).

Definition IsLetter (r : Z) : bool :=
  if r <? RuneSelf then inRange 65 90 r || inRange 97 122 r
  else isLetterBeyondASCII r.

Definition IsDigit (r : Z) : bool :=
  if r <? RuneSelf then inRange 48 57 r
  else isDigitBeyondASCII r.

(** Modelled from the spec: [isTokenRune] is not under src/; the spec
    calls a token character "alphanumeric/underscore". *)
Definition isTokenRune (r : Z) : bool := IsLetter r || IsDigit r || (r =? 95).

(** ** Primitive matchers *)

Definition isASCIILowercase (s : string) : bool :=
  forallb (fun c => negb ((RuneSelf <=? Z_of_ascii c) || inRange 65 90 (Z_of_ascii c)))
          (list_ascii_of_string s).

(** The rune a text starts with and the rune it ends with, read as the
    matchers do: the byte itself when it is ASCII, the decoded rune
    otherwise. *)
Definition runeAtStart (s : string) : Z :=
  let r := byteAt s 0 in
  if RuneSelf <=? r then fst (DecodeRuneInString s) else r.

Definition runeAtEnd (s : string) : Z :=
  let r := byteAt s (String.length s - 1) in
  if RuneSelf <=? r then fst (DecodeLastRuneInString s) else r.

(** The rune that ends [s[:offset]] and the rune that starts [s[pos:]],
    read in the same way. *)
Definition runeBefore (s : string) (offset : nat) : Z :=
  let r := byteAt s (offset - 1) in
  if RuneSelf <=? r then fst (DecodeLastRuneInString (strTo offset s)) else r.

Definition runeAt (s : string) (pos : nat) : Z :=
  let r := byteAt s pos in
  if RuneSelf <=? r then fst (DecodeRuneInString (strFrom pos s)) else r.

(** The rune check of both loops: the found text may not touch this rune. *)
Definition blocksMatch (r : Z) : bool := (r =? RuneError) || isTokenRune r.

(** The loop of [matchPrefix], [offset] being the place the search goes on
    from.  [None]: the loop did not end within [fuel] iterations. *)
Fixpoint matchPrefixLoop (fuel : nat) (s prefix : string) (startsWithToken : bool)
    (offset : nat) : option bool :=
  match fuel with
  | O => None
  | S fuel' =>
      let n := Index (strFrom offset s) prefix in
      if n <? 0 then Some false
      else
        let offset := (offset + Z.to_nat n)%nat in
        if startsWithToken && (0 <? offset)%nat
           && blocksMatch (runeBefore s offset)
        then matchPrefixLoop fuel' s prefix startsWithToken (S offset)
        else Some true
  end.

(** [matchPrefix]; the loop is given one iteration for every byte of [s]
    and one more, which it never exceeds ([matchPrefixLoop_total]). *)
Definition matchPrefix (s prefix : string) : bool :=
  if (String.length prefix =? 0)%nat then (0 <? String.length s)%nat
  else if (String.length s <? String.length prefix)%nat then false
  else
    let startsWithToken := isTokenRune (runeAtStart prefix) in
    match matchPrefixLoop (S (String.length s)) s prefix startsWithToken 0 with
    | Some b => b
    | None => false
    end.

(** The loop of [getPhrasePos]; the result is the position or -1. *)
Fixpoint getPhrasePosLoop (fuel : nat) (s phrase : string)
    (startsWithToken endsWithToken : bool) (pos : nat) : option Z :=
  match fuel with
  | O => None
  | S fuel' =>
      let n := Index (strFrom pos s) phrase in
      if n <? 0 then Some (-1)
      else
        let pos := (pos + Z.to_nat n)%nat in
        if startsWithToken && (0 <? pos)%nat
           && blocksMatch (runeBefore s pos)
        then getPhrasePosLoop fuel' s phrase startsWithToken endsWithToken (S pos)
        else if endsWithToken && (pos + String.length phrase <? String.length s)%nat
                && blocksMatch (runeAt s (pos + String.length phrase))
        then getPhrasePosLoop fuel' s phrase startsWithToken endsWithToken (S pos)
        else Some (Z.of_nat pos)
  end.

Definition getPhrasePos (s phrase : string) : Z :=
  if (String.length phrase =? 0)%nat then 0
  else if (String.length s <? String.length phrase)%nat then -1
  else
    let startsWithToken := isTokenRune (runeAtStart phrase) in
    let endsWithToken := isTokenRune (runeAtEnd phrase) in
    match getPhrasePosLoop (S (String.length s)) s phrase startsWithToken endsWithToken 0 with
    | Some n => n
    | None => -1
    end.

Definition matchPhrase (s phrase : string) : bool :=
  if (String.length phrase =? 0)%nat then (String.length s =? 0)%nat
  else 0 <=? getPhrasePos s phrase.

Definition matchAnyCasePrefix (s prefixLowercase : string) : bool :=
  if (String.length prefixLowercase =? 0)%nat then (0 <? String.length s)%nat
  else if (String.length s <? String.length prefixLowercase)%nat then false
  else if isASCIILowercase s then matchPrefix s prefixLowercase
  else
    let sLowercase := ToUnsafeString (AppendLowercase [] s) in
    matchPrefix sLowercase prefixLowercase.

Definition matchAnyCasePhrase (s phraseLowercase : string) : bool :=
  if (String.length phraseLowercase =? 0)%nat then (String.length s =? 0)%nat
  else if (String.length s <? String.length phraseLowercase)%nat then false
  else if isASCIILowercase s then matchPhrase s phraseLowercase
  else
    let sLowercase := ToUnsafeString (AppendLowercase [] s) in
    matchPhrase sLowercase phraseLowercase.

Definition matchStringRange (s minValue maxValue : string) : bool :=
  strGe s minValue && strLt s maxValue.

Definition matchLenRange (s : string) (minLen maxLen : Z) : bool :=
  let sLen := wrap64 (RuneCountInString s) in
  (minLen <=? sLen) && (sLen <=? maxLen).
End Runes.

(** ** The bitmap *)

(** Modelled from the spec: type [bitmap] and its methods are not under
    src/; the spec has it as a "per-row boolean vector for one block" that
    "supports clear-all and for-each-still-set-row iteration", "one bit
    per row marking current candidate-match status". *)
Definition bitmap : Type := list bool.

Definition resetBits (bm : bitmap) : bitmap := map (fun _ => false) bm.

Definition isZero (bm : bitmap) : bool := forallb negb bm.

(** How a procedure ends: it returns, or it panics (a fatal diagnostic of
    [logger.Panicf], or a runtime panic of Go). *)
Inductive status : Type := Returned | Panicked.

(** [forEachSetBit f] calls [f] on the index of every set bit, in
    increasing order, and clears the bit when [f] returns false.  [f idx =
    None] is a call that panics: the rows behind it are not visited. *)
Fixpoint forEachSetBitFrom (idx : nat) (f : nat -> option bool) (bm : bitmap)
  : bitmap * status :=
  match bm with
  | [] => ([], Returned)
  | b :: bm' =>
      if b then
        match f idx with
        | None => (bm, Panicked)
        | Some keep =>
            let '(bm'', st) := forEachSetBitFrom (S idx) f bm' in (keep :: bm'', st)
        end
      else
        let '(bm'', st) := forEachSetBitFrom (S idx) f bm' in (false :: bm'', st)
  end.

Definition forEachSetBit (f : nat -> option bool) (bm : bitmap) : bitmap * status :=
  forEachSetBitFrom 0 f bm.

(** A procedure over the bitmap [bm] of the caller. *)
Definition proc : Type := bitmap -> bitmap * status.

(** [return] with the bitmap as it is. *)
Definition skip : proc := fun bm => (bm, Returned).
(** [bm.resetBits(); return]. *)
Definition clearAll : proc := fun bm => (resetBits bm, Returned).
(** [logger.Panicf(...)], or a runtime panic. *)
Definition panic : proc := fun bm => (bm, Panicked).

(** A condition whose evaluation may panic, then one of two procedures. *)
Definition branch (c : option bool) (p q : proc) : proc :=
  match c with
  | None => panic
  | Some true => p
  | Some false => q
  end.

(** ** External packages and the rest of the repository *)

(** The type [float64] with what the filters use of it and of package
    [math]. *)
Class Float64 : Type := {
  float64 : Type;
  (** [a < b] and [a <= b] *)
  f64lt : float64 -> float64 -> bool;
  f64le : float64 -> float64 -> bool;
  Float64frombits : Z -> float64;
  Float64bits : float64 -> Z;
  Ceil : float64 -> float64;
  Floor : float64 -> float64;
  (** the constants [0] and [math.MaxUint64] as [float64] *)
  f64zero : float64;
  f64MaxUint64 : float64;
  (** the conversion [uint64(f)] *)
  f64toUint64 : float64 -> Z
}.

(** The parsers and renderers of stored values.  They are code of this
    repository that is not under src/, and parameters here. *)
Class ValuesEncoder {F : Float64} : Type := {
  tryParseUint64 : string -> option Z;
  tryParseFloat64 : string -> option float64;
  tryParseIPv4 : string -> option Z;
  tryParseTimestampISO8601 : string -> option Z;
  toFloat64String : list byte -> string -> list byte;
  toIPv4String : list byte -> string -> list byte;
  toTimestampISO8601String : list byte -> string -> list byte;
  (** the constant [iso8601Timestamp] *)
  iso8601Timestamp : string
}.

(** The tokenizer, of this repository and not under src/. *)
Class Tokenizer : Type := { tokenizeStrings : list string -> list string -> list string }.

(** Package [regexp]. *)
Class Regexp : Type := {
  regexp : Type;
  MatchString : regexp -> string -> bool
}.

(** The stream index and the types around it. *)
Class StreamIndex : Type := {
  StreamFilter : Type;
  TenantID : Type;
  indexdb : Type;
  streamID : Type;
  streamID_eq_dec :: EqDecision streamID;
  isEmpty : StreamFilter -> bool;
  searchStreamIDs : indexdb -> list TenantID -> StreamFilter -> list streamID
}.

(** ** Blocks *)

(** The tag of a stored value type; [valueTypeUnknown] is any tag that is
    none of the nine. *)
Inductive valueType : Type :=
| valueTypeUnknown
| valueTypeString
| valueTypeDict
| valueTypeUint8
| valueTypeUint16
| valueTypeUint32
| valueTypeUint64
| valueTypeFloat64
| valueTypeIPv4
| valueTypeTimestampISO8601.

(** Modelled from the spec: type [columnHeader] is not under src/; the
    spec gives it a "value-type tag", "min/max bounds (reinterpreted per
    type)" and an optional dictionary of distinct strings.
    [chValuesDict] is [ch.valuesDict.values]. *)
Record columnHeader : Type := mkColumnHeader {
  chName : string;
  chValueType : valueType;
  chMinValue : Z;
  chMaxValue : Z;
  chValuesDict : list string
}.

(** Modelled from the spec: type [blockSearch] is not under src/; the
    spec has the block search context expose "column-header lookup by
    field name (nullable), constant-value lookup by field name (empty
    string if not constant), ordered per-row raw value access for a
    column, bloom-filter access for a column, and a diagnostic path
    string".  [rowsCount] is [bs.bsw.bh.rowsCount], [blockStreamID] is
    [bs.bsw.bh.streamID]. *)
Record blockSearch {SI : StreamIndex} : Type := mkBlockSearch {
  getConstColumnValue : string -> string;
  getColumnHeader : string -> option columnHeader;
  getValuesForColumn : columnHeader -> list string;
  getBloomFilterForColumn : columnHeader -> bloomFilter;
  rowsCount : Z;
  blockStreamID : streamID;
  partPath : string
}.

(** The stored form of the uint8 value [n]: one byte. *)
Definition uint8Value (n : Z) : string := ToUnsafeString [byte_of_Z n].

(** ** Matching the rows of a column *)

Section Matchers.
Context {HS : Hasher} {UC : Unicode} {FL : Float64} {VE : ValuesEncoder}
        {TK : Tokenizer} {RE : Regexp} {SI : StreamIndex}.

(** [bf.containsAll(tokens)] as the filters call it, on tokens: it "returns
    true if bf contains all the given tokens hashes generated by
    appendTokensHashes". *)
Definition containsAllTokens (bf : bloomFilter) (tokens : list string) : option bool :=
  containsAll bf (appendTokensHashes [] tokens).

Definition maxTokenSetsToInit : nat := 1000.

Fixpoint anyContainsAll (bf : bloomFilter) (tokenSets : list (list string)) : option bool :=
  match tokenSets with
  | [] => Some false
  | tokens :: tokenSets' =>
      match containsAllTokens bf tokens with
      | None => None
      | Some true => Some true
      | Some false => anyContainsAll bf tokenSets'
      end
  end.

Definition matchBloomFilterAnyTokenSet (bs : blockSearch) (ch : columnHeader)
    (tokenSets : list (list string)) : option bool :=
  if (length tokenSets =? 0)%nat then Some false
  else if (maxTokenSetsToInit <? length tokenSets)%nat
          || (wrap64 (10 * rowsCount bs) <? Z.of_nat (length tokenSets))
  then Some true
  else anyContainsAll (getBloomFilterForColumn bs ch) tokenSets.

Definition matchBloomFilterAllTokens (bs : blockSearch) (ch : columnHeader)
    (tokens : list string) : option bool :=
  if (length tokens =? 0)%nat then Some true
  else containsAllTokens (getBloomFilterForColumn bs ch) tokens.

(** [f] is the callback; [None] is a call that panics, as is [values[idx]]
    behind the last value. *)
Definition visitValues (bs : blockSearch) (ch : columnHeader)
    (f : string -> option bool) : proc :=
  fun bm =>
    if isZero bm then (bm, Returned)
    else
      let values := getValuesForColumn bs ch in
      forEachSetBit (fun idx => match values !! idx with
                                | None => None
                                | Some v => f v
                                end) bm.

(** *** Rendering of binary values; [None] is the fatal diagnostic on a
    value of the wrong length *)

Definition toUint8String (v : string) : option string :=
  if negb (String.length v =? 1)%nat then None
  else
    let n := byteAt v 0 in
    Some (ToUnsafeString (AppendUint [] n)).

Definition toUint16String (v : string) : option string :=
  if negb (String.length v =? 2)%nat then None
  else
    match UnmarshalUint16 (ToUnsafeBytes v) with
    | None => None
    | Some n => Some (ToUnsafeString (AppendUint [] n))
    end.

Definition toUint32String (v : string) : option string :=
  if negb (String.length v =? 4)%nat then None
  else
    match UnmarshalUint32 (ToUnsafeBytes v) with
    | None => None
    | Some n => Some (ToUnsafeString (AppendUint [] n))
    end.

Definition toUint64String (v : string) : option string :=
  if negb (String.length v =? 8)%nat then None
  else
    match UnmarshalUint64 (ToUnsafeBytes v) with
    | None => None
    | Some n => Some (ToUnsafeString (AppendUint [] n))
    end.

Definition toFloat64StringExt (v : string) : option string :=
  if negb (String.length v =? 8)%nat then None
  else Some (ToUnsafeString (toFloat64String [] v)).

Definition toIPv4StringExt (v : string) : option string :=
  if negb (String.length v =? 4)%nat then None
  else Some (ToUnsafeString (toIPv4String [] v)).

Definition toTimestampISO8601StringExt (v : string) : option string :=
  if negb (String.length v =? 8)%nat then None
  else Some (ToUnsafeString (toTimestampISO8601String [] v)).

(** *** Matchers on one value *)

Definition matchIPv4Range (s : string) (minValue maxValue : Z) : bool :=
  match tryParseIPv4 s with
  | None => false
  | Some n => (minValue <=? n) && (n <=? maxValue)
  end.

Definition matchRange (s : string) (minValue maxValue : float64) : bool :=
  match tryParseFloat64 s with
  | None => false
  | Some f => f64le minValue f && f64le f maxValue
  end.

Definition toUint64Clamp (f : float64) : Z :=
  if f64lt f f64zero then 0
  else if f64lt f64MaxUint64 f then 2 ^ 64 - 1
  else f64toUint64 f.

Definition toUint64Range (minValue maxValue : float64) : Z * Z :=
  let minValue := Ceil minValue in
  let maxValue := Floor maxValue in
  (toUint64Clamp minValue, toUint64Clamp maxValue).

(** The loop of [getTokensSkipLast]: the trailing token runes are cut
    off.  A decoded rune has a size of at least 1, so that the loop ends
    within one iteration for every byte of [s]. *)
Fixpoint skipLastToken (fuel : nat) (s : string) : string :=
  match fuel with
  | O => s
  | S fuel' =>
      let '(r, runeSize) := DecodeLastRuneInString s in
      if negb (isTokenRune r) then s
      else skipLastToken fuel' (strTo (String.length s - runeSize) s)
  end.

Definition getTokensSkipLast (s : string) : list string :=
  tokenizeStrings [] [skipLastToken (S (String.length s)) s].

(** *** Bloom filter, then the rows *)

Definition matchBinaryValue (bs : blockSearch) (ch : columnHeader)
    (binValue : list byte) (tokens : list string) : proc :=
  branch (matchBloomFilterAllTokens bs ch tokens)
    (visitValues bs ch (fun v => Some (strEq v (ToUnsafeString binValue))))
    clearAll.

Definition matchAnyValue (bs : blockSearch) (ch : columnHeader)
    (values : gset string) (tokenSets : list (list string)) : proc :=
  branch (matchBloomFilterAnyTokenSet bs ch tokenSets)
    (visitValues bs ch (fun v => Some (bool_decide (v ∈ values))))
    clearAll.

(** *** Timestamp columns *)

Definition matchTimestampISO8601ByLenRange (minLen maxLen : Z) : proc :=
  if (Z.of_nat (String.length iso8601Timestamp) <? minLen)
     || (maxLen <? Z.of_nat (String.length iso8601Timestamp))
  then clearAll
  else skip.

Definition matchTimestampISO8601ByStringRange (bs : blockSearch) (ch : columnHeader)
    (minValue maxValue : string) : proc :=
  if strGt minValue "9" || strLt maxValue "0" then clearAll
  else
    visitValues bs ch (fun v =>
      s ← toTimestampISO8601StringExt v;
      Some (matchStringRange s minValue maxValue)).

Definition matchTimestampISO8601ByRegexp (bs : blockSearch) (ch : columnHeader)
    (re : regexp) : proc :=
  visitValues bs ch (fun v =>
    s ← toTimestampISO8601StringExt v;
    Some (MatchString re s)).

Definition matchTimestampISO8601ByPrefix (bs : blockSearch) (ch : columnHeader)
    (prefix : string) (tokens : list string) : proc :=
  if strEq prefix EmptyString then skip
  else
    branch (matchBloomFilterAllTokens bs ch tokens)
      (visitValues bs ch (fun v =>
         s ← toTimestampISO8601StringExt v;
         Some (matchPrefix s prefix)))
      clearAll.

Definition matchTimestampISO8601ByExactValue (bs : blockSearch) (ch : columnHeader)
    (value : string) (tokens : list string) : proc :=
  match tryParseTimestampISO8601 value with
  | None => clearAll
  | Some n =>
      if (n <? chMinValue ch) || (chMaxValue ch <? n) then clearAll
      else matchBinaryValue bs ch (MarshalUint64 [] n) tokens
  end.

Definition matchTimestampISO8601ByPhrase (bs : blockSearch) (ch : columnHeader)
    (phrase : string) (tokens : list string) : proc :=
  match tryParseTimestampISO8601 phrase with
  | Some _ => matchTimestampISO8601ByExactValue bs ch phrase tokens
  | None =>
      branch (matchBloomFilterAllTokens bs ch tokens)
        (visitValues bs ch (fun v =>
           s ← toTimestampISO8601StringExt v;
           Some (matchPhrase s phrase)))
        clearAll
  end.

(** *** IPv4 columns *)

Definition matchIPv4ByStringRange (bs : blockSearch) (ch : columnHeader)
    (minValue maxValue : string) : proc :=
  if strGt minValue "9" || strLt maxValue "0" then clearAll
  else
    visitValues bs ch (fun v =>
      s ← toIPv4StringExt v;
      Some (matchStringRange s minValue maxValue)).

Definition matchIPv4ByLenRange (bs : blockSearch) (ch : columnHeader)
    (minLen maxLen : Z) : proc :=
  if (Z.of_nat (String.length "255.255.255.255") <? minLen)
     || (maxLen <? Z.of_nat (String.length "0.0.0.0"))
  then clearAll
  else
    visitValues bs ch (fun v =>
      s ← toIPv4StringExt v;
      Some (matchLenRange s minLen maxLen)).

Definition matchIPv4ByRange (bs : blockSearch) (ch : columnHeader)
    (minValue maxValue : Z) : proc :=
  if (maxValue <? chMinValue ch) || (chMaxValue ch <? minValue) then clearAll
  else
    visitValues bs ch (fun v =>
      if negb (String.length v =? 4)%nat then None
      else
        n ← UnmarshalUint32 (ToUnsafeBytes v);
        Some ((minValue <=? n) && (n <=? maxValue))).

Definition matchIPv4ByRegexp (bs : blockSearch) (ch : columnHeader) (re : regexp) : proc :=
  visitValues bs ch (fun v =>
    s ← toIPv4StringExt v;
    Some (MatchString re s)).

Definition matchIPv4ByPrefix (bs : blockSearch) (ch : columnHeader)
    (prefix : string) (tokens : list string) : proc :=
  if strEq prefix EmptyString then skip
  else
    branch (matchBloomFilterAllTokens bs ch tokens)
      (visitValues bs ch (fun v =>
         s ← toIPv4StringExt v;
         Some (matchPrefix s prefix)))
      clearAll.

Definition matchIPv4ByExactValue (bs : blockSearch) (ch : columnHeader)
    (value : string) (tokens : list string) : proc :=
  match tryParseIPv4 value with
  | None => clearAll
  | Some n =>
      if (n <? chMinValue ch) || (chMaxValue ch <? n) then clearAll
      else matchBinaryValue bs ch (MarshalUint32 [] n) tokens
  end.

Definition matchIPv4ByPhrase (bs : blockSearch) (ch : columnHeader)
    (phrase : string) (tokens : list string) : proc :=
  match tryParseIPv4 phrase with
  | Some _ => matchIPv4ByExactValue bs ch phrase tokens
  | None =>
      branch (matchBloomFilterAllTokens bs ch tokens)
        (visitValues bs ch (fun v =>
           s ← toIPv4StringExt v;
           Some (matchPhrase s phrase)))
        clearAll
  end.

(** *** Float64 columns *)

Definition matchFloat64ByStringRange (bs : blockSearch) (ch : columnHeader)
    (minValue maxValue : string) : proc :=
  if strGt minValue "9" || strLt maxValue "+" then clearAll
  else
    visitValues bs ch (fun v =>
      s ← toFloat64StringExt v;
      Some (matchStringRange s minValue maxValue)).

Definition matchFloat64ByLenRange (bs : blockSearch) (ch : columnHeader)
    (minLen maxLen : Z) : proc :=
  if (24 <? minLen) || (maxLen =? 0) then clearAll
  else
    visitValues bs ch (fun v =>
      s ← toFloat64StringExt v;
      Some (matchLenRange s minLen maxLen)).

Definition matchFloat64ByRange (bs : blockSearch) (ch : columnHeader)
    (minValue maxValue : float64) : proc :=
  if f64lt (Float64frombits (chMaxValue ch)) minValue
     || f64lt maxValue (Float64frombits (chMinValue ch))
  then clearAll
  else
    visitValues bs ch (fun v =>
      if negb (String.length v =? 8)%nat then None
      else
        n ← UnmarshalUint64 (ToUnsafeBytes v);
        let f := Float64frombits n in
        Some (f64le minValue f && f64le f maxValue)).

Definition matchFloat64ByRegexp (bs : blockSearch) (ch : columnHeader) (re : regexp) : proc :=
  visitValues bs ch (fun v =>
    s ← toFloat64StringExt v;
    Some (MatchString re s)).

Definition matchFloat64ByPrefix (bs : blockSearch) (ch : columnHeader)
    (prefix : string) (tokens : list string) : proc :=
  if strEq prefix EmptyString then skip
  else
    let ok := bool_decide (is_Some (tryParseFloat64 prefix)) in
    if negb ok && negb (strEq prefix ".") && negb (strEq prefix "+")
       && negb (strEq prefix "-") && negb (HasPrefix prefix "e")
       && negb (HasPrefix prefix "E")
    then clearAll
    else
      branch (matchBloomFilterAllTokens bs ch tokens)
        (visitValues bs ch (fun v =>
           s ← toFloat64StringExt v;
           Some (matchPrefix s prefix)))
        clearAll.

Definition matchFloat64ByExactValue (bs : blockSearch) (ch : columnHeader)
    (value : string) (tokens : list string) : proc :=
  match tryParseFloat64 value with
  | None => clearAll
  | Some f =>
      if f64lt f (Float64frombits (chMinValue ch))
         || f64lt (Float64frombits (chMaxValue ch)) f
      then clearAll
      else
        let n := Float64bits f in
        matchBinaryValue bs ch (MarshalUint64 [] n) tokens
  end.

Definition matchFloat64ByPhrase (bs : blockSearch) (ch : columnHeader)
    (phrase : string) (tokens : list string) : proc :=
  let ok := bool_decide (is_Some (tryParseFloat64 phrase)) in
  if negb ok && negb (strEq phrase ".") && negb (strEq phrase "+")
     && negb (strEq phrase "-")
  then clearAll
  else
    let n := IndexByte (ToUnsafeBytes phrase) "."%byte in
    if (0 <? n) && (n <? Z.of_nat (String.length phrase) - 1)
    then matchFloat64ByExactValue bs ch phrase tokens
    else
      branch (matchBloomFilterAllTokens bs ch tokens)
        (visitValues bs ch (fun v =>
           s ← toFloat64StringExt v;
           Some (matchPhrase s phrase)))
        clearAll.

(** *** Dictionary columns *)

(** The loop every [matchValuesDictBy...] begins with: [byte(i)] is kept
    for every dictionary value, of index [i], that [f] accepts. *)
Fixpoint dictIndexesFrom (i : nat) (f : string -> bool) (values : list string) : list byte :=
  match values with
  | [] => []
  | v :: values' =>
      if f v then byte_of_Z (Z.of_nat i) :: dictIndexesFrom (S i) f values'
      else dictIndexesFrom (S i) f values'
  end.

Definition dictIndexes (f : string -> bool) (ch : columnHeader) : list byte :=
  dictIndexesFrom 0 f (chValuesDict ch).

Definition matchEncodedValuesDict (bs : blockSearch) (ch : columnHeader)
    (encodedValues : list byte) : proc :=
  if (length encodedValues =? 0)%nat then clearAll
  else
    visitValues bs ch (fun v =>
      if negb (String.length v =? 1)%nat then None
      else
        let n := IndexByte encodedValues (byte_of_Z (byteAt v 0)) in
        Some (0 <=? n)).

Definition matchValuesDictByIPv4Range (bs : blockSearch) (ch : columnHeader)
    (minValue maxValue : Z) : proc :=
  matchEncodedValuesDict bs ch (dictIndexes (fun v => matchIPv4Range v minValue maxValue) ch).

Definition matchValuesDictByStringRange (bs : blockSearch) (ch : columnHeader)
    (minValue maxValue : string) : proc :=
  matchEncodedValuesDict bs ch (dictIndexes (fun v => matchStringRange v minValue maxValue) ch).

Definition matchValuesDictByLenRange (bs : blockSearch) (ch : columnHeader)
    (minLen maxLen : Z) : proc :=
  matchEncodedValuesDict bs ch (dictIndexes (fun v => matchLenRange v minLen maxLen) ch).

Definition matchValuesDictByRange (bs : blockSearch) (ch : columnHeader)
    (minValue maxValue : float64) : proc :=
  matchEncodedValuesDict bs ch (dictIndexes (fun v => matchRange v minValue maxValue) ch).

Definition matchValuesDictByRegexp (bs : blockSearch) (ch : columnHeader) (re : regexp) : proc :=
  matchEncodedValuesDict bs ch (dictIndexes (fun v => MatchString re v) ch).

Definition matchValuesDictByAnyCasePrefix (bs : blockSearch) (ch : columnHeader)
    (prefixLowercase : string) : proc :=
  matchEncodedValuesDict bs ch (dictIndexes (fun v => matchAnyCasePrefix v prefixLowercase) ch).

Definition matchValuesDictByAnyCasePhrase (bs : blockSearch) (ch : columnHeader)
    (phraseLowercase : string) : proc :=
  matchEncodedValuesDict bs ch (dictIndexes (fun v => matchAnyCasePhrase v phraseLowercase) ch).

Definition matchValuesDictByPrefix (bs : blockSearch) (ch : columnHeader)
    (prefix : string) : proc :=
  matchEncodedValuesDict bs ch (dictIndexes (fun v => matchPrefix v prefix) ch).

Definition matchValuesDictByExactValue (bs : blockSearch) (ch : columnHeader)
    (value : string) : proc :=
  matchEncodedValuesDict bs ch (dictIndexes (fun v => strEq v value) ch).

Definition matchValuesDictByAnyValue (bs : blockSearch) (ch : columnHeader)
    (values : gset string) : proc :=
  matchEncodedValuesDict bs ch (dictIndexes (fun v => bool_decide (v ∈ values)) ch).

Definition matchValuesDictByPhrase (bs : blockSearch) (ch : columnHeader)
    (phrase : string) : proc :=
  matchEncodedValuesDict bs ch (dictIndexes (fun v => matchPhrase v phrase) ch).

(** *** String columns *)

Definition matchStringByIPv4Range (bs : blockSearch) (ch : columnHeader)
    (minValue maxValue : Z) : proc :=
  visitValues bs ch (fun v => Some (matchIPv4Range v minValue maxValue)).

Definition matchStringByStringRange (bs : blockSearch) (ch : columnHeader)
    (minValue maxValue : string) : proc :=
  visitValues bs ch (fun v => Some (matchStringRange v minValue maxValue)).

Definition matchStringByLenRange (bs : blockSearch) (ch : columnHeader)
    (minLen maxLen : Z) : proc :=
  visitValues bs ch (fun v => Some (matchLenRange v minLen maxLen)).

Definition matchStringByRange (bs : blockSearch) (ch : columnHeader)
    (minValue maxValue : float64) : proc :=
  visitValues bs ch (fun v => Some (matchRange v minValue maxValue)).

Definition matchStringByRegexp (bs : blockSearch) (ch : columnHeader) (re : regexp) : proc :=
  visitValues bs ch (fun v => Some (MatchString re v)).

Definition matchStringByAnyCasePrefix (bs : blockSearch) (ch : columnHeader)
    (prefixLowercase : string) : proc :=
  visitValues bs ch (fun v => Some (matchAnyCasePrefix v prefixLowercase)).

Definition matchStringByAnyCasePhrase (bs : blockSearch) (ch : columnHeader)
    (phraseLowercase : string) : proc :=
  visitValues bs ch (fun v => Some (matchAnyCasePhrase v phraseLowercase)).

Definition matchStringByPrefix (bs : blockSearch) (ch : columnHeader)
    (prefix : string) (tokens : list string) : proc :=
  branch (matchBloomFilterAllTokens bs ch tokens)
    (visitValues bs ch (fun v => Some (matchPrefix v prefix)))
    clearAll.

Definition matchStringByExactValue (bs : blockSearch) (ch : columnHeader)
    (value : string) (tokens : list string) : proc :=
  branch (matchBloomFilterAllTokens bs ch tokens)
    (visitValues bs ch (fun v => Some (strEq v value)))
    clearAll.

Definition matchStringByPhrase (bs : blockSearch) (ch : columnHeader)
    (phrase : string) (tokens : list string) : proc :=
  branch (matchBloomFilterAllTokens bs ch tokens)
    (visitValues bs ch (fun v => Some (matchPhrase v phrase)))
    clearAll.

(** *** Unsigned integer columns *)

Definition matchUint8ByStringRange (bs : blockSearch) (ch : columnHeader)
    (minValue maxValue : string) : proc :=
  if strGt minValue "9" || strLt maxValue "0" then clearAll
  else
    visitValues bs ch (fun v =>
      s ← toUint8String v;
      Some (matchStringRange s minValue maxValue)).

Definition matchUint16ByStringRange (bs : blockSearch) (ch : columnHeader)
    (minValue maxValue : string) : proc :=
  if strGt minValue "9" || strLt maxValue "0" then clearAll
  else
    visitValues bs ch (fun v =>
      s ← toUint16String v;
      Some (matchStringRange s minValue maxValue)).

Definition matchUint32ByStringRange (bs : blockSearch) (ch : columnHeader)
    (minValue maxValue : string) : proc :=
  if strGt minValue "9" || strLt maxValue "0" then clearAll
  else
    visitValues bs ch (fun v =>
      s ← toUint32String v;
      Some (matchStringRange s minValue maxValue)).

Definition matchUint64ByStringRange (bs : blockSearch) (ch : columnHeader)
    (minValue maxValue : string) : proc :=
  if strGt minValue "9" || strLt maxValue "0" then clearAll
  else
    visitValues bs ch (fun v =>
      s ← toUint64String v;
      Some (matchStringRange s minValue maxValue)).

Definition matchMinMaxValueLen (ch : columnHeader) (minLen maxLen : Z) : bool :=
  let s := ToUnsafeString (AppendUint [] (chMinValue ch)) in
  if maxLen <? Z.of_nat (String.length s) then false
  else
    let s := ToUnsafeString (AppendUint [] (chMaxValue ch)) in
    minLen <=? Z.of_nat (String.length s).

Definition matchUint8ByLenRange (bs : blockSearch) (ch : columnHeader)
    (minLen maxLen : Z) : proc :=
  if negb (matchMinMaxValueLen ch minLen maxLen) then clearAll
  else
    visitValues bs ch (fun v =>
      s ← toUint8String v;
      Some (matchLenRange s minLen maxLen)).

Definition matchUint16ByLenRange (bs : blockSearch) (ch : columnHeader)
    (minLen maxLen : Z) : proc :=
  if negb (matchMinMaxValueLen ch minLen maxLen) then clearAll
  else
    visitValues bs ch (fun v =>
      s ← toUint16String v;
      Some (matchLenRange s minLen maxLen)).

Definition matchUint32ByLenRange (bs : blockSearch) (ch : columnHeader)
    (minLen maxLen : Z) : proc :=
  if negb (matchMinMaxValueLen ch minLen maxLen) then clearAll
  else
    visitValues bs ch (fun v =>
      s ← toUint32String v;
      Some (matchLenRange s minLen maxLen)).

Definition matchUint64ByLenRange (bs : blockSearch) (ch : columnHeader)
    (minLen maxLen : Z) : proc :=
  if negb (matchMinMaxValueLen ch minLen maxLen) then clearAll
  else
    visitValues bs ch (fun v =>
      s ← toUint64String v;
      Some (matchLenRange s minLen maxLen)).

Definition matchUint8ByRange (bs : blockSearch) (ch : columnHeader)
    (minValue maxValue : float64) : proc :=
  let '(minValueUint, maxValueUint) := toUint64Range minValue maxValue in
  if f64lt maxValue f64zero || (chMaxValue ch <? minValueUint)
     || (maxValueUint <? chMinValue ch)
  then clearAll
  else
    visitValues bs ch (fun v =>
      if negb (String.length v =? 1)%nat then None
      else
        let n := byteAt v 0 in
        Some ((minValueUint <=? n) && (n <=? maxValueUint))).

Definition matchUint16ByRange (bs : blockSearch) (ch : columnHeader)
    (minValue maxValue : float64) : proc :=
  let '(minValueUint, maxValueUint) := toUint64Range minValue maxValue in
  if f64lt maxValue f64zero || (chMaxValue ch <? minValueUint)
     || (maxValueUint <? chMinValue ch)
  then clearAll
  else
    visitValues bs ch (fun v =>
      if negb (String.length v =? 2)%nat then None
      else
        n ← UnmarshalUint16 (ToUnsafeBytes v);
        Some ((minValueUint <=? n) && (n <=? maxValueUint))).

Definition matchUint32ByRange (bs : blockSearch) (ch : columnHeader)
    (minValue maxValue : float64) : proc :=
  let '(minValueUint, maxValueUint) := toUint64Range minValue maxValue in
  if f64lt maxValue f64zero || (chMaxValue ch <? minValueUint)
     || (maxValueUint <? chMinValue ch)
  then clearAll
  else
    visitValues bs ch (fun v =>
      if negb (String.length v =? 4)%nat then None
      else
        n ← UnmarshalUint32 (ToUnsafeBytes v);
        Some ((minValueUint <=? n) && (n <=? maxValueUint))).

Definition matchUint64ByRange (bs : blockSearch) (ch : columnHeader)
    (minValue maxValue : float64) : proc :=
  let '(minValueUint, maxValueUint) := toUint64Range minValue maxValue in
  if f64lt maxValue f64zero || (chMaxValue ch <? minValueUint)
     || (maxValueUint <? chMinValue ch)
  then clearAll
  else
    visitValues bs ch (fun v =>
      if negb (String.length v =? 8)%nat then None
      else
        n ← UnmarshalUint64 (ToUnsafeBytes v);
        Some ((minValueUint <=? n) && (n <=? maxValueUint))).

Definition matchUint8ByRegexp (bs : blockSearch) (ch : columnHeader) (re : regexp) : proc :=
  visitValues bs ch (fun v => s ← toUint8String v; Some (MatchString re s)).

Definition matchUint16ByRegexp (bs : blockSearch) (ch : columnHeader) (re : regexp) : proc :=
  visitValues bs ch (fun v => s ← toUint16String v; Some (MatchString re s)).

Definition matchUint32ByRegexp (bs : blockSearch) (ch : columnHeader) (re : regexp) : proc :=
  visitValues bs ch (fun v => s ← toUint32String v; Some (MatchString re s)).

Definition matchUint64ByRegexp (bs : blockSearch) (ch : columnHeader) (re : regexp) : proc :=
  visitValues bs ch (fun v => s ← toUint64String v; Some (MatchString re s)).

Definition matchUint8ByPrefix (bs : blockSearch) (ch : columnHeader) (prefix : string) : proc :=
  if strEq prefix EmptyString then skip
  else
    match tryParseUint64 prefix with
    | None => clearAll
    | Some n =>
        if chMaxValue ch <? n then clearAll
        else visitValues bs ch (fun v => s ← toUint8String v; Some (matchPrefix s prefix))
    end.

Definition matchUint16ByPrefix (bs : blockSearch) (ch : columnHeader) (prefix : string) : proc :=
  if strEq prefix EmptyString then skip
  else
    match tryParseUint64 prefix with
    | None => clearAll
    | Some n =>
        if chMaxValue ch <? n then clearAll
        else visitValues bs ch (fun v => s ← toUint16String v; Some (matchPrefix s prefix))
    end.

Definition matchUint32ByPrefix (bs : blockSearch) (ch : columnHeader) (prefix : string) : proc :=
  if strEq prefix EmptyString then skip
  else
    match tryParseUint64 prefix with
    | None => clearAll
    | Some n =>
        if chMaxValue ch <? n then clearAll
        else visitValues bs ch (fun v => s ← toUint32String v; Some (matchPrefix s prefix))
    end.

Definition matchUint64ByPrefix (bs : blockSearch) (ch : columnHeader) (prefix : string) : proc :=
  if strEq prefix EmptyString then skip
  else
    match tryParseUint64 prefix with
    | None => clearAll
    | Some n =>
        if chMaxValue ch <? n then clearAll
        else visitValues bs ch (fun v => s ← toUint64String v; Some (matchPrefix s prefix))
    end.

Definition matchUint8ByExactValue (bs : blockSearch) (ch : columnHeader)
    (phrase : string) (tokens : list string) : proc :=
  match tryParseUint64 phrase with
  | None => clearAll
  | Some n =>
      if (n <? chMinValue ch) || (chMaxValue ch <? n) then clearAll
      else matchBinaryValue bs ch [byte_of_Z n] tokens
  end.

Definition matchUint16ByExactValue (bs : blockSearch) (ch : columnHeader)
    (phrase : string) (tokens : list string) : proc :=
  match tryParseUint64 phrase with
  | None => clearAll
  | Some n =>
      if (n <? chMinValue ch) || (chMaxValue ch <? n) then clearAll
      else matchBinaryValue bs ch (MarshalUint16 [] (n mod 2 ^ 16)) tokens
  end.

Definition matchUint32ByExactValue (bs : blockSearch) (ch : columnHeader)
    (phrase : string) (tokens : list string) : proc :=
  match tryParseUint64 phrase with
  | None => clearAll
  | Some n =>
      if (n <? chMinValue ch) || (chMaxValue ch <? n) then clearAll
      else matchBinaryValue bs ch (MarshalUint32 [] (n mod 2 ^ 32)) tokens
  end.

Definition matchUint64ByExactValue (bs : blockSearch) (ch : columnHeader)
    (phrase : string) (tokens : list string) : proc :=
  match tryParseUint64 phrase with
  | None => clearAll
  | Some n =>
      if (n <? chMinValue ch) || (chMaxValue ch <? n) then clearAll
      else matchBinaryValue bs ch (MarshalUint64 [] n) tokens
  end.
End Matchers.

(** ** The filters

    One module for every filter type of the source, with the fields of the
    [struct] that the query fixes, the values derived from them once
    ([sync.Once]: computed on first use and never changed afterwards) as
    functions of the fields, and the method [apply]. *)

Module streamFilter.
Record t {SI : StreamIndex} : Type := mk {
  f : StreamFilter;
  tenantIDs : list TenantID;
  idb : indexdb
}.
Arguments mk {SI} _ _ _.

Section Apply.
Context {SI : StreamIndex}.

(** The set [fs.streamIDs], as the list of its elements. *)
Definition getStreamIDs (fs : t) : list streamID :=
  searchStreamIDs (idb fs) (tenantIDs fs) (f fs).

Definition apply (fs : t) (bs : blockSearch) : proc :=
  if isEmpty (f fs) then skip
  else
    let streamIDs := getStreamIDs fs in
    if negb (bool_decide (blockStreamID bs ∈ streamIDs)) then clearAll
    else skip.
End Apply.
End streamFilter.

Module exactFilter.
Record t : Type := mk { fieldName : string; value : string }.

Section Apply.
Context {HS : Hasher} {UC : Unicode} {FL : Float64} {VE : ValuesEncoder}
        {TK : Tokenizer} {RE : Regexp} {SI : StreamIndex}.

Definition getTokens (fe : t) : list string := tokenizeStrings [] [value fe].

Definition apply (fe : t) (bs : blockSearch) : proc :=
  let fieldName := fieldName fe in
  let value := value fe in
  let v := getConstColumnValue bs fieldName in
  if negb (strEq v EmptyString) then
    if negb (strEq value v) then clearAll else skip
  else
    match getColumnHeader bs fieldName with
    | None => if negb (strEq value EmptyString) then clearAll else skip
    | Some ch =>
        let tokens := getTokens fe in
        match chValueType ch with
        | valueTypeString => matchStringByExactValue bs ch value tokens
        | valueTypeDict => matchValuesDictByExactValue bs ch value
        | valueTypeUint8 => matchUint8ByExactValue bs ch value tokens
        | valueTypeUint16 => matchUint16ByExactValue bs ch value tokens
        | valueTypeUint32 => matchUint32ByExactValue bs ch value tokens
        | valueTypeUint64 => matchUint64ByExactValue bs ch value tokens
        | valueTypeFloat64 => matchFloat64ByExactValue bs ch value tokens
        | valueTypeIPv4 => matchIPv4ByExactValue bs ch value tokens
        | valueTypeTimestampISO8601 => matchTimestampISO8601ByExactValue bs ch value tokens
        | valueTypeUnknown => panic
        end
    end.
End Apply.
End exactFilter.

Module inFilter.
Record t : Type := mk { fieldName : string; values : list string }.

Section Apply.
Context {HS : Hasher} {UC : Unicode} {FL : Float64} {VE : ValuesEncoder}
        {TK : Tokenizer} {RE : Regexp} {SI : StreamIndex}.

(** The loop of [initTokenSets]: it stops behind a value of more than
    [maxTokenSetsToInit] tokens. *)
Fixpoint initTokenSetsLoop (tokenSets : list (list string)) (values : list string)
  : list (list string) :=
  match values with
  | [] => tokenSets
  | v :: values' =>
      let tokens := tokenizeStrings [] [v] in
      let tokenSets := tokenSets ++ [tokens] in
      if (maxTokenSetsToInit <? length tokens)%nat then tokenSets
      else initTokenSetsLoop tokenSets values'
  end.

Definition getTokenSets (fi : t) : list (list string) := initTokenSetsLoop [] (values fi).

(** The loops of the [init...Values]: [add m v] is the map after the
    iteration on the value [v]. *)
Definition valuesSet (add : gset string -> string -> gset string) (fi : t) : gset string :=
  fold_left add (values fi) ∅.

Definition getStringValues : t -> gset string :=
  valuesSet (fun m v => {[ v ]} ∪ m).

Definition getUint8Values : t -> gset string :=
  valuesSet (fun m v =>
    match tryParseUint64 v with
    | None => m
    | Some n =>
        if 2 ^ 8 <=? n then m
        else {[ ToUnsafeString [byte_of_Z n] ]} ∪ m
    end).

Definition getUint16Values : t -> gset string :=
  valuesSet (fun m v =>
    match tryParseUint64 v with
    | None => m
    | Some n =>
        if 2 ^ 16 <=? n then m
        else {[ ToUnsafeString (MarshalUint16 [] (n mod 2 ^ 16)) ]} ∪ m
    end).

Definition getUint32Values : t -> gset string :=
  valuesSet (fun m v =>
    match tryParseUint64 v with
    | None => m
    | Some n =>
        if 2 ^ 32 <=? n then m
        else {[ ToUnsafeString (MarshalUint32 [] (n mod 2 ^ 32)) ]} ∪ m
    end).

Definition getUint64Values : t -> gset string :=
  valuesSet (fun m v =>
    match tryParseUint64 v with
    | None => m
    | Some n => {[ ToUnsafeString (MarshalUint64 [] n) ]} ∪ m
    end).

Definition getFloat64Values : t -> gset string :=
  valuesSet (fun m v =>
    match tryParseFloat64 v with
    | None => m
    | Some f =>
        let n := Float64bits f in
        {[ ToUnsafeString (MarshalUint64 [] n) ]} ∪ m
    end).

Definition getIPv4Values : t -> gset string :=
  valuesSet (fun m v =>
    match tryParseIPv4 v with
    | None => m
    | Some n => {[ ToUnsafeString (MarshalUint32 [] (n mod 2 ^ 32)) ]} ∪ m
    end).

Definition getTimestampISO8601Values : t -> gset string :=
  valuesSet (fun m v =>
    match tryParseTimestampISO8601 v with
    | None => m
    | Some n => {[ ToUnsafeString (MarshalUint64 [] n) ]} ∪ m
    end).

Definition apply (fi : t) (bs : blockSearch) : proc :=
  let fieldName := fieldName fi in
  if (length (values fi) =? 0)%nat then clearAll
  else
    let v := getConstColumnValue bs fieldName in
    if negb (strEq v EmptyString) then
      let stringValues := getStringValues fi in
      if negb (bool_decide (v ∈ stringValues)) then clearAll else skip
    else
      match getColumnHeader bs fieldName with
      | None =>
          let stringValues := getStringValues fi in
          if negb (bool_decide (EmptyString ∈ stringValues)) then clearAll else skip
      | Some ch =>
          let tokenSets := getTokenSets fi in
          match chValueType ch with
          | valueTypeString => matchAnyValue bs ch (getStringValues fi) tokenSets
          | valueTypeDict => matchValuesDictByAnyValue bs ch (getStringValues fi)
          | valueTypeUint8 => matchAnyValue bs ch (getUint8Values fi) tokenSets
          | valueTypeUint16 => matchAnyValue bs ch (getUint16Values fi) tokenSets
          | valueTypeUint32 => matchAnyValue bs ch (getUint32Values fi) tokenSets
          | valueTypeUint64 => matchAnyValue bs ch (getUint64Values fi) tokenSets
          | valueTypeFloat64 => matchAnyValue bs ch (getFloat64Values fi) tokenSets
          | valueTypeIPv4 => matchAnyValue bs ch (getIPv4Values fi) tokenSets
          | valueTypeTimestampISO8601 =>
              matchAnyValue bs ch (getTimestampISO8601Values fi) tokenSets
          | valueTypeUnknown => panic
          end
      end.
End Apply.
End inFilter.

Module ipv4RangeFilter.
Record t : Type := mk { fieldName : string; minValue : Z; maxValue : Z }.

Section Apply.
Context {HS : Hasher} {UC : Unicode} {FL : Float64} {VE : ValuesEncoder}
        {TK : Tokenizer} {RE : Regexp} {SI : StreamIndex}.

Definition apply (rf : t) (bs : blockSearch) : proc :=
  let fieldName := fieldName rf in
  let minValue := minValue rf in
  let maxValue := maxValue rf in
  if maxValue <? minValue then clearAll
  else
    let v := getConstColumnValue bs fieldName in
    if negb (strEq v EmptyString) then
      if negb (matchIPv4Range v minValue maxValue) then clearAll else skip
    else
      match getColumnHeader bs fieldName with
      | None => clearAll
      | Some ch =>
          match chValueType ch with
          | valueTypeString => matchStringByIPv4Range bs ch minValue maxValue
          | valueTypeDict => matchValuesDictByIPv4Range bs ch minValue maxValue
          | valueTypeUint8 => clearAll
          | valueTypeUint16 => clearAll
          | valueTypeUint32 => clearAll
          | valueTypeUint64 => clearAll
          | valueTypeFloat64 => clearAll
          | valueTypeIPv4 => matchIPv4ByRange bs ch minValue maxValue
          | valueTypeTimestampISO8601 => clearAll
          | valueTypeUnknown => panic
          end
      end.
End Apply.
End ipv4RangeFilter.

Module stringRangeFilter.
Record t : Type := mk { fieldName : string; minValue : string; maxValue : string }.

Section Apply.
Context {HS : Hasher} {UC : Unicode} {FL : Float64} {VE : ValuesEncoder}
        {TK : Tokenizer} {RE : Regexp} {SI : StreamIndex}.

Definition apply (rf : t) (bs : blockSearch) : proc :=
  let fieldName := fieldName rf in
  let minValue := minValue rf in
  let maxValue := maxValue rf in
  if strGt minValue maxValue then clearAll
  else
    let v := getConstColumnValue bs fieldName in
    if negb (strEq v EmptyString) then
      if negb (matchStringRange v minValue maxValue) then clearAll else skip
    else
      match getColumnHeader bs fieldName with
      | None =>
          if negb (matchStringRange EmptyString minValue maxValue) then clearAll else skip
      | Some ch =>
          match chValueType ch with
          | valueTypeString => matchStringByStringRange bs ch minValue maxValue
          | valueTypeDict => matchValuesDictByStringRange bs ch minValue maxValue
          | valueTypeUint8 => matchUint8ByStringRange bs ch minValue maxValue
          | valueTypeUint16 => matchUint16ByStringRange bs ch minValue maxValue
          | valueTypeUint32 => matchUint32ByStringRange bs ch minValue maxValue
          | valueTypeUint64 => matchUint64ByStringRange bs ch minValue maxValue
          | valueTypeFloat64 => matchFloat64ByStringRange bs ch minValue maxValue
          | valueTypeIPv4 => matchIPv4ByStringRange bs ch minValue maxValue
          | valueTypeTimestampISO8601 =>
              matchTimestampISO8601ByStringRange bs ch minValue maxValue
          | valueTypeUnknown => panic
          end
      end.
End Apply.
End stringRangeFilter.

Module lenRangeFilter.
Record t : Type := mk { fieldName : string; minLen : Z; maxLen : Z; stringRepr : string }.

Section Apply.
Context {HS : Hasher} {UC : Unicode} {FL : Float64} {VE : ValuesEncoder}
        {TK : Tokenizer} {RE : Regexp} {SI : StreamIndex}.

Definition apply (rf : t) (bs : blockSearch) : proc :=
  let fieldName := fieldName rf in
  let minLen := minLen rf in
  let maxLen := maxLen rf in
  if maxLen <? minLen then clearAll
  else
    let v := getConstColumnValue bs fieldName in
    if negb (strEq v EmptyString) then
      if negb (matchLenRange v minLen maxLen) then clearAll else skip
    else
      match getColumnHeader bs fieldName with
      | None =>
          if negb (matchLenRange EmptyString minLen maxLen) then clearAll else skip
      | Some ch =>
          match chValueType ch with
          | valueTypeString => matchStringByLenRange bs ch minLen maxLen
          | valueTypeDict => matchValuesDictByLenRange bs ch minLen maxLen
          | valueTypeUint8 => matchUint8ByLenRange bs ch minLen maxLen
          | valueTypeUint16 => matchUint16ByLenRange bs ch minLen maxLen
          | valueTypeUint32 => matchUint32ByLenRange bs ch minLen maxLen
          | valueTypeUint64 => matchUint64ByLenRange bs ch minLen maxLen
          | valueTypeFloat64 => matchFloat64ByLenRange bs ch minLen maxLen
          | valueTypeIPv4 => matchIPv4ByLenRange bs ch minLen maxLen
          | valueTypeTimestampISO8601 => matchTimestampISO8601ByLenRange minLen maxLen
          | valueTypeUnknown => panic
          end
      end.
End Apply.
End lenRangeFilter.

Module rangeFilter.
Record t {FL : Float64} : Type := mk {
  fieldName : string;
  minValue : float64;
  maxValue : float64;
  stringRepr : string
}.
Arguments mk {FL} _ _ _ _.

Section Apply.
Context {HS : Hasher} {UC : Unicode} {FL : Float64} {VE : ValuesEncoder}
        {TK : Tokenizer} {RE : Regexp} {SI : StreamIndex}.

Definition apply (rf : t) (bs : blockSearch) : proc :=
  let fieldName := fieldName rf in
  let minValue := minValue rf in
  let maxValue := maxValue rf in
  if f64lt maxValue minValue then clearAll
  else
    let v := getConstColumnValue bs fieldName in
    if negb (strEq v EmptyString) then
      if negb (matchRange v minValue maxValue) then clearAll else skip
    else
      match getColumnHeader bs fieldName with
      | None => clearAll
      | Some ch =>
          match chValueType ch with
          | valueTypeString => matchStringByRange bs ch minValue maxValue
          | valueTypeDict => matchValuesDictByRange bs ch minValue maxValue
          | valueTypeUint8 => matchUint8ByRange bs ch minValue maxValue
          | valueTypeUint16 => matchUint16ByRange bs ch minValue maxValue
          | valueTypeUint32 => matchUint32ByRange bs ch minValue maxValue
          | valueTypeUint64 => matchUint64ByRange bs ch minValue maxValue
          | valueTypeFloat64 => matchFloat64ByRange bs ch minValue maxValue
          | valueTypeIPv4 => clearAll
          | valueTypeTimestampISO8601 => clearAll
          | valueTypeUnknown => panic
          end
      end.
End Apply.
End rangeFilter.

Module regexpFilter.
Record t {RE : Regexp} : Type := mk { fieldName : string; re : regexp }.
Arguments mk {RE} _ _.

Section Apply.
Context {HS : Hasher} {UC : Unicode} {FL : Float64} {VE : ValuesEncoder}
        {TK : Tokenizer} {RE : Regexp} {SI : StreamIndex}.

Definition apply (rf : t) (bs : blockSearch) : proc :=
  let fieldName := fieldName rf in
  let re := re rf in
  let v := getConstColumnValue bs fieldName in
  if negb (strEq v EmptyString) then
    if negb (MatchString re v) then clearAll else skip
  else
    match getColumnHeader bs fieldName with
    | None => if negb (MatchString re EmptyString) then clearAll else skip
    | Some ch =>
        match chValueType ch with
        | valueTypeString => matchStringByRegexp bs ch re
        | valueTypeDict => matchValuesDictByRegexp bs ch re
        | valueTypeUint8 => matchUint8ByRegexp bs ch re
        | valueTypeUint16 => matchUint16ByRegexp bs ch re
        | valueTypeUint32 => matchUint32ByRegexp bs ch re
        | valueTypeUint64 => matchUint64ByRegexp bs ch re
        | valueTypeFloat64 => matchFloat64ByRegexp bs ch re
        | valueTypeIPv4 => matchIPv4ByRegexp bs ch re
        | valueTypeTimestampISO8601 => matchTimestampISO8601ByRegexp bs ch re
        | valueTypeUnknown => panic
        end
    end.
End Apply.
End regexpFilter.

Module anyCasePrefixFilter.
Record t : Type := mk { fieldName : string; prefix : string }.

Section Apply.
Context {HS : Hasher} {UC : Unicode} {FL : Float64} {VE : ValuesEncoder}
        {TK : Tokenizer} {RE : Regexp} {SI : StreamIndex}.

Definition getTokens (pf : t) : list string := getTokensSkipLast (prefix pf).

Definition getPrefixLowercase (pf : t) : string := ToLower (prefix pf).

Definition apply (pf : t) (bs : blockSearch) : proc :=
  let fieldName := fieldName pf in
  let prefixLowercase := getPrefixLowercase pf in
  let v := getConstColumnValue bs fieldName in
  if negb (strEq v EmptyString) then
    if negb (matchAnyCasePrefix v prefixLowercase) then clearAll else skip
  else
    match getColumnHeader bs fieldName with
    | None => clearAll
    | Some ch =>
        let tokens := getTokens pf in
        match chValueType ch with
        | valueTypeString => matchStringByAnyCasePrefix bs ch prefixLowercase
        | valueTypeDict => matchValuesDictByAnyCasePrefix bs ch prefixLowercase
        | valueTypeUint8 => matchUint8ByPrefix bs ch prefixLowercase
        | valueTypeUint16 => matchUint16ByPrefix bs ch prefixLowercase
        | valueTypeUint32 => matchUint32ByPrefix bs ch prefixLowercase
        | valueTypeUint64 => matchUint64ByPrefix bs ch prefixLowercase
        | valueTypeFloat64 => matchFloat64ByPrefix bs ch prefixLowercase tokens
        | valueTypeIPv4 => matchIPv4ByPrefix bs ch prefixLowercase tokens
        | valueTypeTimestampISO8601 =>
            let prefixUppercase := ToUpper (prefix pf) in
            matchTimestampISO8601ByPrefix bs ch prefixUppercase tokens
        | valueTypeUnknown => panic
        end
    end.
End Apply.
End anyCasePrefixFilter.

Module prefixFilter.
Record t : Type := mk { fieldName : string; prefix : string }.

Section Apply.
Context {HS : Hasher} {UC : Unicode} {FL : Float64} {VE : ValuesEncoder}
        {TK : Tokenizer} {RE : Regexp} {SI : StreamIndex}.

Definition getTokens (pf : t) : list string := getTokensSkipLast (prefix pf).

Definition apply (pf : t) (bs : blockSearch) : proc :=
  let fieldName := fieldName pf in
  let prefix := prefix pf in
  let v := getConstColumnValue bs fieldName in
  if negb (strEq v EmptyString) then
    if negb (matchPrefix v prefix) then clearAll else skip
  else
    match getColumnHeader bs fieldName with
    | None => clearAll
    | Some ch =>
        let tokens := getTokens pf in
        match chValueType ch with
        | valueTypeString => matchStringByPrefix bs ch prefix tokens
        | valueTypeDict => matchValuesDictByPrefix bs ch prefix
        | valueTypeUint8 => matchUint8ByPrefix bs ch prefix
        | valueTypeUint16 => matchUint16ByPrefix bs ch prefix
        | valueTypeUint32 => matchUint32ByPrefix bs ch prefix
        | valueTypeUint64 => matchUint64ByPrefix bs ch prefix
        | valueTypeFloat64 => matchFloat64ByPrefix bs ch prefix tokens
        | valueTypeIPv4 => matchIPv4ByPrefix bs ch prefix tokens
        | valueTypeTimestampISO8601 => matchTimestampISO8601ByPrefix bs ch prefix tokens
        | valueTypeUnknown => panic
        end
    end.
End Apply.
End prefixFilter.

Module anyCasePhraseFilter.
Record t : Type := mk { fieldName : string; phrase : string }.

Section Apply.
Context {HS : Hasher} {UC : Unicode} {FL : Float64} {VE : ValuesEncoder}
        {TK : Tokenizer} {RE : Regexp} {SI : StreamIndex}.

Definition getTokens (pf : t) : list string := tokenizeStrings [] [phrase pf].

Definition getPhraseLowercase (pf : t) : string := ToLower (phrase pf).

Definition apply (pf : t) (bs : blockSearch) : proc :=
  let fieldName := fieldName pf in
  let phraseLowercase := getPhraseLowercase pf in
  let v := getConstColumnValue bs fieldName in
  if negb (strEq v EmptyString) then
    if negb (matchAnyCasePhrase v phraseLowercase) then clearAll else skip
  else
    match getColumnHeader bs fieldName with
    | None => if (0 <? String.length phraseLowercase)%nat then clearAll else skip
    | Some ch =>
        let tokens := getTokens pf in
        match chValueType ch with
        | valueTypeString => matchStringByAnyCasePhrase bs ch phraseLowercase
        | valueTypeDict => matchValuesDictByAnyCasePhrase bs ch phraseLowercase
        | valueTypeUint8 => matchUint8ByExactValue bs ch phraseLowercase tokens
        | valueTypeUint16 => matchUint16ByExactValue bs ch phraseLowercase tokens
        | valueTypeUint32 => matchUint32ByExactValue bs ch phraseLowercase tokens
        | valueTypeUint64 => matchUint64ByExactValue bs ch phraseLowercase tokens
        | valueTypeFloat64 => matchFloat64ByPhrase bs ch phraseLowercase tokens
        | valueTypeIPv4 => matchIPv4ByPhrase bs ch phraseLowercase tokens
        | valueTypeTimestampISO8601 =>
            let phraseUppercase := ToUpper (phrase pf) in
            matchTimestampISO8601ByPhrase bs ch phraseUppercase tokens
        | valueTypeUnknown => panic
        end
    end.
End Apply.
End anyCasePhraseFilter.

Module phraseFilter.
Record t : Type := mk { fieldName : string; phrase : string }.

Section Apply.
Context {HS : Hasher} {UC : Unicode} {FL : Float64} {VE : ValuesEncoder}
        {TK : Tokenizer} {RE : Regexp} {SI : StreamIndex}.

Definition getTokens (pf : t) : list string := tokenizeStrings [] [phrase pf].

Definition apply (pf : t) (bs : blockSearch) : proc :=
  let fieldName := fieldName pf in
  let phrase := phrase pf in
  let v := getConstColumnValue bs fieldName in
  if negb (strEq v EmptyString) then
    if negb (matchPhrase v phrase) then clearAll else skip
  else
    match getColumnHeader bs fieldName with
    | None => if (0 <? String.length phrase)%nat then clearAll else skip
    | Some ch =>
        let tokens := getTokens pf in
        match chValueType ch with
        | valueTypeString => matchStringByPhrase bs ch phrase tokens
        | valueTypeDict => matchValuesDictByPhrase bs ch phrase
        | valueTypeUint8 => matchUint8ByExactValue bs ch phrase tokens
        | valueTypeUint16 => matchUint16ByExactValue bs ch phrase tokens
        | valueTypeUint32 => matchUint32ByExactValue bs ch phrase tokens
        | valueTypeUint64 => matchUint64ByExactValue bs ch phrase tokens
        | valueTypeFloat64 => matchFloat64ByPhrase bs ch phrase tokens
        | valueTypeIPv4 => matchIPv4ByPhrase bs ch phrase tokens
        | valueTypeTimestampISO8601 => matchTimestampISO8601ByPhrase bs ch phrase tokens
        | valueTypeUnknown => panic
        end
    end.
End Apply.
End phraseFilter.

(** ** The interface [filter] *)

(** The types of the source that implement [filter]. *)
Inductive filter {FL : Float64} {RE : Regexp} {SI : StreamIndex} : Type :=
| StreamFilterOf (fs : streamFilter.t)
| ExactFilterOf (fe : exactFilter.t)
| InFilterOf (fi : inFilter.t)
| Ipv4RangeFilterOf (rf : ipv4RangeFilter.t)
| StringRangeFilterOf (rf : stringRangeFilter.t)
| LenRangeFilterOf (rf : lenRangeFilter.t)
| RangeFilterOf (rf : rangeFilter.t)
| RegexpFilterOf (rf : regexpFilter.t)
| AnyCasePrefixFilterOf (pf : anyCasePrefixFilter.t)
| PrefixFilterOf (pf : prefixFilter.t)
| AnyCasePhraseFilterOf (pf : anyCasePhraseFilter.t)
| PhraseFilterOf (pf : phraseFilter.t).

Section Apply.
Context {HS : Hasher} {UC : Unicode} {FL : Float64} {VE : ValuesEncoder}
        {TK : Tokenizer} {RE : Regexp} {SI : StreamIndex}.

(** The method [apply] of the interface, on the bitmap [bm] of the caller. *)
Definition apply (f : filter) (bs : blockSearch) : proc :=
  match f with
  | StreamFilterOf fs => streamFilter.apply fs bs
  | ExactFilterOf fe => exactFilter.apply fe bs
  | InFilterOf fi => inFilter.apply fi bs
  | Ipv4RangeFilterOf rf => ipv4RangeFilter.apply rf bs
  | StringRangeFilterOf rf => stringRangeFilter.apply rf bs
  | LenRangeFilterOf rf => lenRangeFilter.apply rf bs
  | RangeFilterOf rf => rangeFilter.apply rf bs
  | RegexpFilterOf rf => regexpFilter.apply rf bs
  | AnyCasePrefixFilterOf pf => anyCasePrefixFilter.apply pf bs
  | PrefixFilterOf pf => prefixFilter.apply pf bs
  | AnyCasePhraseFilterOf pf => anyCasePhraseFilter.apply pf bs
  | PhraseFilterOf pf => phraseFilter.apply pf bs
  end.
End Apply.

(** ** An instance of the parameters

    The theorems below hold for every hash function, every decoder,
    every parser.  This instance serves to run the model on blocks: its
    texts are ASCII, its numbers are integers, and a token is a string
    as a whole. *)

Module Sample.

(** A 64-bit hash in the manner of FNV-1a. *)
Definition fnv (b : list byte) : Z :=
  fold_left (fun h x => wrap64 (Z.lxor h (Z_of_byte x) * 1099511628211)) b
            14695981039346656037.

Definition hasher : Hasher := {| xxhash_Sum64 := fnv |}.

Definition lowerAscii (c : ascii) : ascii :=
  let n := Z_of_ascii c in
  if (65 <=? n) && (n <=? 90) then ascii_of_N (Z.to_N (n + 32)) else c.

Definition upperAscii (c : ascii) : ascii :=
  let n := Z_of_ascii c in
  if (97 <=? n) && (n <=? 122) then ascii_of_N (Z.to_N (n - 32)) else c.

Fixpoint mapString (f : ascii -> ascii) (s : string) : string :=
  match s with
  | EmptyString => EmptyString
  | String c s' => String (f c) (mapString f s')
  end.

(** ASCII texts: a byte from 128 on is an encoding error, one byte long. *)
Definition unicode : Unicode := {|
  decodeRuneMultibyte := fun _ => (RuneError, 1%nat);
  decodeLastRuneMultibyte := fun _ => (RuneError, 1%nat);
  RuneCountInString := fun s => Z.of_nat (String.length s);
  isLetterBeyondASCII := fun _ => false;
  isDigitBeyondASCII := fun _ => false;
  ToLower := mapString lowerAscii;
  ToUpper := mapString upperAscii;
  AppendLowercase := fun dst s => dst ++ ToUnsafeBytes (mapString lowerAscii s)
|}.

(** Integers in the place of floating-point numbers. *)
Definition integers : Float64 := {|
  float64 := Z;
  f64lt := Z.ltb;
  f64le := Z.leb;
  Float64frombits := fun n => n;
  Float64bits := fun f => wrap64 f;
  Ceil := fun f => f;
  Floor := fun f => f;
  f64zero := 0;
  f64MaxUint64 := 2 ^ 64 - 1;
  f64toUint64 := fun f => wrap64 f
|}.

Fixpoint parseDigits (acc : Z) (s : string) : option Z :=
  match s with
  | EmptyString => Some acc
  | String c s' =>
      let d := Z_of_ascii c - 48 in
      if (0 <=? d) && (d <=? 9) then parseDigits (acc * 10 + d) s' else None
  end.

(** A decimal number below 2^64, of one digit at least. *)
Definition parseUint64 (s : string) : option Z :=
  match s with
  | EmptyString => None
  | _ =>
      match parseDigits 0 s with
      | Some n => if n <? 2 ^ 64 then Some n else None
      | None => None
      end
  end.

(** Numbers only: no text is an address or a timestamp, and a number is
    rendered in decimal. *)
Definition encoder : @ValuesEncoder integers := {|
  tryParseUint64 := parseUint64;
  tryParseFloat64 := parseUint64 : string -> option (@float64 integers);
  tryParseIPv4 := fun _ => None;
  tryParseTimestampISO8601 := fun _ => None;
  toFloat64String := fun dst v => AppendUint dst (le_value (ToUnsafeBytes v));
  toIPv4String := fun dst v => AppendUint dst (le_value (ToUnsafeBytes v));
  toTimestampISO8601String := fun dst v => AppendUint dst (le_value (ToUnsafeBytes v));
  iso8601Timestamp := "2006-01-02T15:04:05.000Z"
|}.

(** Every string that is not empty is one token. *)
Definition tokenizer : Tokenizer := {|
  tokenizeStrings := fun dst a =>
    dst ++ List.filter (fun s => negb (strEq s EmptyString)) a
|}.

(** A pattern is a text, and matches the strings it stands in. *)
Definition patterns : Regexp := {|
  regexp := string;
  MatchString := fun re s => 0 <=? Index s re
|}.

(** Streams are numbered, and the index is the list of the streams of a
    filter. *)
Definition streams : StreamIndex := {|
  StreamFilter := list nat;
  TenantID := nat;
  indexdb := unit;
  streamID := nat;
  isEmpty := fun f => (length f =? 0)%nat;
  searchStreamIDs := fun _ _ f => f
|}.

(** A block of four rows with one column, [level], of type uint8, which
    holds 1, 2, 3 and 4, and the bloom filter of its tokens. *)
Definition levelHeader : columnHeader :=
  mkColumnHeader "level" valueTypeUint8 1 4 [].

Definition levelBloomFilter : bloomFilter :=
  match @mustInitTokens hasher (mkBloomFilter emptySlice) ["1"; "2"; "3"; "4"] with
  | Some bf => bf
  | None => mkBloomFilter emptySlice
  end.

Definition block : @blockSearch streams :=
  @mkBlockSearch streams
    (fun _ => EmptyString)
    (fun fieldName => if strEq fieldName "level" then Some levelHeader else None)
    (fun _ => [uint8Value 1; uint8Value 2; uint8Value 3; uint8Value 4])
    (fun _ => levelBloomFilter)
    4
    7%nat
    "/parts/sample".

Definition allRows : bitmap := [true; true; true; true].

(** The same block with a second row whose value is two bytes long: a
    value that no uint8 column can hold. *)
Definition corruptBlock : @blockSearch streams :=
  @mkBlockSearch streams
    (fun _ => EmptyString)
    (fun fieldName => if strEq fieldName "level" then Some levelHeader else None)
    (fun _ => [uint8Value 1; "ab"; uint8Value 3; uint8Value 4])
    (fun _ => levelBloomFilter)
    4
    7%nat
    "/parts/corrupt".

End Sample.

(** ** The pool of bloom filters and the marshalers *)

(** [getBloomFilter]: [v] is what [bloomFilterPool.Get()] returns, [None]
    for [nil]. *)
Definition getBloomFilter (v : option bloomFilter) : bloomFilter :=
  match v with
  | None => mkBloomFilter emptySlice
  | Some bf => bf
  end.

(** [putBloomFilter]: the filter that goes into the pool. *)
Definition putBloomFilter (bf : bloomFilter) : bloomFilter := reset bf.

(** [bloomFilterMarshalTokens] and [bloomFilterMarshalHashes]: the bytes
    returned and the filter put back into the pool; [None] is a panic. *)
Definition bloomFilterMarshalTokens `{Hasher} (v : option bloomFilter)
    (dst : list byte) (tokens : list string) : option (list byte * bloomFilter) :=
  let bf := getBloomFilter v in
  match mustInitTokens bf tokens with
  | None => None
  | Some bf =>
      let dst := marshal bf dst in
      Some (dst, putBloomFilter bf)
  end.

Definition bloomFilterMarshalHashes `{Hasher} (v : option bloomFilter)
    (dst : list byte) (hashes : list Z) : option (list byte * bloomFilter) :=
  let bf := getBloomFilter v in
  match mustInitHashes bf hashes with
  | None => None
  | Some bf =>
      let dst := marshal bf dst in
      Some (dst, putBloomFilter bf)
  end.

(** ** Package storage: the TSID *)

Module TSID.
Record t : Type := mk { MetricGroupID : Z; MetricID : Z }.

Definition Marshal (x : t) (dst : list byte) : list byte :=
  let dst := MarshalUint64 dst (MetricGroupID x) in
  let dst := MarshalUint64 dst (MetricID x) in
  dst.

(** [marshaledTSIDSize]: the length of a marshaled zero value. *)
Definition marshaledTSIDSize : nat := length (Marshal (mk 0 0) []).

(** The result of [Unmarshal]: the value read and the tail of the source,
    the error with the two lengths it reports, or a runtime panic. *)
Inductive unmarshalResult : Type :=
| Done (x : t) (tail : list byte)
| TooShort (got want : nat)
| Panic.

Definition Unmarshal (src : list byte) : unmarshalResult :=
  if (length src <? marshaledTSIDSize)%nat then TooShort (length src) marshaledTSIDSize
  else
    match UnmarshalUint64 src with
    | None => Panic
    | Some g =>
        let src := drop 8 src in
        match UnmarshalUint64 src with
        | None => Panic
        | Some m =>
            let src := drop 8 src in
            Done (mk g m) src
        end
    end.

Definition Less (a b : t) : bool :=
  if negb (MetricGroupID a =? MetricGroupID b) then MetricGroupID a <? MetricGroupID b
  else MetricID a <? MetricID b.
End TSID.

(** ** Package limits: the labels of a time series *)

Module limits.
(** [prompbmarshal.Label]. *)
Record Label : Type := mkLabel { Name : string; Value : string }.

Definition maxLabelNameLen : Z := 256.

(** The three counters of dropped series, each an [atomic.Uint64]. *)
Record counters : Type := mkCounters {
  droppedSeriesWithTooManyLabels : Z;
  droppedSeriesWithTooLongLabelName : Z;
  droppedSeriesWithTooLongLabelValue : Z
}.

(** What a call may log: the warning of one of the three [track...]
    functions, with the label it names. *)
Inductive warning : Type :=
| TooManyLabels (n : nat)
| TooLongLabelName (l : Label)
| TooLongLabelValue (l : Label).

(** The state a call works on: the counters and the warnings logged. *)
Record state : Type := mkState { cnt : counters; logged : list warning }.

(** The [select] on a ticker: [tick] says whether the ticker has fired,
    and only then the warning is logged. *)
Definition logIf (tick : bool) (w : warning) (st : state) : state :=
  if tick then mkState (cnt st) (logged st ++ [w]) else st.

Definition trackDroppedSeriesWithTooManyLabels (tick : bool) (labels : list Label)
    (st : state) : state :=
  let c := cnt st in
  let st := mkState (mkCounters (wrap64 (droppedSeriesWithTooManyLabels c + 1))
                                (droppedSeriesWithTooLongLabelName c)
                                (droppedSeriesWithTooLongLabelValue c)) (logged st) in
  logIf tick (TooManyLabels (length labels)) st.

Definition trackDroppedSeriesWithTooLongLabelValue (tick : bool) (l : Label)
    (st : state) : state :=
  let c := cnt st in
  let st := mkState (mkCounters (droppedSeriesWithTooManyLabels c)
                                (droppedSeriesWithTooLongLabelName c)
                                (wrap64 (droppedSeriesWithTooLongLabelValue c + 1))) (logged st) in
  logIf tick (TooLongLabelValue l) st.

Definition trackDroppedSeriesWithTooLongLabelName (tick : bool) (l : Label)
    (st : state) : state :=
  let c := cnt st in
  let st := mkState (mkCounters (droppedSeriesWithTooManyLabels c)
                                (wrap64 (droppedSeriesWithTooLongLabelName c + 1))
                                (droppedSeriesWithTooLongLabelValue c)) (logged st) in
  logIf tick (TooLongLabelName l) st.

(** The loop of [ExceedingLabels] over the labels. *)
Fixpoint exceedingLoop (maxLabelValueLen : Z) (tick : bool) (labels : list Label)
    (rest : list Label) (st : state) : bool * state :=
  match rest with
  | [] => (false, st)
  | l :: rest' =>
      if maxLabelNameLen <? Z.of_nat (String.length (Name l)) then
        (true, trackDroppedSeriesWithTooLongLabelName tick l st)
      else if maxLabelValueLen <? Z.of_nat (String.length (Value l)) then
        (true, trackDroppedSeriesWithTooLongLabelValue tick l st)
      else exceedingLoop maxLabelValueLen tick labels rest' st
  end.

(** [ExceedingLabels]; the two flags are [maxLabelsPerTimeseries] and
    [maxLabelValueLen], [tick] is the ticker of the warning that the call
    may log. *)
Definition ExceedingLabels (maxLabelsPerTimeseries maxLabelValueLen : Z) (tick : bool)
    (labels : list Label) (st : state) : bool * state :=
  if maxLabelsPerTimeseries <? Z.of_nat (length labels) then
    (true, trackDroppedSeriesWithTooManyLabels tick labels st)
  else exceedingLoop maxLabelValueLen tick labels labels st.
End limits.

(** * Properties *)

(** ** Bytes and words *)

Lemma Z_of_byte_range (b : byte) : 0 <= Z_of_byte b < 256.
Proof.
  unfold Z_of_byte. pose proof (Byte.to_N_bounded b). lia.
Qed.

Lemma byte_of_Z_of_byte (b : byte) (v : Z) : byte_of_Z (Z_of_byte b + 256 * v) = b.
Proof.
  unfold byte_of_Z.
  pose proof (Z_of_byte_range b) as Hb.
  replace ((Z_of_byte b + 256 * v) mod 256) with (Z_of_byte b).
  - unfold Z_of_byte. rewrite N2Z.id, Byte.of_to_N. reflexivity.
  - rewrite (Z.mul_comm 256 v), Z.mod_add by lia.
    symmetry. apply Z.mod_small. lia.
Qed.

Lemma le_bytes_le_value (bs : list byte) : le_bytes (length bs) (le_value bs) = bs.
Proof.
  induction bs as [|b bs IH]; simpl; [reflexivity|].
  rewrite byte_of_Z_of_byte. f_equal.
  pose proof (Z_of_byte_range b) as Hb.
  replace ((Z_of_byte b + 256 * le_value bs) / 256) with (le_value bs); [exact IH|].
  rewrite (Z.mul_comm 256 (le_value bs)), Z.div_add by lia.
  rewrite (Z.div_small (Z_of_byte b)) by lia. lia.
Qed.

(** ** Wire format of the bloom filter *)

Lemma SetLength_length {A : Type} (zero : A) (a : slice A) (n : nat) :
  length (elems (SetLength zero a n)) = n.
Proof.
  unfold SetLength; simpl.
  rewrite length_take, !length_app, repeat_length. lia.
Qed.

Lemma marshal_fold (ws : list Z) (dst : list byte) :
  fold_left MarshalUint64 ws dst = dst ++ concat (map (le_bytes 8) ws).
Proof.
  revert dst. induction ws as [|w ws IH]; intros dst; simpl.
  - rewrite app_nil_r. reflexivity.
  - rewrite IH. unfold MarshalUint64. rewrite <- app_assoc. reflexivity.
Qed.

Lemma UnmarshalUint64_le_bytes (src : list byte) :
  (8 <= length src)%nat ->
  exists w, UnmarshalUint64 src = Some w /\ le_bytes 8 w = take 8 src.
Proof.
  intros Hlen. unfold UnmarshalUint64.
  destruct (Nat.ltb_spec (length src) 8) as [Hlt|_]; [lia|].
  eexists. split; [reflexivity|].
  assert (Hl : length (take 8 src) = 8%nat) by (rewrite length_take; lia).
  rewrite <- Hl at 1. apply le_bytes_le_value.
Qed.

Lemma unmarshalWords_total (bits : list Z) (src : list byte) :
  length src = (8 * length bits)%nat ->
  exists ws, unmarshalWords bits src = Some ws
             /\ concat (map (le_bytes 8) ws) = src.
Proof.
  revert src. induction bits as [|b bits IH]; intros src Hlen;
    cbn [unmarshalWords length] in *.
  - exists []. split; [reflexivity|]. destruct src; [reflexivity|discriminate].
  - destruct (UnmarshalUint64_le_bytes src) as (w & Hw & Hbytes); [lia|].
    rewrite Hw.
    destruct (IH (drop 8 src)) as (ws & Hws & Hcat).
    { rewrite length_drop. lia. }
    rewrite Hws. exists (w :: ws). split; [reflexivity|].
    cbn [map concat]. rewrite Hbytes, Hcat. apply take_drop.
Qed.

Lemma unmarshal_error_iff (bf : bloomFilter) (src : list byte) :
  (exists n, unmarshal bf src = UnmarshalError n) <-> (length src mod 8)%nat <> 0%nat.
Proof.
  unfold unmarshal.
  destruct (Nat.eqb_spec (length src mod 8) 0) as [Heq|Hne]; simpl.
  - split; [|intros Hne; contradiction].
    intros [n Hn].
    destruct (unmarshalWords _ src); discriminate.
  - split; [intros _; exact Hne|]. intros _. eexists; reflexivity.
Qed.

Lemma unmarshal_done (bf : bloomFilter) (src : list byte) :
  (length src mod 8)%nat = 0%nat ->
  exists bf', unmarshal bf src = UnmarshalDone bf' /\ forall dst, marshal bf' dst = dst ++ src.
Proof.
  intros Hmod. unfold unmarshal. rewrite Hmod. cbn [Nat.eqb negb]. cbv zeta.
  destruct (unmarshalWords_total
              (elems (SetLength 0 (bits (reset bf)) (length src / 8))) src)
    as (ws & Hws & Hcat).
  { rewrite SetLength_length.
    pose proof (Nat.div_mod_eq (length src) 8). lia. }
  rewrite Hws. eexists. split; [reflexivity|].
  intros dst. unfold marshal. simpl. rewrite marshal_fold, Hcat. reflexivity.
Qed.

(** C3. [unmarshal] returns an error exactly when the length of the
    source is not a multiple of 8; on every source whose length is a
    multiple of 8 it succeeds, whatever the filter held before, and
    marshalling the filter it leaves gives the source back. *)
Theorem unmarshal_marshal_roundtrip (bf : bloomFilter) (src : list byte) :
  ((exists n, unmarshal bf src = UnmarshalError n) <-> (length src mod 8)%nat <> 0%nat)
  /\ ((length src mod 8)%nat = 0%nat ->
      exists bf', unmarshal bf src = UnmarshalDone bf' /\ marshal bf' [] = src).
Proof.
  split; [apply unmarshal_error_iff|].
  intros Hmod. destruct (unmarshal_done bf src Hmod) as (bf' & Hdone & Hm).
  exists bf'. split; [exact Hdone|]. apply (Hm []).
Qed.

(** ** The bloom filter has no false negatives *)

(** Bit [j] of word [i] is where the hash [h] lands in [bits], and it is set. *)
Definition hasBit (bits : list Z) (h : Z) : Prop :=
  exists i j w,
    bitPosition (length bits) h = Some (i, Z.shiftl 1 j)
    /\ 0 <= j /\ bits !! i = Some w /\ Z.testbit w j = true.

(** Every bit set in [a] is set in [b]. *)
Definition bitsIncluded (a b : list Z) : Prop :=
  length a = length b
  /\ forall i w, a !! i = Some w ->
       exists w', b !! i = Some w'
                  /\ forall k, 0 <= k -> Z.testbit w k = true -> Z.testbit w' k = true.

Lemma bitsIncluded_refl (a : list Z) : bitsIncluded a a.
Proof. split; [reflexivity|]. intros i w Hw. exists w. auto. Qed.

Lemma bitsIncluded_trans (a b c : list Z) :
  bitsIncluded a b -> bitsIncluded b c -> bitsIncluded a c.
Proof.
  intros [Hl1 H1] [Hl2 H2]. split; [congruence|].
  intros i w Hw. destruct (H1 i w Hw) as (w1 & Hw1 & Hk1).
  destruct (H2 i w1 Hw1) as (w2 & Hw2 & Hk2).
  exists w2. split; [exact Hw2|]. auto.
Qed.

Lemma hasBit_included (a b : list Z) (h : Z) :
  bitsIncluded a b -> hasBit a h -> hasBit b h.
Proof.
  intros [Hl Hincl] (i & j & w & Hpos & Hj & Hw & Hbit).
  destruct (Hincl i w Hw) as (w' & Hw' & Hk).
  exists i, j, w'. rewrite <- Hl. auto.
Qed.

Lemma bitPosition_spec (len : nat) (h : Z) :
  (0 < len)%nat -> Z.of_nat len * 64 < 2 ^ 64 ->
  exists i j, bitPosition len h = Some (i, Z.shiftl 1 j)
              /\ (i < len)%nat /\ 0 <= j < 64.
Proof.
  intros Hpos Hsmall. unfold bitPosition, wrap64.
  rewrite (Z.mod_small (Z.of_nat len * 64)) by lia.
  destruct (Z.eqb_spec (Z.of_nat len * 64) 0) as [Hz|_]; [lia|].
  set (idx := h mod (Z.of_nat len * 64)).
  assert (Hidx : 0 <= idx < Z.of_nat len * 64) by (apply Z.mod_pos_bound; lia).
  assert (Hj : 0 <= idx mod 64 < 64) by (apply Z.mod_pos_bound; lia).
  assert (Hi : 0 <= idx / 64 < Z.of_nat len).
  { split; [apply Z.div_pos; lia|]. apply Z.div_lt_upper_bound; lia. }
  exists (Z.to_nat (idx / 64)), (idx mod 64).
  split; [|split; [lia|exact Hj]].
  rewrite Z.mod_small; [reflexivity|].
  rewrite Z.shiftl_1_l. split; [apply Z.pow_nonneg; lia|].
  apply Z.pow_lt_mono_r; lia.
Qed.

Lemma land_mask_testbit (w j : Z) :
  0 <= j -> (Z.land w (Z.shiftl 1 j) =? 0) = negb (Z.testbit w j).
Proof.
  intros Hj. rewrite Z.shiftl_1_l.
  destruct (Z.testbit w j) eqn:Hbit; simpl.
  - apply Z.eqb_neq. intros Hz.
    assert (Hb : Z.testbit (Z.land w (2 ^ j)) j = true).
    { rewrite Z.land_spec, Hbit, Z.pow2_bits_true by lia. reflexivity. }
    rewrite Hz, Z.bits_0 in Hb. discriminate.
  - apply Z.eqb_eq. apply Z.bits_inj'. intros k Hk.
    rewrite Z.land_spec, Z.bits_0, Z.pow2_bits_eqb by lia.
    destruct (Z.eqb_spec j k) as [->|_].
    + rewrite Hbit. reflexivity.
    + apply andb_false_r.
Qed.

(** One iteration of [initBloomFilter] keeps every bit and sets its own. *)
Lemma setBit_spec (bits : list Z) (i : nat) (j w : Z) :
  0 <= j -> bits !! i = Some w ->
  let bits' :=
    if Z.land w (Z.shiftl 1 j) =? 0 then <[i := Z.lor w (Z.shiftl 1 j)]> bits else bits in
  bitsIncluded bits bits'
  /\ exists w', bits' !! i = Some w' /\ Z.testbit w' j = true.
Proof.
  intros Hj Hw. cbv zeta. rewrite land_mask_testbit by exact Hj.
  destruct (Z.testbit w j) eqn:Hbit; simpl.
  - split; [apply bitsIncluded_refl|]. exists w. auto.
  - assert (Hlt : (i < length bits)%nat) by (eapply lookup_lt_Some; exact Hw).
    split.
    + split; [rewrite length_insert; reflexivity|].
      intros i' w0 Hw0. destruct (decide (i = i')) as [<-|Hne].
      * rewrite list_lookup_insert_eq by exact Hlt.
        eexists. split; [reflexivity|]. intros k Hk Hbk.
        rewrite Z.lor_spec. replace w0 with w in Hbk by congruence.
        rewrite Hbk. reflexivity.
      * rewrite list_lookup_insert_ne by exact Hne. exists w0. auto.
    + rewrite list_lookup_insert_eq by exact Hlt.
      eexists. split; [reflexivity|].
      rewrite Z.lor_spec, Z.shiftl_1_l, Z.pow2_bits_true by lia.
      apply orb_true_r.
Qed.

Lemma initBloomFilter_spec (hashes bits : list Z) :
  (0 < length bits)%nat -> Z.of_nat (length bits) * 64 < 2 ^ 64 ->
  exists bits', initBloomFilter bits hashes = Some bits'
                /\ bitsIncluded bits bits'
                /\ forall h, h ∈ hashes -> hasBit bits' h.
Proof.
  revert bits. induction hashes as [|h hashes IH]; intros bits Hpos Hsmall.
  - exists bits. split; [reflexivity|]. split; [apply bitsIncluded_refl|].
    intros h Hh. inversion Hh.
  - cbn [initBloomFilter].
    destruct (bitPosition_spec (length bits) h Hpos Hsmall) as (i & j & Hp & Hi & Hj).
    rewrite Hp.
    destruct (lookup_lt_is_Some_2 bits i Hi) as [w Hw]. rewrite Hw.
    destruct (setBit_spec bits i j w (proj1 Hj) Hw) as [Hincl (w' & Hw' & Hbit)].
    cbv zeta in Hincl, Hw'.
    set (bits1 := if Z.land w (Z.shiftl 1 j) =? 0
                  then <[i := Z.lor w (Z.shiftl 1 j)]> bits else bits) in *.
    assert (Hlen1 : length bits1 = length bits) by (symmetry; apply Hincl).
    destruct (IH bits1) as (bits' & Hinit & Hincl' & Hall); [lia|lia|].
    exists bits'. split; [exact Hinit|].
    split; [eapply bitsIncluded_trans; eassumption|].
    intros h' Hh'. apply elem_of_cons in Hh' as [->|Hh']; [|apply Hall; exact Hh'].
    apply (hasBit_included bits1); [exact Hincl'|].
    exists i, j, w'. rewrite Hlen1.
    split; [exact Hp|]. split; [apply Hj|]. split; [exact Hw'|exact Hbit].
Qed.

Lemma containsAllLoop_hasBit (bits hashes : list Z) :
  (forall h, h ∈ hashes -> hasBit bits h) -> containsAllLoop bits hashes = Some true.
Proof.
  induction hashes as [|h hashes IH]; intros Hall; [reflexivity|].
  cbn [containsAllLoop].
  destruct (Hall h) as (i & j & w & Hp & Hj & Hw & Hbit); [left|].
  rewrite Hp, Hw, land_mask_testbit, Hbit by exact Hj. simpl.
  apply IH. intros h' Hh'. apply Hall. right. exact Hh'.
Qed.

Section HashesOfTokens.
Context {H : Hasher}.

Lemma elem_of_appendTokensHashes (x : Z) (tokens : list string) (dst : list Z) :
  x ∈ appendTokensHashes dst tokens <->
  x ∈ dst \/ exists t, t ∈ tokens
                       /\ x ∈ hashChain bloomFilterHashesCount (Sum64 (list_byte_of_string t)).
Proof.
  revert dst. induction tokens as [|t tokens IH]; intros dst; cbn [appendTokensHashes].
  - split; [auto|]. intros [Hx|(t & Ht & _)]; [exact Hx|inversion Ht].
  - rewrite IH, elem_of_app. split.
    + intros [[Hx|Hx]|(t' & Ht' & Hx)]; [auto| |].
      * right. exists t. split; [left|exact Hx].
      * right. exists t'. split; [right; exact Ht'|exact Hx].
    + intros [Hx|(t' & Ht' & Hx)]; [auto|].
      apply elem_of_cons in Ht' as [->|Ht']; [auto|].
      right. exists t'. auto.
Qed.

Lemma wordsCount_bounds (n : nat) :
  Z.of_nat n < 2 ^ 56 ->
  let wordsCount := ((n * bloomFilterBitsPerItem + 63) / 64)%nat in
  Z.of_nat wordsCount * 64 < 2 ^ 64 /\ ((0 < n)%nat -> (0 < wordsCount)%nat).
Proof.
  intros Hn. cbv zeta. unfold bloomFilterBitsPerItem.
  pose proof (Nat.Div0.mul_div_le (n * 16 + 63) 64) as Hle.
  split.
  - lia.
  - intros Hpos. apply (Nat.div_le_lower_bound (n * 16 + 63) 64 1); lia.
Qed.

(** C1. A bloom filter built by [mustInitTokens] from a list of tokens
    (of a length a Go slice can have) is built without a panic, and
    [containsAll] is true on the hashes [appendTokensHashes] derives from
    any list of tokens taken among them, whatever the filter held
    before: there is no false negative. *)
Theorem bloomFilter_no_false_negative
    (bf : bloomFilter) (tokens sub : list string) :
  Z.of_nat (length tokens) < 2 ^ 56 ->
  (forall t, t ∈ sub -> t ∈ tokens) ->
  exists bf', mustInitTokens bf tokens = Some bf'
              /\ containsAll bf' (appendTokensHashes [] sub) = Some true.
Proof.
  intros Hsize Hsub. unfold mustInitTokens, bloomFilterAddTokens.
  destruct (wordsCount_bounds (length tokens) Hsize) as [Hsmall Hpos].
  cbv zeta in Hsmall, Hpos.
  set (wordsCount := ((length tokens * bloomFilterBitsPerItem + 63) / 64)%nat) in *.
  set (b := SetLength 0 (bits bf) wordsCount).
  assert (Hlen : length (elems b) = wordsCount) by apply SetLength_length.
  destruct tokens as [|t0 tokens].
  - (* no token: no hash to add, and no token to ask for *)
    cbn [appendTokensHashes initBloomFilter].
    eexists. split; [reflexivity|].
    destruct sub as [|s sub]; [|exfalso; specialize (Hsub s); rewrite elem_of_nil in Hsub;
                                 apply Hsub; left].
    unfold containsAll. cbn [bits elems appendTokensHashes].
    destruct (length (elems b) =? 0)%nat; reflexivity.
  - destruct (initBloomFilter_spec (appendTokensHashes [] (t0 :: tokens)) (elems b))
      as (ws & Hinit & [Hl _] & Hall).
    { rewrite Hlen. apply Hpos. simpl. lia. }
    { rewrite Hlen. exact Hsmall. }
    rewrite Hinit. eexists. split; [reflexivity|].
    unfold containsAll. cbn [bits elems].
    destruct (length ws =? 0)%nat; [reflexivity|].
    apply containsAllLoop_hasBit. intros h Hh. apply Hall.
    apply elem_of_appendTokensHashes in Hh as [Hh|(t & Ht & Hh)]; [inversion Hh|].
    apply elem_of_appendTokensHashes. right. exists t. split; [apply Hsub; exact Ht|exact Hh].
Qed.
End HashesOfTokens.

(** ** Filters only clear bits *)

(** Every bit of [bm'] is a bit of [bm] that was set, or is cleared. *)
Definition bitmapIncluded (bm' bm : bitmap) : Prop :=
  Forall2 (fun b' b => b' = true -> b = true) bm' bm.

Definition onlyClears (p : proc) : Prop :=
  forall bm, bitmapIncluded (fst (p bm)) bm.

Lemma bitmapIncluded_refl (bm : bitmap) : bitmapIncluded bm bm.
Proof. induction bm; constructor; auto. Qed.

Lemma bitmapIncluded_resetBits (bm : bitmap) : bitmapIncluded (resetBits bm) bm.
Proof. induction bm; constructor; [discriminate|assumption]. Qed.

Lemma bitmapIncluded_forEachSetBitFrom (f : nat -> option bool) (bm : bitmap) (idx : nat) :
  bitmapIncluded (fst (forEachSetBitFrom idx f bm)) bm.
Proof.
  revert idx. induction bm as [|b bm IH]; intros idx; cbn [forEachSetBitFrom].
  - constructor.
  - specialize (IH (S idx)).
    destruct b.
    + destruct (f idx) as [keep|]; [|apply bitmapIncluded_refl].
      destruct (forEachSetBitFrom (S idx) f bm) as [bm'' st]. cbn [fst] in *.
      constructor; auto.
    + destruct (forEachSetBitFrom (S idx) f bm) as [bm'' st]. cbn [fst] in *.
      constructor; auto.
Qed.

Lemma bitmapIncluded_lookup (bm' bm : bitmap) :
  bitmapIncluded bm' bm ->
  length bm' = length bm
  /\ forall i, (bm' !! i = Some true -> bm !! i = Some true)
               /\ (bm !! i = Some false -> bm' !! i = Some false).
Proof.
  intros Hincl. split; [eapply Forall2_length; exact Hincl|].
  induction Hincl as [|b' b bm' bm Hb _ IH]; intros i.
  - split; intros Hi; inversion Hi.
  - destruct i as [|i]; cbn [lookup list_lookup].
    + split; intros Hi.
      * f_equal. apply Hb. congruence.
      * f_equal. destruct b'; [|reflexivity].
        specialize (Hb eq_refl). congruence.
    + apply IH.
Qed.

Create HintDb clears discriminated.

Lemma onlyClears_skip : onlyClears skip.
Proof. intros bm. apply bitmapIncluded_refl. Qed.

Lemma onlyClears_clearAll : onlyClears clearAll.
Proof. intros bm. apply bitmapIncluded_resetBits. Qed.

Lemma onlyClears_panic : onlyClears panic.
Proof. intros bm. apply bitmapIncluded_refl. Qed.

Lemma onlyClears_branch (c : option bool) (p q : proc) :
  onlyClears p -> onlyClears q -> onlyClears (branch c p q).
Proof.
  intros Hp Hq. destruct c as [[|]|]; cbn [branch]; auto using onlyClears_panic.
Qed.

Lemma onlyClears_visitValues `{StreamIndex} (bs : blockSearch) (ch : columnHeader)
    (f : string -> option bool) :
  onlyClears (visitValues bs ch f).
Proof.
  intros bm. unfold visitValues.
  destruct (isZero bm); [apply bitmapIncluded_refl|].
  apply bitmapIncluded_forEachSetBitFrom.
Qed.

#[local] Hint Resolve onlyClears_skip onlyClears_clearAll onlyClears_panic
  onlyClears_branch onlyClears_visitValues : clears.

(** The head constant of a procedure: the matcher to look into next. *)
Ltac procHead p :=
  lazymatch p with
  | ?f _ => procHead f
  | _ => p
  end.

(** One step in a procedure: a branch of the source is a case of the
    proof; a matcher that is none of the basic procedures is unfolded. *)
Ltac clearsStep :=
  lazymatch goal with
  | |- onlyClears (if ?c then _ else _) => destruct c
  | |- onlyClears (match ?x with _ => _ end) => destruct x
  | |- onlyClears ?p =>
      first [ solve [auto with clears]
            | let h := procHead p in unfold h ]
  end.

Ltac clears := cbv zeta; repeat (clearsStep; cbv zeta).

Section OnlyClears.
Context {HS : Hasher} {UC : Unicode} {FL : Float64} {VE : ValuesEncoder}
        {TK : Tokenizer} {RE : Regexp} {SI : StreamIndex}.

Lemma streamFilter_onlyClears (fs : streamFilter.t) (bs : blockSearch) :
  onlyClears (streamFilter.apply fs bs).
Proof. clears. Qed.

Lemma exactFilter_onlyClears (fe : exactFilter.t) (bs : blockSearch) :
  onlyClears (exactFilter.apply fe bs).
Proof. clears. Qed.

Lemma inFilter_onlyClears (fi : inFilter.t) (bs : blockSearch) :
  onlyClears (inFilter.apply fi bs).
Proof. clears. Qed.

Lemma ipv4RangeFilter_onlyClears (rf : ipv4RangeFilter.t) (bs : blockSearch) :
  onlyClears (ipv4RangeFilter.apply rf bs).
Proof. clears. Qed.

Lemma stringRangeFilter_onlyClears (rf : stringRangeFilter.t) (bs : blockSearch) :
  onlyClears (stringRangeFilter.apply rf bs).
Proof. clears. Qed.

Lemma lenRangeFilter_onlyClears (rf : lenRangeFilter.t) (bs : blockSearch) :
  onlyClears (lenRangeFilter.apply rf bs).
Proof. clears. Qed.

Lemma rangeFilter_onlyClears (rf : rangeFilter.t) (bs : blockSearch) :
  onlyClears (rangeFilter.apply rf bs).
Proof. clears. Qed.

Lemma regexpFilter_onlyClears (rf : regexpFilter.t) (bs : blockSearch) :
  onlyClears (regexpFilter.apply rf bs).
Proof. clears. Qed.

Lemma anyCasePrefixFilter_onlyClears (pf : anyCasePrefixFilter.t) (bs : blockSearch) :
  onlyClears (anyCasePrefixFilter.apply pf bs).
Proof. clears. Qed.

Lemma prefixFilter_onlyClears (pf : prefixFilter.t) (bs : blockSearch) :
  onlyClears (prefixFilter.apply pf bs).
Proof. clears. Qed.

Lemma anyCasePhraseFilter_onlyClears (pf : anyCasePhraseFilter.t) (bs : blockSearch) :
  onlyClears (anyCasePhraseFilter.apply pf bs).
Proof. clears. Qed.

Lemma phraseFilter_onlyClears (pf : phraseFilter.t) (bs : blockSearch) :
  onlyClears (phraseFilter.apply pf bs).
Proof. clears. Qed.

#[local] Hint Resolve streamFilter_onlyClears exactFilter_onlyClears inFilter_onlyClears
  ipv4RangeFilter_onlyClears stringRangeFilter_onlyClears lenRangeFilter_onlyClears
  rangeFilter_onlyClears regexpFilter_onlyClears anyCasePrefixFilter_onlyClears
  prefixFilter_onlyClears anyCasePhraseFilter_onlyClears phraseFilter_onlyClears : clears.

(** C2. For every filter variant, every block and every bitmap, [apply]
    only clears bits, whether it returns or panics: the bitmap keeps its
    length, every bit set after [apply] was set before it, and every bit
    cleared before it is cleared after it. *)
Theorem apply_only_clears_bits (f : filter) (bs : blockSearch) (bm : bitmap) :
  let bm' := fst (apply f bs bm) in
  length bm' = length bm
  /\ forall i, (bm' !! i = Some true -> bm !! i = Some true)
               /\ (bm !! i = Some false -> bm' !! i = Some false).
Proof.
  cbv zeta. apply bitmapIncluded_lookup.
  revert bm. change (onlyClears (apply f bs)).
  destruct f; cbn [apply]; auto with clears.
Qed.
End OnlyClears.

(** ** Fast paths of [apply] *)

Lemma resetBits_replicate (bm : bitmap) : resetBits bm = replicate (length bm) false.
Proof. induction bm as [|b bm IH]; simpl; [reflexivity|]. rewrite <- IH. reflexivity. Qed.

Lemma strEq_empty (s : string) : strEq s EmptyString = bool_decide (s = EmptyString).
Proof. destruct s; reflexivity. Qed.

Section FastPaths.
Context {HS : Hasher} {UC : Unicode} {FL : Float64} {VE : ValuesEncoder}
        {TK : Tokenizer} {RE : Regexp} {SI : StreamIndex}.

(** C7. On a block with no constant value and no column for the field of
    an exact filter, [apply] returns with the bitmap unchanged when the
    value of the filter is the empty string, and with every bit cleared
    when it is not. *)
Theorem exactFilter_absent_column (fe : exactFilter.t) (bs : blockSearch) (bm : bitmap) :
  getConstColumnValue bs (exactFilter.fieldName fe) = EmptyString ->
  getColumnHeader bs (exactFilter.fieldName fe) = None ->
  (exactFilter.value fe = EmptyString ->
     exactFilter.apply fe bs bm = (bm, Returned))
  /\ (exactFilter.value fe <> EmptyString ->
     exactFilter.apply fe bs bm = (replicate (length bm) false, Returned)).
Proof.
  intros Hconst Hch. unfold exactFilter.apply. cbv zeta.
  rewrite Hconst, Hch. cbn [strEq String.eqb negb].
  rewrite strEq_empty. split; intros Hv.
  - rewrite bool_decide_eq_true_2 by exact Hv. reflexivity.
  - rewrite bool_decide_eq_false_2 by exact Hv. cbn [negb].
    unfold clearAll. rewrite resetBits_replicate. reflexivity.
Qed.

(** C8. An IPv4 range filter whose [minValue] is greater than its
    [maxValue] returns with every bit cleared, on every bitmap and
    whatever the block holds: nothing of the block is read. *)
Theorem ipv4RangeFilter_empty_range
    (rf : ipv4RangeFilter.t) (bs : blockSearch) (bm : bitmap) :
  ipv4RangeFilter.maxValue rf < ipv4RangeFilter.minValue rf ->
  ipv4RangeFilter.apply rf bs bm = (replicate (length bm) false, Returned).
Proof.
  intros Hlt. unfold ipv4RangeFilter.apply. cbv zeta.
  destruct (Z.ltb_spec (ipv4RangeFilter.maxValue rf) (ipv4RangeFilter.minValue rf))
    as [_|Hge]; [|lia].
  unfold clearAll. rewrite resetBits_replicate. reflexivity.
Qed.

(** C10. An in-set filter with no value returns with every bit cleared,
    on every bitmap and whatever the block holds: nothing of the block is
    read. *)
Theorem inFilter_no_values (fi : inFilter.t) (bs : blockSearch) (bm : bitmap) :
  inFilter.values fi = [] ->
  inFilter.apply fi bs bm = (replicate (length bm) false, Returned).
Proof.
  intros Hnil. unfold inFilter.apply. cbv zeta. rewrite Hnil. cbn [length Nat.eqb].
  unfold clearAll. rewrite resetBits_replicate. reflexivity.
Qed.
End FastPaths.

(** ** The string range *)

(** The lexicographic order on byte strings, as a relation: a string
    comes before another when it is a proper prefix of it, or when it has
    the smaller byte at the first place where they differ. *)
Inductive lexLt : string -> string -> Prop :=
| lexLt_nil (c : ascii) (t : string) : lexLt EmptyString (String c t)
| lexLt_head (c d : ascii) (s t : string) :
    Z_of_ascii c < Z_of_ascii d -> lexLt (String c s) (String d t)
| lexLt_tail (c : ascii) (s t : string) :
    lexLt s t -> lexLt (String c s) (String c t).

Definition lexLe (s t : string) : Prop := s = t \/ lexLt s t.

Lemma ascii_compare_Lt (c d : ascii) :
  Ascii.compare c d = Lt <-> Z_of_ascii c < Z_of_ascii d.
Proof.
  unfold Ascii.compare, Z_of_ascii. rewrite N.compare_lt_iff. lia.
Qed.

Lemma ascii_compare_refl (c : ascii) : Ascii.compare c c = Eq.
Proof. unfold Ascii.compare. apply N.compare_refl. Qed.

Lemma lexLt_irrefl (s : string) : ~ lexLt s s.
Proof.
  induction s as [|c s IH]; intros Hlt; inversion Hlt; subst; [lia|auto].
Qed.

Lemma string_compare_Lt (s t : string) : String.compare s t = Lt <-> lexLt s t.
Proof.
  revert t. induction s as [|c s IH]; intros [|d t]; cbn [String.compare].
  - split; [discriminate|]. intros Hlt; inversion Hlt.
  - split; [intros _; constructor|reflexivity].
  - split; [discriminate|]. intros Hlt; inversion Hlt.
  - destruct (Ascii.compare c d) eqn:Hcd.
    + apply Ascii.compare_eq_iff in Hcd. subst d. rewrite IH. split.
      * intros Hlt. apply lexLt_tail. exact Hlt.
      * intros Hlt. inversion Hlt; subst; [lia|assumption].
    + split; [intros _|reflexivity].
      apply lexLt_head. apply ascii_compare_Lt. exact Hcd.
    + split; [discriminate|]. intros Hlt. inversion Hlt; subst.
      * apply ascii_compare_Lt in H0. congruence.
      * rewrite ascii_compare_refl in Hcd. discriminate.
Qed.

Lemma string_compare_refl (s : string) : String.compare s s = Eq.
Proof.
  induction s as [|c s IH]; cbn [String.compare]; [reflexivity|].
  rewrite ascii_compare_refl. exact IH.
Qed.

Lemma strLt_lexLt (s t : string) : strLt s t = true <-> lexLt s t.
Proof.
  unfold strLt, String.ltb. rewrite <- string_compare_Lt.
  destruct (String.compare s t); split; congruence.
Qed.

Lemma strGe_lexLe (s t : string) : strGe s t = true <-> lexLe t s.
Proof.
  unfold strGe, String.leb, lexLe. rewrite <- string_compare_Lt.
  destruct (String.compare t s) eqn:Hc.
  - apply String.compare_eq_iff in Hc. split; auto.
  - split; auto.
  - split; [discriminate|]. intros [Heq|Hlt]; [|discriminate].
    subst. rewrite string_compare_refl in Hc. discriminate.
Qed.

(** C6. [matchStringRange] is the half-open lexicographic range: it
    holds exactly when [minValue <= s] and [s < maxValue]; the string b is
    in the range from a to c, and c is not. *)
Theorem matchStringRange_half_open :
  (forall s minValue maxValue : string,
      matchStringRange s minValue maxValue = true <-> lexLe minValue s /\ lexLt s maxValue)
  /\ matchStringRange "b" "a" "c" = true
  /\ matchStringRange "c" "a" "c" = false.
Proof.
  split; [|split; reflexivity].
  intros s minValue maxValue. unfold matchStringRange.
  rewrite andb_true_iff, strGe_lexLe, strLt_lexLt. reflexivity.
Qed.

(** ** Phrases and prefixes at token boundaries *)

(** [p] stands in [s] at the position [pos]. *)
Definition occursAt (s p : string) (pos : nat) : Prop :=
  HasPrefix (strFrom pos s) p = true.

Lemma strFrom_empty (n : nat) : strFrom n EmptyString = EmptyString.
Proof. destruct n; reflexivity. Qed.

Lemma strFrom_add (a b : nat) (s : string) :
  strFrom (a + b) s = strFrom b (strFrom a s).
Proof.
  revert s. induction a as [|a IH]; intros s; [reflexivity|].
  destruct s as [|c s]; cbn [Nat.add strFrom].
  - rewrite strFrom_empty. reflexivity.
  - apply IH.
Qed.

Lemma strFrom_length (n : nat) (s : string) :
  String.length (strFrom n s) = (String.length s - n)%nat.
Proof.
  revert s. induction n as [|n IH]; intros s; cbn [strFrom].
  - lia.
  - destruct s as [|c s]; cbn [String.length]; [reflexivity|]. rewrite IH. lia.
Qed.

Lemma HasPrefix_length (s p : string) :
  HasPrefix s p = true -> (String.length p <= String.length s)%nat.
Proof.
  unfold HasPrefix. revert s. induction p as [|c p IH]; intros s Hp; cbn [String.length].
  - lia.
  - destruct s as [|d s]; cbn [String.prefix String.length] in *; [discriminate|].
    destruct (ascii_dec c d); [|discriminate]. specialize (IH s Hp). lia.
Qed.

Lemma occursAt_bound (s p : string) (pos : nat) :
  p <> EmptyString -> occursAt s p pos ->
  (pos + String.length p <= String.length s)%nat /\ (pos < String.length s)%nat.
Proof.
  intros Hp Hocc. apply HasPrefix_length in Hocc. rewrite strFrom_length in Hocc.
  destruct p as [|c p]; [contradiction|]. cbn [String.length] in *. lia.
Qed.

(** What [strings.Index] returns: -1 when [substr] stands nowhere in [s],
    and the first position where it stands otherwise. *)
Lemma Index_spec (s p : string) :
  p <> EmptyString ->
  (Index s p = -1 /\ forall k, ~ occursAt s p k)
  \/ (0 <= Index s p /\ occursAt s p (Z.to_nat (Index s p))
      /\ forall k, (k < Z.to_nat (Index s p))%nat -> ~ occursAt s p k).
Proof.
  intros Hp. unfold occursAt. induction s as [|c s IH]; cbn [Index].
  - assert (Hno : HasPrefix EmptyString p = false) by (destruct p; [contradiction|reflexivity]).
    rewrite Hno. left. split; [reflexivity|].
    intros k. rewrite strFrom_empty, Hno. discriminate.
  - destruct (HasPrefix (String c s) p) eqn:Hhere.
    + right. split; [lia|]. split; [exact Hhere|]. intros k Hk. simpl in Hk. lia.
    + destruct IH as [[Hm Hno]|(Hn & Hocc & Hfirst)].
      * rewrite Hm. left. split; [reflexivity|].
        intros [|k]; cbn [strFrom]; [rewrite Hhere; discriminate|apply Hno].
      * destruct (Z.ltb_spec (Index s p) 0) as [Hneg|_]; [lia|].
        right. split; [lia|].
        replace (Z.to_nat (Index s p + 1)) with (S (Z.to_nat (Index s p))) by lia.
        split; [exact Hocc|].
        intros [|k] Hk; cbn [strFrom]; [rewrite Hhere; discriminate|].
        apply Hfirst. lia.
Qed.

Section Boundaries.
Context {UC : Unicode}.

(** The checks of the loops at a position where the text was found: the
    rune before it when the text starts with a token rune, the rune
    behind it when the text ends with one. *)
Definition blockedStart (startsWithToken : bool) (s : string) (pos : nat) : bool :=
  startsWithToken && (0 <? pos)%nat && blocksMatch (runeBefore s pos).

Definition blockedEnd (endsWithToken : bool) (s p : string) (pos : nat) : bool :=
  endsWithToken && (pos + String.length p <? String.length s)%nat
  && blocksMatch (runeAt s (pos + String.length p)).

(** [p] stands in [s] at [pos], and neither check refuses the position. *)
Definition standsAt (startsWithToken endsWithToken : bool) (s p : string) (pos : nat) : Prop :=
  occursAt s p pos
  /\ blockedStart startsWithToken s pos = false
  /\ blockedEnd endsWithToken s p pos = false.

Lemma getPhrasePosLoop_spec (s p : string) (st et : bool) (fuel pos0 : nat) :
  p <> EmptyString ->
  (String.length s < fuel + pos0)%nat -> (pos0 <= String.length s)%nat ->
  exists r, getPhrasePosLoop fuel s p st et pos0 = Some r
    /\ ((r = -1 /\ forall q, (pos0 <= q)%nat -> ~ standsAt st et s p q)
        \/ exists pos, r = Z.of_nat pos /\ (pos0 <= pos)%nat /\ standsAt st et s p pos).
Proof.
  intros Hp. revert pos0. induction fuel as [|fuel IH]; intros pos0 Hfuel Hpos0; [lia|].
  cbn [getPhrasePosLoop]. cbv zeta.
  destruct (Index_spec (strFrom pos0 s) p Hp) as [[Hm Hno]|(Hn & Hocc & Hfirst)].
  - rewrite Hm. cbn [Z.ltb Z.compare]. eexists. split; [reflexivity|].
    left. split; [reflexivity|]. intros q Hq [Hq1 _].
    apply (Hno (q - pos0)%nat). unfold occursAt in *.
    rewrite <- strFrom_add. replace (pos0 + (q - pos0))%nat with q by lia. exact Hq1.
  - destruct (Z.ltb_spec (Index (strFrom pos0 s) p) 0) as [Hneg|_]; [lia|].
    set (pos := (pos0 + Z.to_nat (Index (strFrom pos0 s) p))%nat) in *.
    assert (Hocc' : occursAt s p pos).
    { unfold occursAt in *. unfold pos. rewrite strFrom_add. exact Hocc. }
    assert (Hbefore : forall q, (pos0 <= q < pos)%nat -> ~ occursAt s p q).
    { intros q Hq Hq1. apply (Hfirst (q - pos0)%nat); [unfold pos in Hq; lia|].
      unfold occursAt in *. rewrite <- strFrom_add.
      replace (pos0 + (q - pos0))%nat with q by lia. exact Hq1. }
    destruct (occursAt_bound s p pos Hp Hocc') as [Hb1 Hb2].
    assert (Hnext : forall r,
      (blockedStart st s pos = true \/ blockedEnd et s p pos = true) ->
      ((r = -1 /\ forall q, (S pos <= q)%nat -> ~ standsAt st et s p q)
        \/ exists pos', r = Z.of_nat pos' /\ (S pos <= pos')%nat /\ standsAt st et s p pos') ->
      ((r = -1 /\ forall q, (pos0 <= q)%nat -> ~ standsAt st et s p q)
        \/ exists pos', r = Z.of_nat pos' /\ (pos0 <= pos')%nat /\ standsAt st et s p pos')).
    { intros r Hblocked [[Hr Hnone]|(pos' & Hr & Hle & Hst)].
      - left. split; [exact Hr|]. intros q Hq Hst.
        destruct (Nat.lt_trichotomy q pos) as [Hlt|[Heq|Hgt]].
        + apply (Hbefore q); [lia|apply Hst].
        + subst q. destruct Hst as (_ & Hs & He).
          destruct Hblocked; congruence.
        + apply (Hnone q); [lia|exact Hst].
      - right. exists pos'. split; [exact Hr|]. split; [unfold pos in Hle; lia|exact Hst]. }
    fold (blockedStart st s pos). fold (blockedEnd et s p pos).
    destruct (blockedStart st s pos) eqn:Hbs.
    { destruct (IH (S pos)) as (r & Hr & Hspec); [unfold pos; lia|lia|].
      exists r. split; [exact Hr|]. apply Hnext; auto. }
    destruct (blockedEnd et s p pos) eqn:Hbe.
    { destruct (IH (S pos)) as (r & Hr & Hspec); [unfold pos; lia|lia|].
      exists r. split; [exact Hr|]. apply Hnext; auto. }
    eexists. split; [reflexivity|]. right. exists pos.
    split; [reflexivity|]. split; [unfold pos; lia|]. split; [exact Hocc'|]. auto.
Qed.

(** The loop of [getPhrasePos] ends within the iterations it is given. *)
Lemma getPhrasePosLoop_total (s p : string) (st et : bool) :
  p <> EmptyString ->
  exists r, getPhrasePosLoop (S (String.length s)) s p st et 0 = Some r.
Proof.
  intros Hp.
  destruct (getPhrasePosLoop_spec s p st et (S (String.length s)) 0 Hp) as (r & Hr & _);
    [lia|lia|].
  exists r. exact Hr.
Qed.

Lemma length_zero_iff (p : string) : (String.length p =? 0)%nat = bool_decide (p = EmptyString).
Proof. destruct p; reflexivity. Qed.

(** [matchPhrase] on a phrase that is not empty: the phrase stands
    somewhere in [s] where no check refuses it. *)
Lemma matchPhrase_iff (s p : string) :
  p <> EmptyString ->
  matchPhrase s p = true
  <-> exists pos, standsAt (isTokenRune (runeAtStart p)) (isTokenRune (runeAtEnd p)) s p pos.
Proof.
  intros Hp. unfold matchPhrase, getPhrasePos.
  rewrite length_zero_iff, bool_decide_eq_false_2 by exact Hp.
  destruct (Nat.ltb_spec (String.length s) (String.length p)) as [Hshort|Hlong].
  - split; [discriminate|]. intros (pos & Hocc & _).
    apply occursAt_bound in Hocc; [lia|exact Hp].
  - cbv zeta.
    destruct (getPhrasePosLoop_spec s p (isTokenRune (runeAtStart p))
                (isTokenRune (runeAtEnd p)) (S (String.length s)) 0 Hp)
      as (r & Hr & Hspec); [lia|lia|].
    rewrite Hr. destruct Hspec as [[-> Hnone]|(pos & -> & _ & Hst)].
    + split; [discriminate|]. intros (pos & Hst). exfalso. apply (Hnone pos); [lia|exact Hst].
    + split; [intros _; exists pos; exact Hst|]. intros _. apply Z.leb_le. lia.
Qed.

(** The loop of [matchPrefix] is the loop of [getPhrasePos] without the
    check behind the text. *)
Lemma matchPrefixLoop_getPhrasePosLoop (s p : string) (st : bool) (fuel offset : nat) :
  matchPrefixLoop fuel s p st offset
  = (fun r => 0 <=? r) <$> getPhrasePosLoop fuel s p st false offset.
Proof.
  revert offset. induction fuel as [|fuel IH]; intros offset; [reflexivity|].
  cbn [matchPrefixLoop getPhrasePosLoop]. cbv zeta.
  destruct (Index (strFrom offset s) p <? 0); [reflexivity|].
  cbn [andb].
  destruct (st && (0 <? offset + Z.to_nat (Index (strFrom offset s) p))%nat
            && blocksMatch (runeBefore s (offset + Z.to_nat (Index (strFrom offset s) p)))).
  - apply IH.
  - cbn [fmap option_fmap option_map]. f_equal. symmetry. apply Z.leb_le. lia.
Qed.

Lemma matchPrefixLoop_total (s p : string) (st : bool) :
  p <> EmptyString ->
  exists b, matchPrefixLoop (S (String.length s)) s p st 0 = Some b.
Proof.
  intros Hp. rewrite matchPrefixLoop_getPhrasePosLoop.
  destruct (getPhrasePosLoop_total s p st false Hp) as [r Hr].
  rewrite Hr. eexists. reflexivity.
Qed.

(** [matchPrefix] on a prefix that is not empty: the prefix stands
    somewhere in [s] where the check before it does not refuse it. *)
Lemma matchPrefix_iff (s p : string) :
  p <> EmptyString ->
  matchPrefix s p = true
  <-> exists pos, occursAt s p pos
                  /\ blockedStart (isTokenRune (runeAtStart p)) s pos = false.
Proof.
  intros Hp. unfold matchPrefix.
  rewrite length_zero_iff, bool_decide_eq_false_2 by exact Hp.
  destruct (Nat.ltb_spec (String.length s) (String.length p)) as [Hshort|Hlong].
  - split; [discriminate|]. intros (pos & Hocc & _).
    apply occursAt_bound in Hocc; [lia|exact Hp].
  - cbv zeta. rewrite matchPrefixLoop_getPhrasePosLoop.
    destruct (getPhrasePosLoop_spec s p (isTokenRune (runeAtStart p)) false
                (S (String.length s)) 0 Hp)
      as (r & Hr & Hspec); [lia|lia|].
    rewrite Hr. cbn [fmap option_fmap option_map].
    destruct Hspec as [[-> Hnone]|(pos & -> & _ & Hst)].
    + split; [discriminate|]. intros (pos & Hocc & Hbs). exfalso.
      apply (Hnone pos); [lia|]. split; [exact Hocc|]. split; [exact Hbs|reflexivity].
    + split; [|intros _; apply Z.leb_le; lia].
      intros _. exists pos. split; apply Hst.
Qed.
End Boundaries.

(** *** The boundaries in the words of the spec

    On a text of ASCII bytes a character is a byte, and the spec's
    "token character (alphanumeric/underscore)" is a letter, a digit or
    the underscore.  The phrase [p] stands in [s] when [s] is a text
    [a], then [p], then a text [b]; the character before the phrase is
    the last one of [a], the character behind it the first one of [b]. *)







Lemma strTo_strFrom (n : nat) (s : string) : String.append (strTo n s) (strFrom n s) = s.
Proof.
  revert s. induction n as [|n IH]; intros s; [reflexivity|].
  destruct s as [|c s]; [reflexivity|]. cbn [strTo strFrom].
  change (String c (String.append (strTo n s) (strFrom n s)) = String c s).
  f_equal. apply IH.
Qed.

Lemma strTo_length (n : nat) (s : string) :
  (n <= String.length s)%nat -> String.length (strTo n s) = n.
Proof.
  revert s. induction n as [|n IH]; intros s Hn; [reflexivity|].
  destruct s as [|c s]; cbn [String.length] in *; [lia|].
  cbn [strTo String.length]. rewrite IH by lia. reflexivity.
Qed.

Lemma string_append_assoc (a b c : string) :
  String.append (String.append a b) c = String.append a (String.append b c).
Proof.
  induction a as [|x a IH]; [reflexivity|].
  change (String x (String.append (String.append a b) c)
          = String x (String.append a (String.append b c))).
  f_equal. exact IH.
Qed.

Lemma string_append_empty (a : string) : String.append a EmptyString = a.
Proof.
  induction a as [|x a IH]; [reflexivity|].
  change (String x (String.append a EmptyString) = String x a).
  f_equal. exact IH.
Qed.










Section TokenBoundaries.
Context {UC : Unicode}.










End TokenBoundaries.

(** ** The in-set filter on a uint8 column *)

Lemma isZero_zip_with (pred : string -> bool) (bm : bitmap) (rows : list string) :
  isZero bm = true -> (length bm <= length rows)%nat ->
  zip_with (fun b v => b && pred v) bm rows = bm.
Proof.
  revert rows. induction bm as [|b bm IH]; intros rows Hz Hlen; [reflexivity|].
  destruct rows as [|v rows]; simpl in Hlen; [lia|].
  cbn [isZero forallb] in Hz. apply andb_true_iff in Hz as [Hb Hz].
  destruct b; [discriminate|]. cbn [zip_with andb]. f_equal.
  apply IH; [exact Hz|lia].
Qed.

Lemma forEachSetBitFrom_rows (pred : string -> bool) (rows : list string)
    (bm : bitmap) (idx : nat) :
  (idx + length bm <= length rows)%nat ->
  forEachSetBitFrom idx
    (fun i => match rows !! i with None => None | Some v => Some (pred v) end) bm
  = (zip_with (fun b v => b && pred v) bm (drop idx rows), Returned).
Proof.
  revert idx. induction bm as [|b bm IH]; intros idx Hlen; [reflexivity|].
  cbn [length] in Hlen. cbn [forEachSetBitFrom].
  destruct (lookup_lt_is_Some_2 rows idx) as [v Hv]; [lia|].
  rewrite (drop_S rows v idx Hv), Hv, IH by lia.
  cbn [zip_with]. destruct b; reflexivity.
Qed.

Section InFilterUint8.
Context {HS : Hasher} {UC : Unicode} {FL : Float64} {VE : ValuesEncoder}
        {TK : Tokenizer} {RE : Regexp} {SI : StreamIndex}.

(** On rows that all have a value, a callback that cannot panic makes
    [visitValues] return, with the bits of the rows it refuses cleared. *)
Lemma visitValues_rows (bs : blockSearch) (ch : columnHeader) (pred : string -> bool)
    (bm : bitmap) :
  (length bm <= length (getValuesForColumn bs ch))%nat ->
  visitValues bs ch (fun v => Some (pred v)) bm
  = (zip_with (fun b v => b && pred v) bm (getValuesForColumn bs ch), Returned).
Proof.
  intros Hlen. unfold visitValues.
  destruct (isZero bm) eqn:Hz.
  - rewrite isZero_zip_with by assumption. reflexivity.
  - unfold forEachSetBit. rewrite forEachSetBitFrom_rows by (simpl; lia).
    reflexivity.
Qed.


End InFilterUint8.

(** ** The theorems on the sample block *)

Section OnTheSample.
#[local] Existing Instance Sample.hasher.
#[local] Existing Instance Sample.unicode.
#[local] Existing Instance Sample.integers.
#[local] Existing Instance Sample.encoder.
#[local] Existing Instance Sample.tokenizer.
#[local] Existing Instance Sample.patterns.
#[local] Existing Instance Sample.streams.

(** The bloom filter of the sample block answers for each of its tokens. *)
Lemma bloomFilter_no_false_negative_sample :
  Z.of_nat (length ["1"; "2"; "3"; "4"]) < 2 ^ 56
  /\ (forall t : string, t ∈ ["3"; "1"] -> t ∈ ["1"; "2"; "3"; "4"])
  /\ exists bf',
      mustInitTokens (mkBloomFilter emptySlice) ["1"; "2"; "3"; "4"] = Some bf'
      /\ containsAll bf' (appendTokensHashes [] ["3"; "1"]) = Some true.
Proof.
  assert (Hsize : Z.of_nat (length ["1"; "2"; "3"; "4"]) < 2 ^ 56) by reflexivity.
  assert (Hsub : forall t : string, t ∈ ["3"; "1"] -> t ∈ ["1"; "2"; "3"; "4"]).
  { intros t Ht. apply elem_of_cons in Ht as [->|Ht]; [set_solver|].
    apply list_elem_of_singleton in Ht as ->. set_solver. }
  split; [exact Hsize|]. split; [exact Hsub|].
  exact (bloomFilter_no_false_negative (mkBloomFilter emptySlice)
           ["1"; "2"; "3"; "4"] ["3"; "1"] Hsize Hsub).
Defined.

(** The sample block has no column [host]: the exact filter for the
    empty value keeps every row, the one for another value keeps none. *)
Lemma exactFilter_absent_column_sample :
  getConstColumnValue Sample.block "host" = EmptyString
  /\ getColumnHeader Sample.block "host" = None
  /\ exactFilter.apply (exactFilter.mk "host" EmptyString) Sample.block Sample.allRows
     = (Sample.allRows, Returned)
  /\ exactFilter.apply (exactFilter.mk "host" "web") Sample.block Sample.allRows
     = (replicate 4 false, Returned).
Proof.
  split; [reflexivity|]. split; [reflexivity|]. split.
  - apply (exactFilter_absent_column (exactFilter.mk "host" EmptyString)
             Sample.block Sample.allRows); reflexivity.
  - apply (exactFilter_absent_column (exactFilter.mk "host" "web")
             Sample.block Sample.allRows); [reflexivity|reflexivity|discriminate].
Defined.

Lemma ipv4RangeFilter_empty_range_sample :
  ipv4RangeFilter.apply (ipv4RangeFilter.mk "level" 10 5) Sample.block Sample.allRows
  = (replicate 4 false, Returned).
Proof.
  apply (ipv4RangeFilter_empty_range (ipv4RangeFilter.mk "level" 10 5)
           Sample.block Sample.allRows).
  reflexivity.
Defined.

Lemma inFilter_no_values_sample :
  inFilter.apply (inFilter.mk "level" []) Sample.block Sample.allRows
  = (replicate 4 false, Returned).
Proof.
  apply (inFilter_no_values (inFilter.mk "level" []) Sample.block Sample.allRows).
  reflexivity.
Defined.


(** The model at work: filters do clear bits, the bloom filter does
    answer no, and a value of the wrong length stops [apply] with the
    panic of the fatal diagnostic, the rows behind it left as they were. *)
Example exactFilter_on_sample :
  exactFilter.apply (exactFilter.mk "level" "3") Sample.block Sample.allRows
  = ([false; false; true; false], Returned).
Proof. vm_compute. reflexivity. Qed.

Example prefixFilter_on_sample :
  prefixFilter.apply (prefixFilter.mk "level" "4") Sample.block [true; false; true; true]
  = ([false; false; false; true], Returned).
Proof. vm_compute. reflexivity. Qed.

Example bloomFilter_on_sample :
  containsAllTokens Sample.levelBloomFilter ["2"; "4"] = Some true
  /\ containsAllTokens Sample.levelBloomFilter ["9"] = Some false.
Proof. split; vm_compute; reflexivity. Qed.

Example regexpFilter_on_corrupt_block :
  regexpFilter.apply (regexpFilter.mk "level" "3") Sample.corruptBlock Sample.allRows
  = ([false; true; true; true], Panicked).
Proof. vm_compute. reflexivity. Qed.

Example unmarshal_on_sample :
  unmarshal (mkBloomFilter emptySlice) [x01; x02; x00; x00; x00; x00; x00; x00]
  = UnmarshalDone (mkBloomFilter (mkSlice [513] []))
  /\ unmarshal (mkBloomFilter emptySlice) [x01; x02; x00] = UnmarshalError 3.
Proof. split; vm_compute; reflexivity. Qed.
End OnTheSample.

(** * Further properties *)

(** ** The bloom filter built from hashes *)

Lemma bitPosition_mask (len : nat) (h : Z) (i : nat) (mask : Z) :
  bitPosition len h = Some (i, mask) ->
  exists j, 0 <= j < 64 /\ mask = Z.shiftl 1 j.
Proof.
  unfold bitPosition. destruct (wrap64 (Z.of_nat len * 64) =? 0); [discriminate|].
  intros Hp. injection Hp as _ Hmask.
  set (j := (h mod wrap64 (Z.of_nat len * 64)) mod 64) in *.
  assert (Hj : 0 <= j < 64) by (apply Z.mod_pos_bound; lia).
  exists j. split; [exact Hj|]. rewrite <- Hmask. unfold wrap64.
  apply Z.mod_small. rewrite Z.shiftl_1_l.
  split; [apply Z.pow_nonneg; lia|]. apply Z.pow_lt_mono_r; lia.
Qed.

(** Without any bound on the size: what [initBloomFilter] returns holds
    every bit it was given. *)
Lemma initBloomFilter_included (hashes bits bits' : list Z) :
  initBloomFilter bits hashes = Some bits' -> bitsIncluded bits bits'.
Proof.
  revert bits. induction hashes as [|h hashes IH]; intros bits Hinit;
    cbn [initBloomFilter] in Hinit.
  - injection Hinit as <-. apply bitsIncluded_refl.
  - destruct (bitPosition (length bits) h) as [[i mask]|] eqn:Hp; [|discriminate].
    destruct (bits !! i) as [w|] eqn:Hw; [|discriminate].
    destruct (bitPosition_mask _ _ _ _ Hp) as (j & Hj & ->).
    destruct (setBit_spec bits i j w (proj1 Hj) Hw) as [Hincl _]. cbv zeta in Hincl.
    eapply bitsIncluded_trans; [exact Hincl|]. apply IH. exact Hinit.
Qed.

Lemma containsAllLoop_true (bits hashes : list Z) :
  containsAllLoop bits hashes = Some true <-> forall h, h ∈ hashes -> hasBit bits h.
Proof.
  split; [|apply containsAllLoop_hasBit].
  induction hashes as [|h hashes IH]; intros Hloop h' Hh'; [inversion Hh'|].
  cbn [containsAllLoop] in Hloop.
  destruct (bitPosition (length bits) h) as [[i mask]|] eqn:Hp; [|discriminate].
  destruct (bits !! i) as [w|] eqn:Hw; [|discriminate].
  destruct (bitPosition_mask _ _ _ _ Hp) as (j & Hj & ->).
  rewrite land_mask_testbit in Hloop by apply Hj.
  destruct (Z.testbit w j) eqn:Hbit; cbn [negb] in Hloop; [|discriminate].
  apply elem_of_cons in Hh' as [->|Hh'].
  - exists i, j, w. split; [exact Hp|]. split; [apply Hj|]. split; assumption.
  - apply IH; assumption.
Qed.

Section HashesOfHashes.
Context {HS : Hasher}.

Lemma elem_of_appendHashesHashes (x : Z) (hashes dst : list Z) :
  x ∈ appendHashesHashes dst hashes <->
  x ∈ dst \/ exists h, h ∈ hashes /\ x ∈ hashChain bloomFilterHashesCount h.
Proof.
  revert dst. induction hashes as [|h hashes IH]; intros dst; cbn [appendHashesHashes].
  - split; [auto|]. intros [Hx|(h & Hh & _)]; [exact Hx|inversion Hh].
  - rewrite IH, elem_of_app. split.
    + intros [[Hx|Hx]|(h' & Hh' & Hx)]; [auto| |].
      * right. exists h. split; [left|exact Hx].
      * right. exists h'. split; [right; exact Hh'|exact Hx].
    + intros [Hx|(h' & Hh' & Hx)]; [auto|].
      apply elem_of_cons in Hh' as [->|Hh']; [auto|].
      right. exists h'. auto.
Qed.

(** X1. A bloom filter built by [mustInitHashes] from a list of hashes
    (of a length a Go slice can have) is built without a panic, and
    [containsAll] is true on what [appendHashesHashes] derives from any
    hashes taken among them, whatever the filter held before. *)
Theorem mustInitHashes_no_false_negative
    (bf : bloomFilter) (hashes sub : list Z) :
  Z.of_nat (length hashes) < 2 ^ 56 ->
  (forall h, h ∈ sub -> h ∈ hashes) ->
  exists bf', mustInitHashes bf hashes = Some bf'
              /\ containsAll bf' (appendHashesHashes [] sub) = Some true.
Proof.
  intros Hsize Hsub. unfold mustInitHashes, bloomFilterAddHashes.
  destruct (wordsCount_bounds (length hashes) Hsize) as [Hsmall Hpos].
  cbv zeta in Hsmall, Hpos.
  set (wordsCount := ((length hashes * bloomFilterBitsPerItem + 63) / 64)%nat) in *.
  set (b := SetLength 0 (bits bf) wordsCount).
  assert (Hlen : length (elems b) = wordsCount) by apply SetLength_length.
  destruct hashes as [|h0 hashes].
  - cbn [appendHashesHashes initBloomFilter].
    eexists. split; [reflexivity|].
    destruct sub as [|s sub]; [|exfalso; specialize (Hsub s); rewrite elem_of_nil in Hsub;
                                 apply Hsub; left].
    unfold containsAll. cbn [bits elems appendHashesHashes].
    destruct (length (elems b) =? 0)%nat; reflexivity.
  - destruct (initBloomFilter_spec (appendHashesHashes [] (h0 :: hashes)) (elems b))
      as (ws & Hinit & [Hl _] & Hall).
    { rewrite Hlen. apply Hpos. simpl. lia. }
    { rewrite Hlen. exact Hsmall. }
    rewrite Hinit. eexists. split; [reflexivity|].
    unfold containsAll. cbn [bits elems].
    destruct (length ws =? 0)%nat; [reflexivity|].
    apply containsAllLoop_hasBit. intros h Hh. apply Hall.
    apply elem_of_appendHashesHashes in Hh as [Hh|(t & Ht & Hh)]; [inversion Hh|].
    apply elem_of_appendHashesHashes. right. exists t. split; [apply Hsub; exact Ht|exact Hh].
Qed.

(** The base hash of a token: what [appendTokensHashes] starts the chain
    of the token from. *)
Definition tokenHash (token : string) : Z := Sum64 (list_byte_of_string token).

Lemma appendTokensHashes_map (tokens : list string) (dst : list Z) :
  appendTokensHashes dst tokens = appendHashesHashes dst (map tokenHash tokens).
Proof.
  revert dst. induction tokens as [|t tokens IH]; intros dst; [reflexivity|].
  cbn [appendTokensHashes map appendHashesHashes]. apply IH.
Qed.

(** X2. The filter of a list of tokens is the filter of their base
    hashes: [appendTokensHashes] appends what [appendHashesHashes]
    appends for the hashes of the tokens, [mustInitTokens] builds what
    [mustInitHashes] builds from them, and [bloomFilterMarshalTokens]
    returns what [bloomFilterMarshalHashes] returns for them. *)
Theorem tokens_filter_is_hashes_filter (tokens : list string) :
  (forall dst, appendTokensHashes dst tokens
               = appendHashesHashes dst (map tokenHash tokens))
  /\ (forall bf, mustInitTokens bf tokens = mustInitHashes bf (map tokenHash tokens))
  /\ (forall v dst, bloomFilterMarshalTokens v dst tokens
                    = bloomFilterMarshalHashes v dst (map tokenHash tokens)).
Proof.
  assert (Hinit : forall bf,
             mustInitTokens bf tokens = mustInitHashes bf (map tokenHash tokens)).
  { intros bf. unfold mustInitTokens, mustInitHashes, bloomFilterAddTokens,
      bloomFilterAddHashes.
    rewrite length_map, appendTokensHashes_map. reflexivity. }
  split; [intros dst; apply appendTokensHashes_map|]. split; [exact Hinit|].
  intros v dst. unfold bloomFilterMarshalTokens, bloomFilterMarshalHashes.
  cbv zeta. rewrite Hinit. reflexivity.
Qed.

Lemma hashChain_length (n : nat) (hp : Z) : length (hashChain n hp) = n.
Proof. revert hp. induction n as [|n IH]; intros hp; simpl; [reflexivity|]. rewrite IH. reflexivity. Qed.

Lemma appendHashesHashes_app (hashes dst : list Z) :
  appendHashesHashes dst hashes = dst ++ appendHashesHashes [] hashes
  /\ length (appendHashesHashes [] hashes) = (length hashes * bloomFilterHashesCount)%nat.
Proof.
  revert dst. induction hashes as [|h hashes IH]; intros dst.
  - cbn [appendHashesHashes]. rewrite app_nil_r. split; reflexivity.
  - cbn [appendHashesHashes]. destruct (IH (dst ++ hashChain bloomFilterHashesCount h)) as [H1 _].
    destruct (IH ([] ++ hashChain bloomFilterHashesCount h)) as [H2 H3].
    split.
    + rewrite H1, H2. cbn [app]. rewrite <- app_assoc. reflexivity.
    + rewrite H2. cbn [app length]. rewrite length_app, hashChain_length, H3. lia.
Qed.

(** X3. [appendTokensHashes] and [appendHashesHashes] leave [dst] as it
    is and append exactly [bloomFilterHashesCount] hashes for every item:
    the [hashesCount] they reserve room for. *)
Theorem appendHashes_appends (dst : list Z) (tokens : list string) (hashes : list Z) :
  appendTokensHashes dst tokens = dst ++ appendTokensHashes [] tokens
  /\ length (appendTokensHashes [] tokens) = (length tokens * bloomFilterHashesCount)%nat
  /\ appendHashesHashes dst hashes = dst ++ appendHashesHashes [] hashes
  /\ length (appendHashesHashes [] hashes) = (length hashes * bloomFilterHashesCount)%nat.
Proof.
  rewrite !appendTokensHashes_map.
  destruct (appendHashesHashes_app (map tokenHash tokens) dst) as [H1 H2].
  rewrite length_map in H2.
  destruct (appendHashesHashes_app hashes dst) as [H3 H4].
  auto.
Qed.
End HashesOfHashes.

(** ** Queries of the bloom filter *)

(** X4. [containsAll] never panics on a filter of fewer than 2^58 words:
    no division by zero and no index out of range, whatever the hashes. *)
Theorem containsAll_never_panics (bf : bloomFilter) (hashes : list Z) :
  Z.of_nat (length (elems (bits bf))) * 64 < 2 ^ 64 ->
  exists b, containsAll bf hashes = Some b.
Proof.
  intros Hsmall. unfold containsAll.
  destruct (Nat.eqb_spec (length (elems (bits bf))) 0) as [_|Hne]; [eexists; reflexivity|].
  induction hashes as [|h hashes IH]; [eexists; reflexivity|].
  cbn [containsAllLoop].
  destruct (bitPosition_spec (length (elems (bits bf))) h) as (i & j & Hp & Hi & Hj);
    [lia|exact Hsmall|].
  rewrite Hp. destruct (lookup_lt_is_Some_2 (elems (bits bf)) i Hi) as [w Hw]. rewrite Hw.
  destruct (Z.land w (Z.shiftl 1 j) =? 0); [eexists; reflexivity|exact IH].
Qed.

Lemma containsAllLoop_app (bits h1 h2 : list Z) :
  containsAllLoop bits (h1 ++ h2) = Some true
  <-> containsAllLoop bits h1 = Some true /\ containsAllLoop bits h2 = Some true.
Proof.
  rewrite !containsAllLoop_true. split.
  - intros Hall. split; intros h Hh; apply Hall; apply elem_of_app; auto.
  - intros [H1 H2] h Hh. apply elem_of_app in Hh as [Hh|Hh]; auto.
Qed.

(** X5. [containsAll] is a conjunction: it is true on the hashes of two
    lists put together exactly when it is true on each of them. *)
Theorem containsAll_app (bf : bloomFilter) (h1 h2 : list Z) :
  containsAll bf (h1 ++ h2) = Some true
  <-> containsAll bf h1 = Some true /\ containsAll bf h2 = Some true.
Proof.
  unfold containsAll. destruct (length (elems (bits bf)) =? 0)%nat.
  - split; auto.
  - apply containsAllLoop_app.
Qed.

(** X6. Adding to a bit array never takes a positive answer back: when
    [initBloomFilter] returns, the array has the length it had, and
    [containsAll] is still true on every list of hashes it was true on. *)
Theorem initBloomFilter_keeps_positives
    (bf : bloomFilter) (added ws queried : list Z) :
  initBloomFilter (elems (bits bf)) added = Some ws ->
  containsAll bf queried = Some true ->
  length ws = length (elems (bits bf))
  /\ containsAll (mkBloomFilter (mkSlice ws (spare (bits bf)))) queried = Some true.
Proof.
  intros Hinit Hq. pose proof (initBloomFilter_included _ _ _ Hinit) as Hincl.
  destruct Hincl as [Hlen Hincl']. split; [symmetry; exact Hlen|].
  unfold containsAll in *. cbn [bits elems]. rewrite <- Hlen.
  destruct (length (elems (bits bf)) =? 0)%nat; [reflexivity|].
  apply containsAllLoop_true. intros h Hh.
  apply (hasBit_included (elems (bits bf))); [split; assumption|].
  apply (proj1 (containsAllLoop_true _ _) Hq). exact Hh.
Qed.

(** ** The wire format, from the filter to the bytes and back *)

Definition isUint64 (w : Z) : Prop := 0 <= w < 2 ^ 64.

Lemma Z_of_byte_of_Z (w : Z) : Z_of_byte (byte_of_Z w) = w mod 256.
Proof.
  unfold byte_of_Z, Z_of_byte.
  assert (Hm : 0 <= w mod 256 < 256) by (apply Z.mod_pos_bound; lia).
  destruct (Byte.of_N (Z.to_N (w mod 256))) as [b|] eqn:Hb.
  - apply Byte.to_of_N in Hb. rewrite Hb. lia.
  - apply Byte.of_N_None_iff in Hb. lia.
Qed.

Lemma le_value_le_bytes (n : nat) (w : Z) :
  0 <= w < 256 ^ Z.of_nat n -> le_value (le_bytes n w) = w.
Proof.
  revert w. induction n as [|n IH]; intros w Hw.
  - simpl in *. lia.
  - cbn [le_bytes le_value]. rewrite Z_of_byte_of_Z, IH.
    + pose proof (Z.div_mod w 256). lia.
    + rewrite Nat2Z.inj_succ, Z.pow_succ_r in Hw by lia.
      split; [apply Z.div_pos; lia|]. apply Z.div_lt_upper_bound; lia.
Qed.

Lemma le_bytes_length (n : nat) (w : Z) : length (le_bytes n w) = n.
Proof. revert w. induction n as [|n IH]; intros w; simpl; [reflexivity|]. rewrite IH. reflexivity. Qed.

Lemma marshaled_length (ws : list Z) :
  length (concat (map (le_bytes 8) ws)) = (8 * length ws)%nat.
Proof.
  induction ws as [|w ws IH]; [reflexivity|].
  cbn [map concat length]. rewrite length_app, le_bytes_length, IH. lia.
Qed.

Lemma unmarshalWords_marshaled (ws bits : list Z) :
  Forall isUint64 ws -> length bits = length ws ->
  unmarshalWords bits (concat (map (le_bytes 8) ws)) = Some ws.
Proof.
  intros Hws. revert bits. induction Hws as [|w ws Hw _ IH]; intros bits Hlen.
  - destruct bits; [reflexivity|discriminate].
  - destruct bits as [|b bits]; [discriminate|].
    cbn [map concat unmarshalWords]. unfold UnmarshalUint64.
    rewrite length_app, le_bytes_length.
    destruct (Nat.ltb_spec (8 + length (concat (map (le_bytes 8) ws))) 8) as [Hlt|_]; [lia|].
    rewrite take_app_length' by (symmetry; apply le_bytes_length).
    rewrite drop_app_length' by (symmetry; apply le_bytes_length).
    rewrite le_value_le_bytes by exact Hw.
    rewrite IH by (simpl in Hlen; lia). reflexivity.
Qed.

Lemma unmarshal_of_marshal (bf bf0 : bloomFilter) :
  Forall isUint64 (elems (bits bf)) ->
  exists bf', unmarshal bf0 (marshal bf []) = UnmarshalDone bf'
              /\ elems (bits bf') = elems (bits bf).
Proof.
  intros Hws. unfold marshal. rewrite marshal_fold. cbn [app].
  unfold unmarshal. rewrite marshaled_length.
  replace ((8 * length (elems (bits bf))) mod 8)%nat with 0%nat
    by (symmetry; rewrite Nat.mul_comm; apply Nat.Div0.mod_mul).
  cbn [Nat.eqb negb]. cbv zeta.
  replace ((8 * length (elems (bits bf))) / 8)%nat with (length (elems (bits bf)))
    by (symmetry; rewrite Nat.mul_comm; apply Nat.div_mul; lia).
  rewrite unmarshalWords_marshaled; [|exact Hws|apply SetLength_length].
  eexists. split; reflexivity.
Qed.

(** X7. Whatever [marshal] writes, [unmarshal] reads back: for a filter
    whose words are 64-bit words, [unmarshal] of the marshaled bytes
    succeeds, into any filter, and leaves the words of the filter that
    was marshaled, so that [containsAll] answers as it did. *)
Theorem marshal_unmarshal_roundtrip (bf bf0 : bloomFilter) :
  Forall isUint64 (elems (bits bf)) ->
  exists bf', unmarshal bf0 (marshal bf []) = UnmarshalDone bf'
              /\ elems (bits bf') = elems (bits bf)
              /\ forall hashes, containsAll bf' hashes = containsAll bf hashes.
Proof.
  intros Hws. destruct (unmarshal_of_marshal bf bf0 Hws) as (bf' & Hun & Hel).
  exists bf'. split; [exact Hun|]. split; [exact Hel|].
  intros hashes. unfold containsAll. rewrite Hel. reflexivity.
Qed.

(** ** The pool of bloom filters *)

(** A filter as the pool holds it: no visible word, and a backing array
    of zero words. *)
Definition pooled (bf : bloomFilter) : Prop :=
  elems (bits bf) = [] /\ Forall (fun w => w = 0) (spare (bits bf)).

(** What [bloomFilterPool.Get()] may return: nothing, or a filter that
    [putBloomFilter] has put there. *)
Definition fromPool (v : option bloomFilter) : Prop :=
  match v with
  | None => True
  | Some bf => pooled bf
  end.

Lemma zeros_repeat (l : list Z) : Forall (fun w => w = 0) l -> l = repeat 0 (length l).
Proof. induction 1 as [|w l Hw _ IH]; [reflexivity|]. simpl. rewrite Hw, <- IH. reflexivity. Qed.

Lemma Forall_zero_repeat (n : nat) : Forall (fun w : Z => w = 0) (repeat 0 n).
Proof. induction n; simpl; constructor; auto. Qed.

Lemma getBloomFilter_pooled (v : option bloomFilter) :
  fromPool v -> pooled (getBloomFilter v).
Proof. destruct v as [bf|]; simpl; [auto|]. intros _. split; [reflexivity|constructor]. Qed.

Lemma SetLength_pooled (bf : bloomFilter) (n : nat) :
  pooled bf ->
  elems (SetLength 0 (bits bf) n) = repeat 0 n
  /\ Forall (fun w => w = 0) (spare (SetLength 0 (bits bf) n)).
Proof.
  intros [Hel Hsp]. unfold SetLength. rewrite Hel. cbn [app length elems spare].
  set (backing := spare (bits bf) ++ repeat 0 (n - (0 + length (spare (bits bf))))).
  assert (Hz : Forall (fun w => w = 0) backing).
  { apply Forall_app. split; [exact Hsp|apply Forall_zero_repeat]. }
  assert (Hlen : (n <= length backing)%nat).
  { unfold backing. rewrite length_app, repeat_length. lia. }
  split.
  - rewrite (zeros_repeat (take n backing)) by (apply Forall_take; exact Hz).
    rewrite length_take. f_equal. lia.
  - apply Forall_drop. exact Hz.
Qed.

Lemma reset_pooled (bf : bloomFilter) :
  Forall (fun w => w = 0) (spare (bits bf)) -> pooled (putBloomFilter bf).
Proof.
  intros Hsp. unfold putBloomFilter, reset, pooled. cbn [bits elems spare].
  split; [reflexivity|]. apply Forall_app. split; [|exact Hsp].
  induction (elems (bits bf)); simpl; constructor; auto.
Qed.

Lemma lor_isUint64 (a b : Z) : isUint64 a -> isUint64 b -> isUint64 (Z.lor a b).
Proof.
  unfold isUint64. intros Ha Hb. split; [apply Z.lor_nonneg; lia|].
  destruct (Z.eq_dec a 0) as [->|Hna]; [rewrite Z.lor_0_l; lia|].
  destruct (Z.eq_dec b 0) as [->|Hnb]; [rewrite Z.lor_0_r; lia|].
  assert (Hpos : 0 < Z.lor a b).
  { assert (0 <= Z.lor a b) by (apply Z.lor_nonneg; lia).
    assert (Z.lor a b <> 0) by (rewrite Z.lor_eq_0_iff; tauto). lia. }
  apply Z.log2_lt_pow2; [exact Hpos|].
  rewrite Z.log2_lor by lia.
  apply Z.max_lub_lt; apply Z.log2_lt_pow2; lia.
Qed.

Lemma initBloomFilter_isUint64 (hashes bits bits' : list Z) :
  Forall isUint64 bits -> initBloomFilter bits hashes = Some bits' ->
  Forall isUint64 bits'.
Proof.
  revert bits. induction hashes as [|h hashes IH]; intros bits Hr Hinit;
    cbn [initBloomFilter] in Hinit.
  - injection Hinit as <-. exact Hr.
  - destruct (bitPosition (length bits) h) as [[i mask]|] eqn:Hp; [|discriminate].
    destruct (bits !! i) as [w|] eqn:Hw; [|discriminate].
    destruct (bitPosition_mask _ _ _ _ Hp) as (j & Hj & ->).
    apply IH in Hinit; [exact Hinit|].
    destruct (Z.land w (Z.shiftl 1 j) =? 0); [|exact Hr].
    apply Forall_insert; [exact Hr|].
    apply lor_isUint64.
    + eapply Forall_lookup_1; eassumption.
    + unfold isUint64. rewrite Z.shiftl_1_l.
      split; [apply Z.pow_nonneg; lia|apply Z.pow_lt_mono_r; lia].
Qed.

Lemma isUint64_repeat (n : nat) : Forall isUint64 (repeat 0 n).
Proof. induction n; simpl; constructor; auto. unfold isUint64. lia. Qed.

Section Pool.
Context {HS : Hasher}.

(** What [mustInitTokens] builds in a filter from the pool: the words
    depend on the tokens only, they are 64-bit words, they answer for
    every token, and the backing array behind them is still zero. *)
Lemma mustInitTokens_pooled (bf : bloomFilter) (tokens : list string) :
  pooled bf -> Z.of_nat (length tokens) < 2 ^ 56 ->
  exists ws sp,
    mustInitTokens bf tokens = Some (mkBloomFilter (mkSlice ws sp))
    /\ initBloomFilter
         (repeat 0 ((length tokens * bloomFilterBitsPerItem + 63) / 64))
         (appendTokensHashes [] tokens) = Some ws
    /\ Forall isUint64 ws
    /\ Forall (fun w => w = 0) sp
    /\ forall sub, (forall t, t ∈ sub -> t ∈ tokens) ->
         forall sp', containsAll (mkBloomFilter (mkSlice ws sp'))
                       (appendTokensHashes [] sub) = Some true.
Proof.
  intros Hpool Hsize. unfold mustInitTokens, bloomFilterAddTokens.
  destruct (wordsCount_bounds (length tokens) Hsize) as [Hsmall Hpos].
  cbv zeta in Hsmall, Hpos.
  set (wordsCount := ((length tokens * bloomFilterBitsPerItem + 63) / 64)%nat) in *.
  destruct (SetLength_pooled bf wordsCount Hpool) as [Hel Hsp]. rewrite Hel.
  destruct tokens as [|t0 tokens].
  - cbn [appendTokensHashes initBloomFilter].
    eexists _, _. split; [reflexivity|]. split; [reflexivity|].
    split; [apply isUint64_repeat|]. split; [exact Hsp|].
    intros sub Hsub sp'.
    destruct sub as [|s sub]; [|exfalso; specialize (Hsub s); rewrite elem_of_nil in Hsub;
                                 apply Hsub; left].
    unfold containsAll. destruct (length _ =? 0)%nat; reflexivity.
  - destruct (initBloomFilter_spec (appendTokensHashes [] (t0 :: tokens))
                (repeat 0 wordsCount)) as (ws & Hinit & _ & Hall).
    { rewrite repeat_length. apply Hpos. simpl. lia. }
    { rewrite repeat_length. exact Hsmall. }
    rewrite Hinit. eexists _, _. split; [reflexivity|]. split; [reflexivity|].
    split; [eapply initBloomFilter_isUint64; [apply isUint64_repeat|exact Hinit]|].
    split; [exact Hsp|].
    intros sub Hsub sp'. unfold containsAll. cbn [bits elems].
    destruct (length ws =? 0)%nat; [reflexivity|].
    apply containsAllLoop_hasBit. intros h Hh. apply Hall.
    apply elem_of_appendTokensHashes in Hh as [Hh|(t & Ht & Hh)]; [inversion Hh|].
    apply elem_of_appendTokensHashes. right. exists t. split; [apply Hsub; exact Ht|exact Hh].
Qed.

(** X8. From the writer to the reader: the bytes that
    [bloomFilterMarshalTokens] returns for a list of tokens (of a length
    a Go slice can have), with a filter from the pool, are read by
    [unmarshal] without an error, and the filter read answers true for
    every list of tokens taken among them. *)
Theorem marshaled_tokens_are_found
    (v : option bloomFilter) (bf0 : bloomFilter) (tokens sub : list string) :
  fromPool v -> Z.of_nat (length tokens) < 2 ^ 56 ->
  (forall t, t ∈ sub -> t ∈ tokens) ->
  exists data bf1 bf',
    bloomFilterMarshalTokens v [] tokens = Some (data, bf1)
    /\ unmarshal bf0 data = UnmarshalDone bf'
    /\ containsAll bf' (appendTokensHashes [] sub) = Some true.
Proof.
  intros Hv Hsize Hsub. unfold bloomFilterMarshalTokens. cbv zeta.
  destruct (mustInitTokens_pooled (getBloomFilter v) tokens
              (getBloomFilter_pooled v Hv) Hsize)
    as (ws & sp & Hinit & _ & Hws & _ & Hfound).
  rewrite Hinit.
  destruct (unmarshal_of_marshal (mkBloomFilter (mkSlice ws sp)) bf0 Hws)
    as (bf' & Hun & Hel). cbn [bits elems] in Hel.
  eexists _, _, bf'. split; [reflexivity|]. split; [exact Hun|].
  destruct bf' as [[ws' sp']]. cbn [bits elems] in Hel. subst ws'.
  apply Hfound. exact Hsub.
Qed.

(** X9. Reusing a filter from the pool changes nothing: with any filter
    that [putBloomFilter] has put into the pool, [bloomFilterMarshalTokens]
    appends to [dst] the bytes it returns with a new filter, and the
    filter it puts back is again one the pool may hold. *)
Theorem pooled_filter_is_as_new
    (v : option bloomFilter) (dst : list byte) (tokens : list string) :
  fromPool v -> Z.of_nat (length tokens) < 2 ^ 56 ->
  exists data bf1 bf2,
    bloomFilterMarshalTokens None [] tokens = Some (data, bf1)
    /\ bloomFilterMarshalTokens v dst tokens = Some (dst ++ data, bf2)
    /\ pooled bf2.
Proof.
  intros Hv Hsize. unfold bloomFilterMarshalTokens. cbv zeta.
  destruct (mustInitTokens_pooled (getBloomFilter None) tokens
              (getBloomFilter_pooled None I) Hsize)
    as (ws1 & sp1 & Hinit1 & Hws1 & _).
  destruct (mustInitTokens_pooled (getBloomFilter v) tokens
              (getBloomFilter_pooled v Hv) Hsize)
    as (ws & sp & Hinit & Hws & _ & Hsp & _).
  rewrite Hinit1, Hinit. rewrite Hws in Hws1. injection Hws1 as <-.
  eexists _, _, _. split; [reflexivity|]. split.
  - unfold marshal. cbn [bits elems]. rewrite !marshal_fold. reflexivity.
  - apply reset_pooled. exact Hsp.
Qed.
End Pool.

(** ** More on phrases and prefixes *)

Lemma HasPrefix_refl (s : string) : HasPrefix s s = true.
Proof.
  unfold HasPrefix. induction s as [|c s IH]; cbn [String.prefix]; [reflexivity|].
  destruct (ascii_dec c c); [exact IH|contradiction].
Qed.

Section PhrasePositions.
Context {UC : Unicode}.

(** The loop of [getPhrasePos] passes over no position where the phrase
    stands and no check refuses it. *)
Lemma getPhrasePosLoop_least (s p : string) (st et : bool) (fuel pos0 : nat) (r : Z) :
  p <> EmptyString ->
  getPhrasePosLoop fuel s p st et pos0 = Some r -> 0 <= r ->
  forall q, (pos0 <= q)%nat -> Z.of_nat q < r -> ~ standsAt st et s p q.
Proof.
  intros Hp. revert pos0. induction fuel as [|fuel IH]; intros pos0 Hloop Hr q Hq Hqr;
    [discriminate|].
  cbn [getPhrasePosLoop] in Hloop. cbv zeta in Hloop.
  destruct (Index_spec (strFrom pos0 s) p Hp) as [[Hm Hno]|(Hn & Hocc & Hfirst)].
  - rewrite Hm in Hloop. cbn [Z.ltb Z.compare] in Hloop. injection Hloop as <-. lia.
  - destruct (Z.ltb_spec (Index (strFrom pos0 s) p) 0) as [Hneg|_]; [lia|].
    set (pos := (pos0 + Z.to_nat (Index (strFrom pos0 s) p))%nat) in *.
    assert (Hbefore : (q < pos)%nat -> ~ standsAt st et s p q).
    { intros Hlt [Hq1 _]. apply (Hfirst (q - pos0)%nat); [unfold pos in Hlt; lia|].
      unfold occursAt in *. rewrite <- strFrom_add.
      replace (pos0 + (q - pos0))%nat with q by lia. exact Hq1. }
    fold (blockedStart st s pos) in Hloop. fold (blockedEnd et s p pos) in Hloop.
    assert (Hnext : (blockedStart st s pos = true \/ blockedEnd et s p pos = true) ->
                    getPhrasePosLoop fuel s p st et (S pos) = Some r ->
                    ~ standsAt st et s p q).
    { intros Hblocked Hrec.
      destruct (Nat.lt_trichotomy q pos) as [Hlt|[Heq|Hgt]].
      - apply Hbefore. exact Hlt.
      - subst q. intros (_ & Hs & He). destruct Hblocked; congruence.
      - apply (IH (S pos)); [exact Hrec|exact Hr|lia|exact Hqr]. }
    destruct (blockedStart st s pos) eqn:Hbs; [apply Hnext; auto|].
    destruct (blockedEnd et s p pos) eqn:Hbe; [apply Hnext; auto|].
    injection Hloop as <-. apply Hbefore. lia.
Qed.

(** X10. [getPhrasePos] returns 0 for the empty phrase.  For a phrase
    that is not empty it returns -1 when the phrase stands nowhere in [s]
    at a position the checks accept, and otherwise the first such
    position, which leaves room for the phrase in [s]. *)
Theorem getPhrasePos_first_position (s p : string) :
  let st := isTokenRune (runeAtStart p) in
  let et := isTokenRune (runeAtEnd p) in
  (p = EmptyString -> getPhrasePos s p = 0)
  /\ (p <> EmptyString ->
      (getPhrasePos s p = -1 /\ forall q, ~ standsAt st et s p q)
      \/ exists pos,
           getPhrasePos s p = Z.of_nat pos
           /\ standsAt st et s p pos
           /\ (pos + String.length p <= String.length s)%nat
           /\ forall q, (q < pos)%nat -> ~ standsAt st et s p q).
Proof.
  cbv zeta. split; [intros ->; reflexivity|].
  intros Hp. unfold getPhrasePos.
  rewrite length_zero_iff, bool_decide_eq_false_2 by exact Hp.
  destruct (Nat.ltb_spec (String.length s) (String.length p)) as [Hshort|Hlong].
  - left. split; [reflexivity|]. intros q [Hocc _].
    apply occursAt_bound in Hocc; [lia|exact Hp].
  - cbv zeta.
    destruct (getPhrasePosLoop_spec s p (isTokenRune (runeAtStart p))
                (isTokenRune (runeAtEnd p)) (S (String.length s)) 0 Hp)
      as (r & Hr & Hspec); [lia|lia|].
    rewrite Hr. destruct Hspec as [[-> Hnone]|(pos & -> & _ & Hst)].
    + left. split; [reflexivity|]. intros q. apply Hnone. lia.
    + right. exists pos. split; [reflexivity|]. split; [exact Hst|].
      split; [apply (occursAt_bound s p pos Hp); apply Hst|].
      intros q Hq. eapply getPhrasePosLoop_least; [exact Hp|exact Hr|lia|lia|lia].
Qed.

(** X11. A phrase that is not empty and matches as a phrase matches as a
    prefix too; on the empty text the two matchers are opposite: the
    empty phrase matches the empty string only, the empty prefix every
    other string. *)
Theorem matchPhrase_implies_matchPrefix :
  (forall s p, p <> EmptyString -> matchPhrase s p = true -> matchPrefix s p = true)
  /\ (forall s, matchPhrase s EmptyString = negb (matchPrefix s EmptyString)).
Proof.
  split.
  - intros s p Hp Hm. apply (matchPhrase_iff s p Hp) in Hm as (pos & Hocc & Hbs & _).
    apply (matchPrefix_iff s p Hp). exists pos. split; assumption.
  - intros s. unfold matchPhrase, matchPrefix. cbn [String.length Nat.eqb].
    destruct s; reflexivity.
Qed.

(** X12. Every string matches itself as a phrase, and every string that
    is not empty matches itself as a prefix: whatever an exact filter
    keeps, the phrase filter and the prefix filter for the same text
    keep. *)
Theorem value_matches_itself (s : string) :
  matchPhrase s s = true /\ (s <> EmptyString -> matchPrefix s s = true).
Proof.
  assert (Hocc : occursAt s s 0) by (unfold occursAt; cbn [strFrom]; apply HasPrefix_refl).
  split.
  - destruct s as [|c s]; [reflexivity|].
    apply matchPhrase_iff; [discriminate|]. exists 0%nat.
    split; [exact Hocc|]. unfold blockedStart, blockedEnd.
    replace (0 + String.length (String c s))%nat with (String.length (String c s))
      by reflexivity.
    rewrite !Nat.ltb_irrefl, !andb_false_r. split; reflexivity.
  - intros Hs. apply (matchPrefix_iff s s Hs). exists 0%nat.
    split; [exact Hocc|]. unfold blockedStart. rewrite andb_false_r. reflexivity.
Qed.
End PhrasePositions.

(** ** Ranges whose bounds are crossed *)

Lemma lexLt_trans (a b c : string) : lexLt a b -> lexLt b c -> lexLt a c.
Proof.
  intros Hab. revert c. induction Hab as [x t|x y s t Hxy|x s t Hst IH]; intros c Hbc.
  - inversion Hbc; subst; constructor.
  - inversion Hbc; subst.
    + apply lexLt_head. lia.
    + apply lexLt_head. exact Hxy.
  - inversion Hbc; subst.
    + apply lexLt_head. assumption.
    + apply lexLt_tail. apply IH. assumption.
Qed.

Section CrossedRanges.
Context {UC : Unicode} {FL : Float64} {VE : ValuesEncoder}.

Lemma matchStringRange_crossed (s minValue maxValue : string) :
  strGt minValue maxValue = true -> matchStringRange s minValue maxValue = false.
Proof.
  intros Hgt.
  destruct (matchStringRange s minValue maxValue) eqn:Hm; [|reflexivity]. exfalso.
  unfold matchStringRange in Hm. apply andb_true_iff in Hm as [Hge Hlt].
  apply strGe_lexLe in Hge. apply strLt_lexLt in Hlt.
  unfold strGt in Hgt. fold (strLt maxValue minValue) in Hgt. apply strLt_lexLt in Hgt.
  apply (lexLt_irrefl s). destruct Hge as [<-|Hge].
  - eapply lexLt_trans; eassumption.
  - eapply lexLt_trans; [exact Hlt|]. eapply lexLt_trans; eassumption.
Qed.

Lemma matchIPv4Range_crossed (s : string) (minValue maxValue : Z) :
  maxValue < minValue -> matchIPv4Range s minValue maxValue = false.
Proof.
  intros Hlt. unfold matchIPv4Range.
  destruct (tryParseIPv4 s) as [n|]; [|reflexivity].
  apply andb_false_iff.
  destruct (Z.leb_spec minValue n); [right; apply Z.leb_gt; lia|left; reflexivity].
Qed.

Lemma matchLenRange_crossed (s : string) (minLen maxLen : Z) :
  maxLen < minLen -> matchLenRange s minLen maxLen = false.
Proof.
  intros Hlt. unfold matchLenRange. cbv zeta.
  apply andb_false_iff.
  destruct (Z.leb_spec minLen (wrap64 (RuneCountInString s)));
    [right; apply Z.leb_gt; lia|left; reflexivity].
Qed.

(** X13. No value lies in a range whose bounds are crossed: what the
    string range, IPv4 range and length range filters skip when
    [minValue > maxValue], their matchers would refuse row by row. *)
Theorem crossed_ranges_match_nothing :
  (forall s minValue maxValue,
      strGt minValue maxValue = true -> matchStringRange s minValue maxValue = false)
  /\ (forall s minValue maxValue,
      maxValue < minValue -> matchIPv4Range s minValue maxValue = false)
  /\ (forall s minLen maxLen,
      maxLen < minLen -> matchLenRange s minLen maxLen = false).
Proof.
  split; [|split]; intros.
  - apply matchStringRange_crossed. assumption.
  - apply matchIPv4Range_crossed. assumption.
  - apply matchLenRange_crossed. assumption.
Qed.
End CrossedRanges.

(** ** Columns stored through a dictionary *)

Lemma IndexByte_spec (l : list byte) (c : byte) :
  (IndexByte l c = -1 /\ c ∉ l) \/ (0 <= IndexByte l c /\ c ∈ l).
Proof.
  induction l as [|x l IH]; cbn [IndexByte].
  - left. split; [reflexivity|]. apply not_elem_of_nil.
  - destruct (Byte.eqb x c) eqn:Hx.
    + apply Byte.byte_dec_bl in Hx. subst x. right. split; [lia|]. apply list_elem_of_here.
    + assert (x <> c).
      { intros ->. rewrite (Byte.byte_dec_lb eq_refl) in Hx. discriminate. }
      cbv zeta. destruct IH as [[Hm Hno]|[Hn Hin]].
      * left. rewrite Hm. split; [reflexivity|].
        intros Hc. apply elem_of_cons in Hc as [Hc|Hc]; [congruence|contradiction].
      * right. destruct (Z.ltb_spec (IndexByte l c) 0); [lia|].
        split; [lia|]. apply list_elem_of_further. exact Hin.
Qed.

Lemma elem_of_dictIndexesFrom (f : string -> bool) (values : list string) (i : nat) (b : byte) :
  b ∈ dictIndexesFrom i f values
  <-> exists j d, values !! j = Some d /\ f d = true /\ b = byte_of_Z (Z.of_nat (i + j)).
Proof.
  revert i. induction values as [|v values IH]; intros i; cbn [dictIndexesFrom].
  - split; [intros Hb; inversion Hb|intros (j & d & Hj & _); inversion Hj].
  - assert (Hrest : b ∈ dictIndexesFrom (S i) f values
                    <-> exists j d, (v :: values) !! S j = Some d /\ f d = true
                                    /\ b = byte_of_Z (Z.of_nat (i + S j))).
    { rewrite IH. split; intros (j & d & Hj & Hd & Hb); exists j, d;
        (split; [exact Hj|split; [exact Hd|]]); rewrite Hb; f_equal; lia. }
    destruct (f v) eqn:Hv.
    + rewrite elem_of_cons, Hrest. split.
      * intros [->|(j & d & Hj & Hd & Hb)].
        -- exists 0%nat, v. rewrite Nat.add_0_r. auto.
        -- exists (S j), d. auto.
      * intros (j & d & Hj & Hd & Hb). destruct j as [|j].
        -- left. rewrite Hb, Nat.add_0_r. reflexivity.
        -- right. exists j, d. auto.
    + rewrite Hrest. split.
      * intros (j & d & Hj & Hd & Hb). exists (S j), d. auto.
      * intros (j & d & Hj & Hd & Hb). destruct j as [|j].
        -- cbn [lookup list_lookup] in Hj. congruence.
        -- exists j, d. auto.
Qed.

Lemma zip_with_none (pred : string -> bool) (bm : bitmap) (rows : list string) :
  (forall v, pred v = false) -> (length bm <= length rows)%nat ->
  zip_with (fun b v => b && pred v) bm rows = resetBits bm.
Proof.
  intros Hnone. revert rows. induction bm as [|b bm IH]; intros rows Hlen; [reflexivity|].
  destruct rows as [|v rows]; cbn [length] in Hlen; [lia|].
  cbn [resetBits map zip_with]. rewrite Hnone, andb_false_r. f_equal.
  apply IH. lia.
Qed.

Lemma forEachSetBitFrom_ext (f g : nat -> option bool) (bm : bitmap) (idx : nat) :
  (forall i, f i = g i) -> forEachSetBitFrom idx f bm = forEachSetBitFrom idx g bm.
Proof.
  intros Hfg. revert idx. induction bm as [|b bm IH]; intros idx; [reflexivity|].
  cbn [forEachSetBitFrom]. rewrite Hfg, IH. reflexivity.
Qed.

Lemma byteAt_range (s : string) (i : nat) : 0 <= byteAt s i < 256.
Proof.
  unfold byteAt. destruct (String.get i s) as [c|]; [|lia].
  unfold Z_of_ascii. pose proof (N_ascii_bounded c). lia.
Qed.

(** What [matchEncodedValuesDict] keeps of a row storing [v], when the
    entries of the dictionary that [f] accepts were encoded. *)
Definition dictKeep (f : string -> bool) (ch : columnHeader) (v : string) : bool :=
  match chValuesDict ch !! Z.to_nat (byteAt v 0) with
  | Some d => f d
  | None => false
  end.

Section DictColumns.
Context {SI : StreamIndex}.

Lemma visitValues_ext (bs : blockSearch) (ch : columnHeader)
    (f g : string -> option bool) (bm : bitmap) :
  (forall v, v ∈ getValuesForColumn bs ch -> f v = g v) ->
  visitValues bs ch f bm = visitValues bs ch g bm.
Proof.
  intros Hfg. unfold visitValues. destruct (isZero bm); [reflexivity|].
  apply forEachSetBitFrom_ext. intros i.
  destruct (getValuesForColumn bs ch !! i) as [v|] eqn:Hv; [|reflexivity].
  apply Hfg. eapply list_elem_of_lookup_2. exact Hv.
Qed.

Lemma dictIndexes_keep (f : string -> bool) (ch : columnHeader) (v : string) :
  (length (chValuesDict ch) <= 256)%nat ->
  (0 <=? IndexByte (dictIndexes f ch) (byte_of_Z (byteAt v 0))) = dictKeep f ch v.
Proof.
  intros Hdict. pose proof (byteAt_range v 0) as Hrange. unfold dictKeep.
  destruct (IndexByte_spec (dictIndexes f ch) (byte_of_Z (byteAt v 0)))
    as [[Hm Hno]|[Hn Hin]].
  - rewrite Hm. cbn [Z.leb Z.compare].
    destruct (chValuesDict ch !! Z.to_nat (byteAt v 0)) as [d|] eqn:Hd; [|reflexivity].
    destruct (f d) eqn:Hfd; [|reflexivity]. exfalso. apply Hno.
    apply elem_of_dictIndexesFrom. exists (Z.to_nat (byteAt v 0)), d.
    split; [exact Hd|]. split; [exact Hfd|]. f_equal. lia.
  - destruct (Z.leb_spec 0 (IndexByte (dictIndexes f ch) (byte_of_Z (byteAt v 0)))); [|lia].
    apply elem_of_dictIndexesFrom in Hin as (j & d & Hj & Hfd & Hb).
    assert (Hlt : (j < 256)%nat).
    { apply lookup_lt_Some in Hj. lia. }
    apply (f_equal Z_of_byte) in Hb. rewrite !Z_of_byte_of_Z in Hb.
    rewrite !Z.mod_small in Hb by lia.
    replace (Z.to_nat (byteAt v 0)) with j by lia.
    rewrite Hj, Hfd. reflexivity.
Qed.

(** X14. A dictionary column is matched through the one-byte indexes of
    the dictionary entries that the matcher accepts.  With a dictionary
    of at most 256 entries and rows that each store one byte,
    [matchEncodedValuesDict] on the encoded indexes returns, and keeps
    exactly the set rows whose byte is the index of an accepted entry;
    a byte that is no index of the dictionary clears its row. *)
Theorem dict_column_keeps_accepted_entries (bs : blockSearch) (ch : columnHeader)
    (f : string -> bool) (bm : bitmap) :
  (length (chValuesDict ch) <= 256)%nat ->
  (length bm <= length (getValuesForColumn bs ch))%nat ->
  (forall v, v ∈ getValuesForColumn bs ch -> String.length v = 1%nat) ->
  matchEncodedValuesDict bs ch (dictIndexes f ch) bm
  = (zip_with (fun b v => b && dictKeep f ch v) bm (getValuesForColumn bs ch), Returned).
Proof.
  intros Hdict Hlen Hone. unfold matchEncodedValuesDict.
  destruct (Nat.eqb_spec (length (dictIndexes f ch)) 0) as [Hempty|_].
  - unfold clearAll. f_equal. symmetry. apply zip_with_none; [|exact Hlen].
    intros v. rewrite <- dictIndexes_keep by exact Hdict.
    destruct (dictIndexes f ch); [reflexivity|discriminate].
  - rewrite <- (visitValues_rows bs ch (dictKeep f ch) bm Hlen).
    apply visitValues_ext. intros v Hv. rewrite (Hone v Hv). cbn [Nat.eqb negb].
    cbv zeta. rewrite dictIndexes_keep by exact Hdict. reflexivity.
Qed.
End DictColumns.

(** ** Filters decide row by row *)

(** A procedure that panics before it reads the bitmap, or that asks one
    question per set bit, the same whatever the other bits are. *)
Definition rowwise (p : proc) : Prop :=
  (forall bm, p bm = (bm, Panicked))
  \/ exists g : nat -> option bool, forall bm, p bm = forEachSetBit g bm.

Lemma forEachSetBitFrom_const (keep : bool) (bm : bitmap) (idx : nat) :
  forEachSetBitFrom idx (fun _ => Some keep) bm = (map (fun b => b && keep) bm, Returned).
Proof.
  revert idx. induction bm as [|b bm IH]; intros idx; [reflexivity|].
  cbn [forEachSetBitFrom map]. rewrite IH. destruct b; reflexivity.
Qed.

Lemma forEachSetBitFrom_isZero (g : nat -> option bool) (bm : bitmap) (idx : nat) :
  isZero bm = true -> forEachSetBitFrom idx g bm = (bm, Returned).
Proof.
  revert idx. induction bm as [|b bm IH]; intros idx Hz; [reflexivity|].
  cbn [isZero forallb] in Hz. apply andb_true_iff in Hz as [Hb Hz].
  destruct b; [discriminate|]. cbn [forEachSetBitFrom].
  rewrite (IH (S idx) Hz). reflexivity.
Qed.

Create HintDb rows discriminated.

Lemma rowwise_skip : rowwise skip.
Proof.
  right. exists (fun _ => Some true). intros bm. unfold skip, forEachSetBit.
  rewrite forEachSetBitFrom_const. f_equal.
  induction bm as [|b bm IH]; [reflexivity|].
  cbn [map]. rewrite <- IH, andb_true_r. reflexivity.
Qed.

Lemma rowwise_clearAll : rowwise clearAll.
Proof.
  right. exists (fun _ => Some false). intros bm. unfold clearAll, forEachSetBit.
  rewrite forEachSetBitFrom_const. f_equal. unfold resetBits.
  apply map_ext. intros b. rewrite andb_false_r. reflexivity.
Qed.

Lemma rowwise_panic : rowwise panic.
Proof. left. reflexivity. Qed.

Lemma rowwise_branch (c : option bool) (p q : proc) :
  rowwise p -> rowwise q -> rowwise (branch c p q).
Proof.
  intros Hp Hq. destruct c as [[|]|]; cbn [branch]; auto using rowwise_panic.
Qed.

Lemma rowwise_visitValues `{StreamIndex} (bs : blockSearch) (ch : columnHeader)
    (f : string -> option bool) :
  rowwise (visitValues bs ch f).
Proof.
  right. eexists. intros bm. unfold visitValues.
  destruct (isZero bm) eqn:Hz; [|reflexivity].
  unfold forEachSetBit. rewrite forEachSetBitFrom_isZero by exact Hz. reflexivity.
Qed.

#[local] Hint Resolve rowwise_skip rowwise_clearAll rowwise_panic
  rowwise_branch rowwise_visitValues : rows.

Ltac rowsStep :=
  lazymatch goal with
  | |- rowwise (if ?c then _ else _) => destruct c
  | |- rowwise (match ?x with _ => _ end) => destruct x
  | |- rowwise ?p =>
      first [ solve [auto with rows]
            | let h := procHead p in unfold h ]
  end.

Ltac rows := cbv zeta; repeat (rowsStep; cbv zeta).

(** A second pass asks the same questions and gets the same answers, up
    to the row where the first pass stopped. *)
Lemma forEachSetBitFrom_idem (g : nat -> option bool) (bm : bitmap) (idx : nat) :
  forEachSetBitFrom idx g (fst (forEachSetBitFrom idx g bm)) = forEachSetBitFrom idx g bm.
Proof.
  revert idx. induction bm as [|b bm IH]; intros idx; [reflexivity|].
  cbn [forEachSetBitFrom]. specialize (IH (S idx)).
  destruct b.
  - destruct (g idx) as [keep|] eqn:Hg.
    + destruct (forEachSetBitFrom (S idx) g bm) as [bm'' st]. cbn [fst] in *.
      cbn [forEachSetBitFrom]. destruct keep; rewrite ?Hg, IH; reflexivity.
    + cbn [fst forEachSetBitFrom]. rewrite Hg. reflexivity.
  - destruct (forEachSetBitFrom (S idx) g bm) as [bm'' st]. cbn [fst] in *.
    cbn [forEachSetBitFrom]. rewrite IH. reflexivity.
Qed.

(** On some of the set rows only, a pass that returned returns again and
    keeps of them what it kept before. *)
Lemma forEachSetBitFrom_restrict (g : nat -> option bool) (sub bm bm' : bitmap) (idx : nat) :
  bitmapIncluded sub bm ->
  forEachSetBitFrom idx g bm = (bm', Returned) ->
  forEachSetBitFrom idx g sub = (zip_with andb sub bm', Returned).
Proof.
  intros Hincl. revert idx bm'.
  induction Hincl as [|s b sub bm Hsb _ IH]; intros idx bm' Hrun.
  - reflexivity.
  - cbn [forEachSetBitFrom] in *. specialize (IH (S idx)).
    destruct (forEachSetBitFrom (S idx) g bm) as [bm'' st] eqn:Hrest.
    destruct b.
    + destruct (g idx) as [keep|]; [|discriminate].
      injection Hrun as <- ->. rewrite (IH bm'' eq_refl).
      destruct s; reflexivity.
    + injection Hrun as <- ->. rewrite (IH bm'' eq_refl).
      destruct s; [discriminate (Hsb eq_refl)|reflexivity].
Qed.

Lemma zip_with_andb_comm (a b : bitmap) : zip_with andb a b = zip_with andb b a.
Proof.
  revert b. induction a as [|x a IH]; intros [|y b]; cbn [zip_with]; [reflexivity..|].
  rewrite IH, andb_comm. reflexivity.
Qed.

Lemma rowwise_idem (p : proc) (bm : bitmap) : rowwise p -> p (fst (p bm)) = p bm.
Proof.
  intros [Hpanic|[g Hg]].
  - rewrite !Hpanic. reflexivity.
  - rewrite !Hg. apply forEachSetBitFrom_idem.
Qed.

Lemma rowwise_restrict (p : proc) (sub bm bm' : bitmap) :
  rowwise p -> bitmapIncluded sub bm -> p bm = (bm', Returned) ->
  p sub = (zip_with andb sub bm', Returned).
Proof.
  intros [Hpanic|[g Hg]] Hincl Hrun.
  - rewrite Hpanic in Hrun. discriminate.
  - rewrite Hg in *. eapply forEachSetBitFrom_restrict; eassumption.
Qed.

Lemma rowwise_included (p : proc) (bm : bitmap) : rowwise p -> bitmapIncluded (fst (p bm)) bm.
Proof.
  intros [Hpanic|[g Hg]].
  - rewrite Hpanic. apply bitmapIncluded_refl.
  - rewrite Hg. apply bitmapIncluded_forEachSetBitFrom.
Qed.

Section Rowwise.
Context {HS : Hasher} {UC : Unicode} {FL : Float64} {VE : ValuesEncoder}
        {TK : Tokenizer} {RE : Regexp} {SI : StreamIndex}.

Lemma streamFilter_rowwise (fs : streamFilter.t) (bs : blockSearch) :
  rowwise (streamFilter.apply fs bs).
Proof. rows. Qed.

Lemma exactFilter_rowwise (fe : exactFilter.t) (bs : blockSearch) :
  rowwise (exactFilter.apply fe bs).
Proof. rows. Qed.

Lemma inFilter_rowwise (fi : inFilter.t) (bs : blockSearch) :
  rowwise (inFilter.apply fi bs).
Proof. rows. Qed.

Lemma ipv4RangeFilter_rowwise (rf : ipv4RangeFilter.t) (bs : blockSearch) :
  rowwise (ipv4RangeFilter.apply rf bs).
Proof. rows. Qed.

Lemma stringRangeFilter_rowwise (rf : stringRangeFilter.t) (bs : blockSearch) :
  rowwise (stringRangeFilter.apply rf bs).
Proof. rows. Qed.

Lemma lenRangeFilter_rowwise (rf : lenRangeFilter.t) (bs : blockSearch) :
  rowwise (lenRangeFilter.apply rf bs).
Proof. rows. Qed.

Lemma rangeFilter_rowwise (rf : rangeFilter.t) (bs : blockSearch) :
  rowwise (rangeFilter.apply rf bs).
Proof. rows. Qed.

Lemma regexpFilter_rowwise (rf : regexpFilter.t) (bs : blockSearch) :
  rowwise (regexpFilter.apply rf bs).
Proof. rows. Qed.

Lemma anyCasePrefixFilter_rowwise (pf : anyCasePrefixFilter.t) (bs : blockSearch) :
  rowwise (anyCasePrefixFilter.apply pf bs).
Proof. rows. Qed.

Lemma prefixFilter_rowwise (pf : prefixFilter.t) (bs : blockSearch) :
  rowwise (prefixFilter.apply pf bs).
Proof. rows. Qed.

Lemma anyCasePhraseFilter_rowwise (pf : anyCasePhraseFilter.t) (bs : blockSearch) :
  rowwise (anyCasePhraseFilter.apply pf bs).
Proof. rows. Qed.

Lemma phraseFilter_rowwise (pf : phraseFilter.t) (bs : blockSearch) :
  rowwise (phraseFilter.apply pf bs).
Proof. rows. Qed.

Lemma apply_rowwise (f : filter) (bs : blockSearch) : rowwise (apply f bs).
Proof.
  destruct f; cbn [apply];
    auto using streamFilter_rowwise, exactFilter_rowwise, inFilter_rowwise,
      ipv4RangeFilter_rowwise, stringRangeFilter_rowwise, lenRangeFilter_rowwise,
      rangeFilter_rowwise, regexpFilter_rowwise, anyCasePrefixFilter_rowwise,
      prefixFilter_rowwise, anyCasePhraseFilter_rowwise, phraseFilter_rowwise.
Qed.

(** X15. Applying a filter twice is applying it once: on the bitmap a
    first [apply] left, whether it returned or panicked midway, a second
    [apply] of the same filter to the same block ends the same way and
    leaves the same bitmap. *)
Theorem apply_idempotent (f : filter) (bs : blockSearch) (bm : bitmap) :
  apply f bs (fst (apply f bs bm)) = apply f bs bm.
Proof. apply rowwise_idem, apply_rowwise. Qed.

(** X16. A filter decides each row on its own.  When [apply] returns on
    a bitmap, it returns on every bitmap that has some of its rows
    cleared, and keeps of the remaining rows exactly those it kept
    before. *)
Theorem apply_on_fewer_rows (f : filter) (bs : blockSearch) (sub bm bm' : bitmap) :
  bitmapIncluded sub bm ->
  apply f bs bm = (bm', Returned) ->
  apply f bs sub = (zip_with andb sub bm', Returned).
Proof. intros Hincl Hrun. eapply rowwise_restrict; eauto using apply_rowwise. Qed.

(** X17. Two filters that each return on a bitmap can be applied one
    after the other in either order: both orders return and leave the
    rows that both filters keep. *)
Theorem apply_commutes (f1 f2 : filter) (bs : blockSearch) (bm bm1 bm2 : bitmap) :
  apply f1 bs bm = (bm1, Returned) ->
  apply f2 bs bm = (bm2, Returned) ->
  apply f2 bs bm1 = (zip_with andb bm1 bm2, Returned)
  /\ apply f1 bs bm2 = (zip_with andb bm1 bm2, Returned).
Proof.
  intros H1 H2.
  pose proof (rowwise_included (apply f1 bs) bm (apply_rowwise f1 bs)) as Hi1.
  pose proof (rowwise_included (apply f2 bs) bm (apply_rowwise f2 bs)) as Hi2.
  rewrite H1 in Hi1. rewrite H2 in Hi2. cbn [fst] in *. split.
  - eapply rowwise_restrict; eauto using apply_rowwise.
  - rewrite zip_with_andb_comm. eapply rowwise_restrict; eauto using apply_rowwise.
Qed.
End Rowwise.

(** ** Blocks that are decided as a whole *)

Section WholeBlocks.
Context {HS : Hasher} {UC : Unicode} {FL : Float64} {VE : ValuesEncoder}
        {TK : Tokenizer} {RE : Regexp} {SI : StreamIndex}.

(** The field a filter reads; the stream filter reads none. *)
Definition fieldOf (f : filter) : option string :=
  match f with
  | StreamFilterOf _ => None
  | ExactFilterOf fe => Some (exactFilter.fieldName fe)
  | InFilterOf fi => Some (inFilter.fieldName fi)
  | Ipv4RangeFilterOf rf => Some (ipv4RangeFilter.fieldName rf)
  | StringRangeFilterOf rf => Some (stringRangeFilter.fieldName rf)
  | LenRangeFilterOf rf => Some (lenRangeFilter.fieldName rf)
  | RangeFilterOf rf => Some (rangeFilter.fieldName rf)
  | RegexpFilterOf rf => Some (regexpFilter.fieldName rf)
  | AnyCasePrefixFilterOf pf => Some (anyCasePrefixFilter.fieldName pf)
  | PrefixFilterOf pf => Some (prefixFilter.fieldName pf)
  | AnyCasePhraseFilterOf pf => Some (anyCasePhraseFilter.fieldName pf)
  | PhraseFilterOf pf => Some (phraseFilter.fieldName pf)
  end.

(** The guard of a filter that clears every row before the block is
    read: no values to be in, or bounds that are crossed. *)
Definition rejectsAll (f : filter) : bool :=
  match f with
  | InFilterOf fi => (length (inFilter.values fi) =? 0)%nat
  | Ipv4RangeFilterOf rf => ipv4RangeFilter.maxValue rf <? ipv4RangeFilter.minValue rf
  | StringRangeFilterOf rf =>
      strGt (stringRangeFilter.minValue rf) (stringRangeFilter.maxValue rf)
  | LenRangeFilterOf rf => lenRangeFilter.maxLen rf <? lenRangeFilter.minLen rf
  | RangeFilterOf rf => f64lt (rangeFilter.maxValue rf) (rangeFilter.minValue rf)
  | _ => false
  end.

Ltac unfoldApply :=
  cbn [apply fieldOf rejectsAll] in *;
  unfold streamFilter.apply, exactFilter.apply, inFilter.apply, ipv4RangeFilter.apply,
    stringRangeFilter.apply, lenRangeFilter.apply, rangeFilter.apply, regexpFilter.apply,
    anyCasePrefixFilter.apply, prefixFilter.apply, anyCasePhraseFilter.apply,
    phraseFilter.apply;
  cbv zeta.

Ltac splitIfs :=
  repeat match goal with
         | |- context [if ?c then _ else _] => destruct c
         end.

(** X18. A block is decided as a whole when the field of the filter is a
    constant column of the block, or no column of the block at all, and
    always by the stream filter: [apply] then returns without reading a
    row, and either leaves every bitmap as it is or clears every
    bitmap. *)
Theorem apply_decides_whole_block (f : filter) (bs : blockSearch) :
  (forall name, fieldOf f = Some name ->
     getConstColumnValue bs name <> EmptyString \/ getColumnHeader bs name = None) ->
  apply f bs = skip \/ apply f bs = clearAll.
Proof.
  intros Hfield.
  destruct f; unfoldApply;
    try (destruct (Hfield _ eq_refl) as [Hconst|Hnone];
         [rewrite strEq_empty, (bool_decide_eq_false_2 _ Hconst); cbn [negb]
         |rewrite Hnone]);
    splitIfs; auto.
Qed.

(** X19. On a column whose value type is none of the nine known ones,
    [apply] panics before it touches the bitmap, unless the guard of the
    filter has already cleared every row. *)
Theorem apply_unknown_value_type (f : filter) (bs : blockSearch)
    (name : string) (ch : columnHeader) :
  fieldOf f = Some name ->
  getConstColumnValue bs name = EmptyString ->
  getColumnHeader bs name = Some ch ->
  chValueType ch = valueTypeUnknown ->
  apply f bs = if rejectsAll f then clearAll else panic.
Proof.
  intros Hname Hconst Hheader Htype.
  destruct f; unfoldApply; try discriminate;
    injection Hname as Hname; rewrite Hname, Hconst, Hheader, Htype;
    cbn [strEq String.eqb negb]; splitIfs; reflexivity.
Qed.
End WholeBlocks.

(** ** Range filters on a string column *)

Section StringColumns.
Context {HS : Hasher} {UC : Unicode} {FL : Float64} {VE : ValuesEncoder}
        {TK : Tokenizer} {RE : Regexp} {SI : StreamIndex}.

(** X20. On a string column that has a value for every row of the
    bitmap, the string range, IPv4 range and length range filters return
    and keep exactly the set rows whose value their matcher accepts.
    This holds for crossed bounds too, where the filter clears the
    bitmap without reading the block. *)
Theorem range_filters_on_string_column (bs : blockSearch) (name : string)
    (ch : columnHeader) (bm : bitmap) :
  getConstColumnValue bs name = EmptyString ->
  getColumnHeader bs name = Some ch ->
  chValueType ch = valueTypeString ->
  (length bm <= length (getValuesForColumn bs ch))%nat ->
  let kept pred := (zip_with (fun b v => b && pred v) bm (getValuesForColumn bs ch), Returned) in
  (forall minValue maxValue,
      stringRangeFilter.apply (stringRangeFilter.mk name minValue maxValue) bs bm
      = kept (fun v => matchStringRange v minValue maxValue))
  /\ (forall minValue maxValue,
      ipv4RangeFilter.apply (ipv4RangeFilter.mk name minValue maxValue) bs bm
      = kept (fun v => matchIPv4Range v minValue maxValue))
  /\ (forall minLen maxLen stringRepr,
      lenRangeFilter.apply (lenRangeFilter.mk name minLen maxLen stringRepr) bs bm
      = kept (fun v => matchLenRange v minLen maxLen)).
Proof.
  intros Hconst Hheader Htype Hlen. cbv zeta. split; [|split].
  - intros minValue maxValue. unfold stringRangeFilter.apply.
    cbn [stringRangeFilter.fieldName stringRangeFilter.minValue stringRangeFilter.maxValue].
    cbv zeta. destruct (strGt minValue maxValue) eqn:Hguard.
    + unfold clearAll. f_equal. symmetry. apply zip_with_none; [|exact Hlen].
      intros v. apply matchStringRange_crossed. exact Hguard.
    + rewrite Hconst, Hheader, Htype. cbn [strEq String.eqb negb].
      apply visitValues_rows. exact Hlen.
  - intros minValue maxValue. unfold ipv4RangeFilter.apply.
    cbn [ipv4RangeFilter.fieldName ipv4RangeFilter.minValue ipv4RangeFilter.maxValue].
    cbv zeta. destruct (Z.ltb_spec maxValue minValue) as [Hguard|_].
    + unfold clearAll. f_equal. symmetry. apply zip_with_none; [|exact Hlen].
      intros v. apply matchIPv4Range_crossed. exact Hguard.
    + rewrite Hconst, Hheader, Htype. cbn [strEq String.eqb negb].
      apply visitValues_rows. exact Hlen.
  - intros minLen maxLen stringRepr. unfold lenRangeFilter.apply.
    cbn [lenRangeFilter.fieldName lenRangeFilter.minLen lenRangeFilter.maxLen].
    cbv zeta. destruct (Z.ltb_spec maxLen minLen) as [Hguard|_].
    + unfold clearAll. f_equal. symmetry. apply zip_with_none; [|exact Hlen].
      intros v. apply matchLenRange_crossed. exact Hguard.
    + rewrite Hconst, Hheader, Htype. cbn [strEq String.eqb negb].
      apply visitValues_rows. exact Hlen.
Qed.
End StringColumns.

(** ** The value sets of the in-set filter *)

Lemma fold_left_ext {A B : Type} (f g : A -> B -> A) (l : list B) (a : A) :
  (forall x y, f x y = g x y) -> fold_left f l a = fold_left g l a.
Proof.
  intros Hfg. revert a. induction l as [|y l IH]; intros a; [reflexivity|].
  cbn [fold_left]. rewrite Hfg. apply IH.
Qed.

(** A loop that adds the image of each value that has one holds the
    images, and what the set held before. *)
Lemma elem_of_fold_add (g : string -> option string) (values : list string)
    (m0 : gset string) (s : string) :
  s ∈ fold_left (fun m v => match g v with Some x => {[ x ]} ∪ m | None => m end) values m0
  <-> s ∈ m0 \/ exists v, v ∈ values /\ g v = Some s.
Proof.
  revert m0. induction values as [|v values IH]; intros m0; cbn [fold_left].
  - split; [auto|]. intros [Hs|(v & Hv & _)]; [exact Hs|inversion Hv].
  - rewrite IH. split.
    + intros [Hs|(w & Hw & Hg)].
      * destruct (g v) as [x|] eqn:Hgv; [|auto].
        apply elem_of_union in Hs as [Hs|Hs]; [|auto].
        apply elem_of_singleton in Hs. subst x.
        right. exists v. split; [apply list_elem_of_here|exact Hgv].
      * right. exists w. split; [apply list_elem_of_further; exact Hw|exact Hg].
    + intros [Hs|(w & Hw & Hg)].
      * left. destruct (g v); [|exact Hs]. apply elem_of_union. auto.
      * apply elem_of_cons in Hw as [->|Hw].
        -- left. rewrite Hg. apply elem_of_union. left. apply elem_of_singleton. reflexivity.
        -- right. exists w. auto.
Qed.

Section InFilterSets.
Context {HS : Hasher} {UC : Unicode} {FL : Float64} {VE : ValuesEncoder}
        {TK : Tokenizer} {RE : Regexp} {SI : StreamIndex}.

Lemma elem_of_valuesSet (g : string -> option string)
    (add : gset string -> string -> gset string) (fi : inFilter.t) (s : string) :
  (forall m v, add m v = match g v with Some x => {[ x ]} ∪ m | None => m end) ->
  s ∈ inFilter.valuesSet add fi <-> exists v, v ∈ inFilter.values fi /\ g v = Some s.
Proof.
  intros Hadd. unfold inFilter.valuesSet.
  rewrite (fold_left_ext _ _ _ _ Hadd), elem_of_fold_add. split.
  - intros [Hs|Hs]; [|exact Hs]. apply elem_of_empty in Hs. contradiction.
  - auto.
Qed.

(** X21. The sets that the in-set filter precomputes hold what the
    values of the filter give and nothing else: the string set holds the
    values; the set for an unsigned type holds the encodings of the
    values that parse as a number below the bound of the type; the sets
    for floats, IPv4 addresses and timestamps hold the encodings of the
    values that parse. *)
Theorem inFilter_value_sets (fi : inFilter.t) (s : string) :
  let vs := inFilter.values fi in
  (s ∈ inFilter.getStringValues fi <-> s ∈ vs)
  /\ (s ∈ inFilter.getUint8Values fi
      <-> exists v n, v ∈ vs /\ tryParseUint64 v = Some n /\ n < 2 ^ 8
                      /\ s = ToUnsafeString [byte_of_Z n])
  /\ (s ∈ inFilter.getUint16Values fi
      <-> exists v n, v ∈ vs /\ tryParseUint64 v = Some n /\ n < 2 ^ 16
                      /\ s = ToUnsafeString (MarshalUint16 [] (n mod 2 ^ 16)))
  /\ (s ∈ inFilter.getUint32Values fi
      <-> exists v n, v ∈ vs /\ tryParseUint64 v = Some n /\ n < 2 ^ 32
                      /\ s = ToUnsafeString (MarshalUint32 [] (n mod 2 ^ 32)))
  /\ (s ∈ inFilter.getUint64Values fi
      <-> exists v n, v ∈ vs /\ tryParseUint64 v = Some n
                      /\ s = ToUnsafeString (MarshalUint64 [] n))
  /\ (s ∈ inFilter.getFloat64Values fi
      <-> exists v f, v ∈ vs /\ tryParseFloat64 v = Some f
                      /\ s = ToUnsafeString (MarshalUint64 [] (Float64bits f)))
  /\ (s ∈ inFilter.getIPv4Values fi
      <-> exists v n, v ∈ vs /\ tryParseIPv4 v = Some n
                      /\ s = ToUnsafeString (MarshalUint32 [] (n mod 2 ^ 32)))
  /\ (s ∈ inFilter.getTimestampISO8601Values fi
      <-> exists v n, v ∈ vs /\ tryParseTimestampISO8601 v = Some n
                      /\ s = ToUnsafeString (MarshalUint64 [] n)).
Proof.
  cbv zeta. repeat split.
  - intros Hs. apply (elem_of_valuesSet Some) in Hs as (v & Hv & Hg); [|reflexivity].
    congruence.
  - intros Hs. apply (elem_of_valuesSet Some); [reflexivity|]. eauto.
  - intros Hs.
    apply (elem_of_valuesSet (fun v => match tryParseUint64 v with
             | None => None
             | Some n => if 2 ^ 8 <=? n then None else Some (ToUnsafeString [byte_of_Z n])
             end)) in Hs as (v & Hv & Hg).
    + destruct (tryParseUint64 v) as [n|] eqn:Hn; [|discriminate].
      destruct (Z.leb_spec (2 ^ 8) n); [discriminate|].
      injection Hg as <-. exists v, n. auto.
    + intros m v. destruct (tryParseUint64 v) as [n|]; [|reflexivity].
      destruct (2 ^ 8 <=? n); reflexivity.
  - intros (v & n & Hv & Hn & Hlt & ->).
    apply (elem_of_valuesSet (fun v => match tryParseUint64 v with
             | None => None
             | Some n => if 2 ^ 8 <=? n then None else Some (ToUnsafeString [byte_of_Z n])
             end)).
    + intros m w. destruct (tryParseUint64 w) as [k|]; [|reflexivity].
      destruct (2 ^ 8 <=? k); reflexivity.
    + exists v. split; [exact Hv|]. rewrite Hn.
      destruct (Z.leb_spec (2 ^ 8) n); [lia|reflexivity].
  - intros Hs.
    apply (elem_of_valuesSet (fun v => match tryParseUint64 v with
             | None => None
             | Some n => if 2 ^ 16 <=? n then None
                         else Some (ToUnsafeString (MarshalUint16 [] (n mod 2 ^ 16)))
             end)) in Hs as (v & Hv & Hg).
    + destruct (tryParseUint64 v) as [n|] eqn:Hn; [|discriminate].
      destruct (Z.leb_spec (2 ^ 16) n); [discriminate|].
      injection Hg as <-. exists v, n. auto.
    + intros m v. destruct (tryParseUint64 v) as [n|]; [|reflexivity].
      destruct (2 ^ 16 <=? n); reflexivity.
  - intros (v & n & Hv & Hn & Hlt & ->).
    apply (elem_of_valuesSet (fun v => match tryParseUint64 v with
             | None => None
             | Some n => if 2 ^ 16 <=? n then None
                         else Some (ToUnsafeString (MarshalUint16 [] (n mod 2 ^ 16)))
             end)).
    + intros m w. destruct (tryParseUint64 w) as [k|]; [|reflexivity].
      destruct (2 ^ 16 <=? k); reflexivity.
    + exists v. split; [exact Hv|]. rewrite Hn.
      destruct (Z.leb_spec (2 ^ 16) n); [lia|reflexivity].
  - intros Hs.
    apply (elem_of_valuesSet (fun v => match tryParseUint64 v with
             | None => None
             | Some n => if 2 ^ 32 <=? n then None
                         else Some (ToUnsafeString (MarshalUint32 [] (n mod 2 ^ 32)))
             end)) in Hs as (v & Hv & Hg).
    + destruct (tryParseUint64 v) as [n|] eqn:Hn; [|discriminate].
      destruct (Z.leb_spec (2 ^ 32) n); [discriminate|].
      injection Hg as <-. exists v, n. auto.
    + intros m v. destruct (tryParseUint64 v) as [n|]; [|reflexivity].
      destruct (2 ^ 32 <=? n); reflexivity.
  - intros (v & n & Hv & Hn & Hlt & ->).
    apply (elem_of_valuesSet (fun v => match tryParseUint64 v with
             | None => None
             | Some n => if 2 ^ 32 <=? n then None
                         else Some (ToUnsafeString (MarshalUint32 [] (n mod 2 ^ 32)))
             end)).
    + intros m w. destruct (tryParseUint64 w) as [k|]; [|reflexivity].
      destruct (2 ^ 32 <=? k); reflexivity.
    + exists v. split; [exact Hv|]. rewrite Hn.
      destruct (Z.leb_spec (2 ^ 32) n); [lia|reflexivity].
  - intros Hs.
    apply (elem_of_valuesSet (fun v => match tryParseUint64 v with
             | None => None
             | Some n => Some (ToUnsafeString (MarshalUint64 [] n))
             end)) in Hs as (v & Hv & Hg).
    + destruct (tryParseUint64 v) as [n|] eqn:Hn; [|discriminate].
      injection Hg as <-. exists v, n. auto.
    + intros m v. destruct (tryParseUint64 v) as [n|]; reflexivity.
  - intros (v & n & Hv & Hn & ->).
    apply (elem_of_valuesSet (fun v => match tryParseUint64 v with
             | None => None
             | Some n => Some (ToUnsafeString (MarshalUint64 [] n))
             end)).
    + intros m w. destruct (tryParseUint64 w) as [k|]; reflexivity.
    + exists v. split; [exact Hv|]. rewrite Hn. reflexivity.
  - intros Hs.
    apply (elem_of_valuesSet (fun v => match tryParseFloat64 v with
             | None => None
             | Some f => Some (ToUnsafeString (MarshalUint64 [] (Float64bits f)))
             end)) in Hs as (v & Hv & Hg).
    + destruct (tryParseFloat64 v) as [f|] eqn:Hf; [|discriminate].
      injection Hg as <-. exists v, f. auto.
    + intros m v. destruct (tryParseFloat64 v) as [f|]; reflexivity.
  - intros (v & f & Hv & Hf & ->).
    apply (elem_of_valuesSet (fun v => match tryParseFloat64 v with
             | None => None
             | Some f => Some (ToUnsafeString (MarshalUint64 [] (Float64bits f)))
             end)).
    + intros m w. destruct (tryParseFloat64 w) as [k|]; reflexivity.
    + exists v. split; [exact Hv|]. rewrite Hf. reflexivity.
  - intros Hs.
    apply (elem_of_valuesSet (fun v => match tryParseIPv4 v with
             | None => None
             | Some n => Some (ToUnsafeString (MarshalUint32 [] (n mod 2 ^ 32)))
             end)) in Hs as (v & Hv & Hg).
    + destruct (tryParseIPv4 v) as [n|] eqn:Hn; [|discriminate].
      injection Hg as <-. exists v, n. auto.
    + intros m v. destruct (tryParseIPv4 v) as [n|]; reflexivity.
  - intros (v & n & Hv & Hn & ->).
    apply (elem_of_valuesSet (fun v => match tryParseIPv4 v with
             | None => None
             | Some n => Some (ToUnsafeString (MarshalUint32 [] (n mod 2 ^ 32)))
             end)).
    + intros m w. destruct (tryParseIPv4 w) as [k|]; reflexivity.
    + exists v. split; [exact Hv|]. rewrite Hn. reflexivity.
  - intros Hs.
    apply (elem_of_valuesSet (fun v => match tryParseTimestampISO8601 v with
             | None => None
             | Some n => Some (ToUnsafeString (MarshalUint64 [] n))
             end)) in Hs as (v & Hv & Hg).
    + destruct (tryParseTimestampISO8601 v) as [n|] eqn:Hn; [|discriminate].
      injection Hg as <-. exists v, n. auto.
    + intros m v. destruct (tryParseTimestampISO8601 v) as [n|]; reflexivity.
  - intros (v & n & Hv & Hn & ->).
    apply (elem_of_valuesSet (fun v => match tryParseTimestampISO8601 v with
             | None => None
             | Some n => Some (ToUnsafeString (MarshalUint64 [] n))
             end)).
    + intros m w. destruct (tryParseTimestampISO8601 w) as [k|]; reflexivity.
    + exists v. split; [exact Hv|]. rewrite Hn. reflexivity.
Qed.
End InFilterSets.

(** ** The marshaled TSID *)

Lemma le_value_range (bs : list byte) : 0 <= le_value bs < 256 ^ Z.of_nat (length bs).
Proof.
  induction bs as [|b bs IH]; [cbn; lia|].
  cbn [le_value length]. rewrite Nat2Z.inj_succ, Z.pow_succ_r by lia.
  pose proof (Z_of_byte_range b). lia.
Qed.

Lemma TSID_marshaledTSIDSize : TSID.marshaledTSIDSize = 16%nat.
Proof. reflexivity. Qed.

Lemma TSID_Marshal_app (x : TSID.t) (dst : list byte) :
  TSID.Marshal x dst
  = dst ++ le_bytes 8 (TSID.MetricGroupID x) ++ le_bytes 8 (TSID.MetricID x).
Proof. unfold TSID.Marshal, MarshalUint64. cbv zeta. rewrite <- app_assoc. reflexivity. Qed.

Lemma UnmarshalUint64_app (w : Z) (rest : list byte) :
  isUint64 w ->
  UnmarshalUint64 (le_bytes 8 w ++ rest) = Some w /\ drop 8 (le_bytes 8 w ++ rest) = rest.
Proof.
  intros Hw. unfold UnmarshalUint64.
  rewrite length_app, le_bytes_length. cbn [Nat.ltb Nat.leb Nat.add].
  rewrite take_app_length', drop_app_length' by (symmetry; apply le_bytes_length).
  rewrite le_value_le_bytes by exact Hw. split; reflexivity.
Qed.

(** X22. A TSID whose two identifiers are 64-bit numbers is marshaled
    to 16 bytes appended to [dst], and [Unmarshal] on these bytes,
    whatever follows them, reads the TSID back and returns what
    follows. *)
Theorem TSID_Unmarshal_Marshal (x : TSID.t) (dst tail : list byte) :
  isUint64 (TSID.MetricGroupID x) ->
  isUint64 (TSID.MetricID x) ->
  TSID.Marshal x dst = dst ++ TSID.Marshal x []
  /\ length (TSID.Marshal x []) = TSID.marshaledTSIDSize
  /\ TSID.Unmarshal (TSID.Marshal x [] ++ tail) = TSID.Done x tail.
Proof.
  intros Hg Hm. rewrite !TSID_Marshal_app. cbn [app]. split; [reflexivity|].
  split; [rewrite length_app, !le_bytes_length; reflexivity|].
  unfold TSID.Unmarshal. rewrite TSID_marshaledTSIDSize.
  rewrite !length_app, !le_bytes_length.
  destruct (Nat.ltb_spec (8 + 8 + length tail) 16) as [Hlt|_]; [lia|].
  rewrite <- app_assoc.
  destruct (UnmarshalUint64_app (TSID.MetricGroupID x)
              (le_bytes 8 (TSID.MetricID x) ++ tail) Hg) as [-> ->].
  cbv zeta.
  destruct (UnmarshalUint64_app (TSID.MetricID x) tail Hm) as [-> ->].
  destruct x; reflexivity.
Qed.

(** X23. [Unmarshal] never panics.  On fewer than 16 bytes it returns
    the error that names the length it got and the 16 it wants; on 16
    bytes or more it reads a TSID of two 64-bit identifiers whose
    marshaled form is the first 16 bytes, and returns the bytes behind
    them. *)
Theorem TSID_Unmarshal_any_source (src : list byte) :
  ((length src < 16)%nat -> TSID.Unmarshal src = TSID.TooShort (length src) 16)
  /\ ((16 <= length src)%nat ->
      exists x, TSID.Unmarshal src = TSID.Done x (drop 16 src)
                /\ TSID.Marshal x [] = take 16 src
                /\ isUint64 (TSID.MetricGroupID x) /\ isUint64 (TSID.MetricID x)).
Proof.
  unfold TSID.Unmarshal. rewrite TSID_marshaledTSIDSize. split; intros Hlen.
  - destruct (Nat.ltb_spec (length src) 16); [reflexivity|lia].
  - destruct (Nat.ltb_spec (length src) 16) as [Hlt|_]; [lia|].
    unfold UnmarshalUint64. rewrite length_drop.
    destruct (Nat.ltb_spec (length src) 8) as [Hlt|_]; [lia|].
    destruct (Nat.ltb_spec (length src - 8) 8) as [Hlt|_]; [lia|].
    cbv zeta. eexists. split; [rewrite drop_drop; reflexivity|].
    assert (Hvalue : forall bs : list byte, length bs = 8%nat ->
                       le_bytes 8 (le_value bs) = bs /\ isUint64 (le_value bs)).
    { intros bs Hbs. split; [rewrite <- Hbs at 1; apply le_bytes_le_value|].
      pose proof (le_value_range bs) as Hr. rewrite Hbs in Hr.
      unfold isUint64. change (256 ^ Z.of_nat 8) with (2 ^ 64) in Hr. exact Hr. }
    destruct (Hvalue (take 8 src)) as [Hb1 Hu1]; [rewrite length_take; lia|].
    destruct (Hvalue (take 8 (drop 8 src))) as [Hb2 Hu2];
      [rewrite length_take, length_drop; lia|].
    rewrite TSID_Marshal_app. cbn [app TSID.MetricGroupID TSID.MetricID].
    rewrite Hb1, Hb2. split; [|split; assumption].
    rewrite <- (take_drop 8 (take 16 src)) at 1.
    rewrite take_take, take_drop_commute. reflexivity.
Qed.

(** X24. [Less] is a strict total order on TSIDs: no TSID is less than
    itself, the relation is transitive, it never holds in both
    directions, and of two different TSIDs one is less than the other.
    It compares the metric group first and the metric after it. *)
Theorem TSID_Less_strict_total_order :
  (forall a, TSID.Less a a = false)
  /\ (forall a b c, TSID.Less a b = true -> TSID.Less b c = true -> TSID.Less a c = true)
  /\ (forall a b, TSID.Less a b = true -> TSID.Less b a = false)
  /\ (forall a b, TSID.Less a b = false -> TSID.Less b a = false -> a = b)
  /\ (forall a b, TSID.Less a b = true
        <-> TSID.MetricGroupID a < TSID.MetricGroupID b
            \/ (TSID.MetricGroupID a = TSID.MetricGroupID b
                /\ TSID.MetricID a < TSID.MetricID b)).
Proof.
  assert (Hless : forall a b, TSID.Less a b = true
            <-> TSID.MetricGroupID a < TSID.MetricGroupID b
                \/ (TSID.MetricGroupID a = TSID.MetricGroupID b
                    /\ TSID.MetricID a < TSID.MetricID b)).
  { intros a b. unfold TSID.Less.
    destruct (Z.eqb_spec (TSID.MetricGroupID a) (TSID.MetricGroupID b)); cbn [negb];
      rewrite Z.ltb_lt; lia. }
  assert (Hnot : forall a b, TSID.Less a b = false
            <-> ~ (TSID.MetricGroupID a < TSID.MetricGroupID b
                   \/ (TSID.MetricGroupID a = TSID.MetricGroupID b
                       /\ TSID.MetricID a < TSID.MetricID b))).
  { intros a b. rewrite <- Hless. destruct (TSID.Less a b); split; congruence. }
  split; [|split; [|split; [|split]]].
  - intros a. apply Hnot. lia.
  - intros a b c Hab Hbc. apply Hless in Hab, Hbc. apply Hless. lia.
  - intros a b Hab. apply Hless in Hab. apply Hnot. lia.
  - intros [g1 m1] [g2 m2] Hab Hba. apply Hnot in Hab, Hba.
    cbn [TSID.MetricGroupID TSID.MetricID] in *. f_equal; lia.
  - exact Hless.
Qed.

(** ** The limits on the labels of a series *)

Lemma exceedingLoop_spec (maxLabelValueLen : Z) (tick : bool)
    (labels rest : list limits.Label) (st : limits.state) :
  (limits.exceedingLoop maxLabelValueLen tick labels rest st = (false, st)
   /\ forall l, l ∈ rest ->
        Z.of_nat (String.length (limits.Name l)) <= limits.maxLabelNameLen
        /\ Z.of_nat (String.length (limits.Value l)) <= maxLabelValueLen)
  \/ exists l, l ∈ rest
       /\ ((limits.maxLabelNameLen < Z.of_nat (String.length (limits.Name l))
            /\ limits.exceedingLoop maxLabelValueLen tick labels rest st
               = (true, limits.trackDroppedSeriesWithTooLongLabelName tick l st))
           \/ (maxLabelValueLen < Z.of_nat (String.length (limits.Value l))
               /\ limits.exceedingLoop maxLabelValueLen tick labels rest st
                  = (true, limits.trackDroppedSeriesWithTooLongLabelValue tick l st))).
Proof.
  induction rest as [|l rest IH]; cbn [limits.exceedingLoop].
  - left. split; [reflexivity|]. intros l Hl. inversion Hl.
  - destruct (Z.ltb_spec limits.maxLabelNameLen (Z.of_nat (String.length (limits.Name l))))
      as [Hname|Hname].
    { right. exists l. split; [apply list_elem_of_here|]. left. auto. }
    destruct (Z.ltb_spec maxLabelValueLen (Z.of_nat (String.length (limits.Value l))))
      as [Hvalue|Hvalue].
    { right. exists l. split; [apply list_elem_of_here|]. right. auto. }
    destruct IH as [[Hrun Hall]|(l' & Hl' & Hcase)].
    + left. split; [exact Hrun|]. intros l' Hl'.
      apply elem_of_cons in Hl' as [->|Hl']; [split; assumption|apply Hall; exact Hl'].
    + right. exists l'. split; [apply list_elem_of_further; exact Hl'|exact Hcase].
Qed.

(** The state after one series was counted as dropped: one of the three
    counters has gone up by one, and at most one warning was logged, none
    when the ticker has not fired. *)
Definition countedOnce (tick : bool) (st st' : limits.state) : Prop :=
  let c := limits.cnt st in
  let c' := limits.cnt st' in
  let many := limits.droppedSeriesWithTooManyLabels in
  let name := limits.droppedSeriesWithTooLongLabelName in
  let value := limits.droppedSeriesWithTooLongLabelValue in
  ((many c' = wrap64 (many c + 1) /\ name c' = name c /\ value c' = value c)
   \/ (many c' = many c /\ name c' = wrap64 (name c + 1) /\ value c' = value c)
   \/ (many c' = many c /\ name c' = name c /\ value c' = wrap64 (value c + 1)))
  /\ (if tick then exists w, limits.logged st' = limits.logged st ++ [w]
      else limits.logged st' = limits.logged st).

Lemma countedOnce_tooManyLabels (tick : bool) (labels : list limits.Label)
    (st : limits.state) :
  countedOnce tick st (limits.trackDroppedSeriesWithTooManyLabels tick labels st).
Proof.
  unfold countedOnce, limits.trackDroppedSeriesWithTooManyLabels, limits.logIf.
  destruct tick; cbn; (split; [auto|]); [eexists|]; reflexivity.
Qed.

Lemma countedOnce_tooLongLabelName (tick : bool) (l : limits.Label) (st : limits.state) :
  countedOnce tick st (limits.trackDroppedSeriesWithTooLongLabelName tick l st).
Proof.
  unfold countedOnce, limits.trackDroppedSeriesWithTooLongLabelName, limits.logIf.
  destruct tick; cbn; (split; [auto|]); [eexists|]; reflexivity.
Qed.

Lemma countedOnce_tooLongLabelValue (tick : bool) (l : limits.Label) (st : limits.state) :
  countedOnce tick st (limits.trackDroppedSeriesWithTooLongLabelValue tick l st).
Proof.
  unfold countedOnce, limits.trackDroppedSeriesWithTooLongLabelValue, limits.logIf.
  destruct tick; cbn; (split; [auto 6|]); [eexists|]; reflexivity.
Qed.

(** X25. [ExceedingLabels] returns false exactly when the series has no
    more labels than allowed and no label with a name of more than 256
    bytes or a value longer than allowed, and then it changes nothing.
    When it returns true it has counted the series once: one of the
    three counters is incremented by one and the others are kept, and a
    warning is logged only if the ticker has fired. *)
Theorem ExceedingLabels_counts_once (maxLabelsPerTimeseries maxLabelValueLen : Z)
    (tick : bool) (labels : list limits.Label) (st : limits.state) :
  let within :=
    Z.of_nat (length labels) <= maxLabelsPerTimeseries
    /\ forall l, l ∈ labels ->
         Z.of_nat (String.length (limits.Name l)) <= limits.maxLabelNameLen
         /\ Z.of_nat (String.length (limits.Value l)) <= maxLabelValueLen in
  let r := limits.ExceedingLabels maxLabelsPerTimeseries maxLabelValueLen tick labels st in
  (within /\ r = (false, st))
  \/ (~ within /\ exists st', r = (true, st') /\ countedOnce tick st st').
Proof.
  cbv zeta. unfold limits.ExceedingLabels.
  destruct (Z.ltb_spec maxLabelsPerTimeseries (Z.of_nat (length labels))) as [Hmany|Hmany].
  - right. split; [lia|]. eexists. split; [reflexivity|].
    apply countedOnce_tooManyLabels.
  - destruct (exceedingLoop_spec maxLabelValueLen tick labels labels st)
      as [[Hrun Hall]|(l & Hl & [[Hname Hrun]|[Hvalue Hrun]])].
    + left. auto.
    + right. split; [intros [_ Hall]; specialize (Hall l Hl); lia|].
      rewrite Hrun. eexists. split; [reflexivity|]. apply countedOnce_tooLongLabelName.
    + right. split; [intros [_ Hall]; specialize (Hall l Hl); lia|].
      rewrite Hrun. eexists. split; [reflexivity|]. apply countedOnce_tooLongLabelValue.
Qed.

(** ** The tokens of a prefix *)

Section TokensOfPrefix.
Context {UC : Unicode} {FL : Float64} {VE : ValuesEncoder} {TK : Tokenizer}.

(** The loop of [getTokensSkipLast] ends before its fuel does when a
    decoded rune takes a byte at least, and then leaves a start of [s]
    that ends with no token rune. *)
Lemma skipLastToken_spec (fuel : nat) (s : string) :
  isTokenRune RuneError = false ->
  (forall x, x <> EmptyString ->
     (1 <= snd (decodeLastRuneMultibyte x) <= String.length x)%nat) ->
  (String.length s < fuel)%nat ->
  let t := skipLastToken fuel s in
  (exists u, s = String.append t u)
  /\ isTokenRune (fst (DecodeLastRuneInString t)) = false
  /\ (isTokenRune (fst (DecodeLastRuneInString s)) = false -> t = s).
Proof.
  intros Herr Hsize. revert s. induction fuel as [|fuel IH]; intros s Hlen; [lia|].
  cbv zeta. cbn [skipLastToken].
  destruct (DecodeLastRuneInString s) as [r size] eqn:Hd. cbn [fst].
  destruct (isTokenRune r) eqn:Hr; cbn [negb].
  - assert (Hbound : (1 <= size <= String.length s)%nat).
    { unfold DecodeLastRuneInString in Hd.
      destruct (String.length s) as [|n] eqn:Hl.
      - injection Hd as <- <-. congruence.
      - destruct (byteAt s n <? RuneSelf).
        + injection Hd as <- <-. lia.
        + assert (Hs : s <> EmptyString) by (intros ->; discriminate).
          specialize (Hsize s Hs). rewrite Hd, Hl in Hsize. exact Hsize. }
    destruct (IH (strTo (String.length s - size) s)) as ([u Hu] & Hlast & _).
    { rewrite strTo_length by lia. lia. }
    split; [|split; [exact Hlast|discriminate]].
    exists (String.append u (strFrom (String.length s - size) s)).
    rewrite <- string_append_assoc, <- Hu, strTo_strFrom. reflexivity.
  - split; [exists EmptyString; rewrite string_append_empty; reflexivity|].
    rewrite Hd. cbn [fst]. split; [exact Hr|reflexivity].
Qed.

(** X26. [getTokensSkipLast] tokenizes a start of [s] that ends with no
    token rune: the loop that cuts the trailing token runes off ends,
    and cuts nothing off a string that ends with no token rune.  The
    decoder is assumed to read one byte at least, and no more than the
    string has, and U+FFFD to be no token rune. *)
Theorem getTokensSkipLast_cuts_last_token (s : string) :
  isTokenRune RuneError = false ->
  (forall x, x <> EmptyString ->
     (1 <= snd (decodeLastRuneMultibyte x) <= String.length x)%nat) ->
  exists t u,
    s = String.append t u
    /\ getTokensSkipLast s = tokenizeStrings [] [t]
    /\ isTokenRune (fst (DecodeLastRuneInString t)) = false
    /\ (isTokenRune (fst (DecodeLastRuneInString s)) = false -> t = s).
Proof.
  intros Herr Hsize.
  destruct (skipLastToken_spec (S (String.length s)) s Herr Hsize) as ([u Hu] & Hlast & Hsame);
    [lia|].
  exists (skipLastToken (S (String.length s)) s), u.
  split; [exact Hu|]. split; [reflexivity|]. split; assumption.
Qed.
End TokensOfPrefix.

(** ** The token sets of the in-set filter *)

Section TokenSets.
Context {HS : Hasher} {UC : Unicode} {FL : Float64} {VE : ValuesEncoder}
        {TK : Tokenizer} {RE : Regexp} {SI : StreamIndex}.

Lemma initTokenSetsLoop_spec (values : list string) (tokenSets : list (list string)) :
  exists n,
    (n <= length values)%nat
    /\ inFilter.initTokenSetsLoop tokenSets values
       = tokenSets ++ map (fun v => tokenizeStrings [] [v]) (take n values)
    /\ (forall i v, (S i < n)%nat -> values !! i = Some v ->
          (length (tokenizeStrings [] [v]) <= maxTokenSetsToInit)%nat)
    /\ ((n < length values)%nat ->
        exists v, values !! (n - 1)%nat = Some v
                  /\ (maxTokenSetsToInit < length (tokenizeStrings [] [v]))%nat).
Proof.
  revert tokenSets. induction values as [|v values IH]; intros tokenSets.
  - exists 0%nat. cbn [inFilter.initTokenSetsLoop take map length].
    rewrite app_nil_r. split; [lia|]. split; [reflexivity|].
    split; [intros; lia|lia].
  - cbn [inFilter.initTokenSetsLoop]. cbv zeta.
    destruct (Nat.ltb_spec maxTokenSetsToInit (length (tokenizeStrings [] [v])))
      as [Hlong|Hshort].
    + exists 1%nat. cbn [length take map]. split; [lia|]. split; [reflexivity|].
      split; [intros; lia|]. intros _. exists v. split; [reflexivity|exact Hlong].
    + destruct (IH (tokenSets ++ [tokenizeStrings [] [v]])) as (n & Hn & Hrun & Hbefore & Hstop).
      exists (S n). cbn [length take map]. split; [lia|].
      split; [rewrite Hrun, <- app_assoc; reflexivity|]. split.
      * intros i w Hi Hw. destruct i as [|i].
        -- cbn [lookup list_lookup] in Hw. injection Hw as <-. exact Hshort.
        -- apply (Hbefore i w); [lia|exact Hw].
      * intros Hlt. destruct Hstop as (w & Hw & Hlong); [lia|].
        exists w. split; [|exact Hlong].
        destruct n as [|n].
        -- destruct values as [|x values]; [cbn [length] in Hlt; lia|].
           cbn [take map] in Hrun. cbn [Nat.sub lookup list_lookup] in Hw.
           exfalso. revert Hrun. cbn [inFilter.initTokenSetsLoop]. cbv zeta.
           destruct (Nat.ltb_spec maxTokenSetsToInit (length (tokenizeStrings [] [x])));
             intros Hrun.
           ++ apply (f_equal length) in Hrun. rewrite !length_app in Hrun.
              cbn [length] in Hrun. lia.
           ++ destruct (IH (tokenSets ++ [tokenizeStrings [] [v]])) as (m & _).
              clear IH.
              assert (Hgrow : forall vs acc,
                        (length acc <= length (inFilter.initTokenSetsLoop acc vs))%nat).
              { induction vs as [|y vs IHvs]; intros acc;
                  cbn [inFilter.initTokenSetsLoop]; [lia|]. cbv zeta.
                destruct (maxTokenSetsToInit <? length (tokenizeStrings [] [y]))%nat.
                - rewrite length_app. cbn [length]. lia.
                - specialize (IHvs (acc ++ [tokenizeStrings [] [y]])).
                  rewrite length_app in IHvs. cbn [length] in IHvs. lia. }
              apply (f_equal length) in Hrun.
              pose proof (Hgrow values
                ((tokenSets ++ [tokenizeStrings [] [v]]) ++ [tokenizeStrings [] [x]])) as Hg.
              rewrite !length_app in *. cbn [length] in *. lia.
        -- cbn [Nat.sub] in *. rewrite Nat.sub_0_r in Hw. exact Hw.
Qed.

(** X27. The token sets of the in-set filter are the tokens of its
    values, in the order of the values, up to and with the first value
    of more than 1000 tokens: every set before the last has 1000 tokens
    at most, and the list is shorter than the values only when its last
    set has more. *)
Theorem inFilter_token_sets (fi : inFilter.t) :
  let vs := inFilter.values fi in
  let tokensOf v := tokenizeStrings [] [v] in
  exists n,
    (n <= length vs)%nat
    /\ inFilter.getTokenSets fi = map tokensOf (take n vs)
    /\ (forall i v, (S i < n)%nat -> vs !! i = Some v ->
          (length (tokensOf v) <= maxTokenSetsToInit)%nat)
    /\ ((n < length vs)%nat ->
        exists v, vs !! (n - 1)%nat = Some v
                  /\ (maxTokenSetsToInit < length (tokensOf v))%nat).
Proof.
  cbv zeta. unfold inFilter.getTokenSets.
  destruct (initTokenSetsLoop_spec (inFilter.values fi) []) as (n & Hn & Hrun & Hrest).
  exists n. split; [exact Hn|]. split; [exact Hrun|exact Hrest].
Qed.
End TokenSets.

(** ** The properties on sample blocks *)

(** A block of four rows with a string column [msg], a dictionary column
    [kind] of three entries, a uint8 column [code], a column [odd] of a
    value type that is none of the nine, and the constant column [host]. *)
Module SampleLog.

Definition msgHeader : columnHeader := mkColumnHeader "msg" valueTypeString 0 0 [].

Definition kindHeader : columnHeader :=
  mkColumnHeader "kind" valueTypeDict 0 0 ["info"; "warn"; "error"].

Definition oddHeader : columnHeader := mkColumnHeader "odd" valueTypeUnknown 0 0 [].

Definition codeHeader : columnHeader := mkColumnHeader "code" valueTypeUint8 7 98 [].

Definition block : @blockSearch Sample.streams :=
  @mkBlockSearch Sample.streams
    (fun fieldName => if strEq fieldName "host" then "web" else EmptyString)
    (fun fieldName =>
       if strEq fieldName "msg" then Some msgHeader
       else if strEq fieldName "kind" then Some kindHeader
       else if strEq fieldName "odd" then Some oddHeader
       else if strEq fieldName "code" then Some codeHeader
       else None)
    (fun ch =>
       match chValueType ch with
       | valueTypeString => ["disk full"; "10.0.0.7"; "login ok"; "a"]
       | valueTypeDict => [uint8Value 2; uint8Value 0; uint8Value 1; uint8Value 2]
       | valueTypeUint8 => [uint8Value 96; uint8Value 97; uint8Value 7; uint8Value 98]
       | _ => []
       end)
    (fun _ => mkBloomFilter emptySlice)
    4
    7%nat
    "/parts/log".

End SampleLog.

Section OnTheSamples.
#[local] Existing Instance Sample.hasher.
#[local] Existing Instance Sample.unicode.
#[local] Existing Instance Sample.integers.
#[local] Existing Instance Sample.encoder.
#[local] Existing Instance Sample.tokenizer.
#[local] Existing Instance Sample.patterns.
#[local] Existing Instance Sample.streams.

Lemma mustInitHashes_no_false_negative_sample :
  Z.of_nat (length [11; 22; 33]) < 2 ^ 56
  /\ (forall h : Z, h ∈ [22] -> h ∈ [11; 22; 33])
  /\ exists bf',
      mustInitHashes (mkBloomFilter emptySlice) [11; 22; 33] = Some bf'
      /\ containsAll bf' (appendHashesHashes [] [22]) = Some true.
Proof.
  assert (Hsize : Z.of_nat (length [11; 22; 33]) < 2 ^ 56) by reflexivity.
  assert (Hsub : forall h : Z, h ∈ [22] -> h ∈ [11; 22; 33]).
  { intros h Hh. apply list_elem_of_singleton in Hh as ->. set_solver. }
  split; [exact Hsize|]. split; [exact Hsub|].
  exact (mustInitHashes_no_false_negative (mkBloomFilter emptySlice)
           [11; 22; 33] [22] Hsize Hsub).
Defined.

Lemma containsAll_never_panics_sample :
  exists b, containsAll Sample.levelBloomFilter (appendTokensHashes [] ["5"]) = Some b.
Proof.
  apply (containsAll_never_panics Sample.levelBloomFilter (appendTokensHashes [] ["5"])).
  vm_compute. reflexivity.
Defined.

Lemma initBloomFilter_keeps_positives_sample :
  length [33] = length (elems (bits (mkBloomFilter (mkSlice [1] []))))
  /\ containsAll (mkBloomFilter (mkSlice [33] (spare (bits (mkBloomFilter (mkSlice [1] []))))))
       [64] = Some true.
Proof.
  apply (initBloomFilter_keeps_positives (mkBloomFilter (mkSlice [1] [])) [5] [33] [64]);
    reflexivity.
Defined.

Lemma marshal_unmarshal_roundtrip_sample :
  let bf := mkBloomFilter (mkSlice [7; 2 ^ 63] []) in
  exists bf', unmarshal (mkBloomFilter emptySlice) (marshal bf []) = UnmarshalDone bf'
              /\ elems (bits bf') = elems (bits bf)
              /\ forall hashes, containsAll bf' hashes = containsAll bf hashes.
Proof.
  cbv zeta.
  apply (marshal_unmarshal_roundtrip (mkBloomFilter (mkSlice [7; 2 ^ 63] []))
           (mkBloomFilter emptySlice)).
  cbn [elems bits]. repeat constructor; unfold isUint64; lia.
Defined.

Lemma marshaled_tokens_are_found_sample :
  exists data bf1 bf',
    bloomFilterMarshalTokens None [] ["1"; "2"] = Some (data, bf1)
    /\ unmarshal (mkBloomFilter emptySlice) data = UnmarshalDone bf'
    /\ containsAll bf' (appendTokensHashes [] ["2"]) = Some true.
Proof.
  apply (marshaled_tokens_are_found None (mkBloomFilter emptySlice) ["1"; "2"] ["2"]).
  - exact I.
  - reflexivity.
  - intros t Ht. apply list_elem_of_singleton in Ht as ->. set_solver.
Defined.

Lemma pooled_filter_is_as_new_sample :
  exists data bf1 bf2,
    bloomFilterMarshalTokens None [] ["1"; "2"] = Some (data, bf1)
    /\ bloomFilterMarshalTokens (Some (mkBloomFilter (mkSlice [] [0; 0]))) ["007"%byte]
         ["1"; "2"]
       = Some (["007"%byte] ++ data, bf2)
    /\ pooled bf2.
Proof.
  apply (pooled_filter_is_as_new (Some (mkBloomFilter (mkSlice [] [0; 0]))) ["007"%byte]
           ["1"; "2"]).
  - split; [reflexivity|]. cbn [spare bits]. repeat constructor.
  - reflexivity.
Defined.

Lemma dict_column_keeps_accepted_entries_sample :
  let f := fun v => strEq v "error" in
  matchEncodedValuesDict SampleLog.block SampleLog.kindHeader
    (dictIndexes f SampleLog.kindHeader) Sample.allRows
  = (zip_with (fun b v => b && dictKeep f SampleLog.kindHeader v) Sample.allRows
       (getValuesForColumn SampleLog.block SampleLog.kindHeader), Returned).
Proof.
  cbv zeta.
  apply (dict_column_keeps_accepted_entries SampleLog.block SampleLog.kindHeader
           (fun v => strEq v "error") Sample.allRows).
  - cbn. lia.
  - cbn. lia.
  - intros v Hv. cbn in Hv.
    repeat (apply elem_of_cons in Hv as [->|Hv]; [reflexivity|]).
    inversion Hv.
Defined.

Lemma apply_on_fewer_rows_sample :
  let f := InFilterOf (inFilter.mk "level" ["1"; "2"; "3"]) in
  apply f Sample.block [false; true; false; true]
  = (zip_with andb [false; true; false; true] [true; true; true; false], Returned).
Proof.
  cbv zeta.
  apply (apply_on_fewer_rows (InFilterOf (inFilter.mk "level" ["1"; "2"; "3"])) Sample.block
           [false; true; false; true] Sample.allRows [true; true; true; false]).
  - unfold bitmapIncluded, Sample.allRows.
    repeat (constructor; [intros _; reflexivity|]). constructor.
  - vm_compute. reflexivity.
Defined.

Lemma apply_commutes_sample :
  let f1 := InFilterOf (inFilter.mk "level" ["1"; "2"; "3"]) in
  let f2 := StringRangeFilterOf (stringRangeFilter.mk "level" "2" "4") in
  let both := zip_with andb [true; true; true; false] [false; true; true; false] in
  apply f2 Sample.block [true; true; true; false] = (both, Returned)
  /\ apply f1 Sample.block [false; true; true; false] = (both, Returned).
Proof.
  cbv zeta.
  apply (apply_commutes (InFilterOf (inFilter.mk "level" ["1"; "2"; "3"]))
           (StringRangeFilterOf (stringRangeFilter.mk "level" "2" "4"))
           Sample.block Sample.allRows); vm_compute; reflexivity.
Defined.

Lemma apply_decides_whole_block_sample :
  let f := ExactFilterOf (exactFilter.mk "host" "web") in
  apply f SampleLog.block = skip \/ apply f SampleLog.block = clearAll.
Proof.
  cbv zeta.
  apply (apply_decides_whole_block (ExactFilterOf (exactFilter.mk "host" "web"))
           SampleLog.block).
  intros name Hname. injection Hname as <-. left. discriminate.
Defined.

Lemma apply_unknown_value_type_sample :
  let f := LenRangeFilterOf (lenRangeFilter.mk "odd" 1 5 "len_range(1, 5)") in
  apply f SampleLog.block = if rejectsAll f then clearAll else panic.
Proof.
  cbv zeta.
  apply (apply_unknown_value_type
           (LenRangeFilterOf (lenRangeFilter.mk "odd" 1 5 "len_range(1, 5)"))
           SampleLog.block "odd" SampleLog.oddHeader); reflexivity.
Defined.

Lemma range_filters_on_string_column_sample :
  let rows := getValuesForColumn SampleLog.block SampleLog.msgHeader in
  let kept pred := (zip_with (fun b v => b && pred v) Sample.allRows rows, Returned) in
  (forall minValue maxValue,
      stringRangeFilter.apply (stringRangeFilter.mk "msg" minValue maxValue)
        SampleLog.block Sample.allRows
      = kept (fun v => matchStringRange v minValue maxValue))
  /\ (forall minValue maxValue,
      ipv4RangeFilter.apply (ipv4RangeFilter.mk "msg" minValue maxValue)
        SampleLog.block Sample.allRows
      = kept (fun v => matchIPv4Range v minValue maxValue))
  /\ (forall minLen maxLen stringRepr,
      lenRangeFilter.apply (lenRangeFilter.mk "msg" minLen maxLen stringRepr)
        SampleLog.block Sample.allRows
      = kept (fun v => matchLenRange v minLen maxLen)).
Proof.
  cbv zeta.
  apply (range_filters_on_string_column SampleLog.block "msg" SampleLog.msgHeader
           Sample.allRows); [reflexivity|reflexivity|reflexivity|cbn; lia].
Defined.

Lemma TSID_Unmarshal_Marshal_sample :
  let x := TSID.mk 3 (2 ^ 64 - 1) in
  TSID.Marshal x ["001"%byte] = ["001"%byte] ++ TSID.Marshal x []
  /\ length (TSID.Marshal x []) = TSID.marshaledTSIDSize
  /\ TSID.Unmarshal (TSID.Marshal x [] ++ ["002"%byte]) = TSID.Done x ["002"%byte].
Proof.
  cbv zeta.
  apply (TSID_Unmarshal_Marshal (TSID.mk 3 (2 ^ 64 - 1)) ["001"%byte] ["002"%byte]);
    unfold isUint64; cbn [TSID.MetricGroupID TSID.MetricID]; lia.
Defined.

Lemma getTokensSkipLast_cuts_last_token_sample :
  exists t u,
    "disk fu" = String.append t u
    /\ getTokensSkipLast "disk fu" = tokenizeStrings [] [t]
    /\ isTokenRune (fst (DecodeLastRuneInString t)) = false
    /\ (isTokenRune (fst (DecodeLastRuneInString "disk fu")) = false -> t = "disk fu").
Proof.
  apply (getTokensSkipLast_cuts_last_token "disk fu").
  - reflexivity.
  - intros x Hx. destruct x as [|c x]; [contradiction|]. cbn. lia.
Defined.

(** The guard of [matchUint8ByStringRange] compares the bounds with the
    strings 9 and 0.  A lower bound such as 95 is above 9 as a string, so
    that the string range filter from 95 to 99 clears the rows of the
    uint8 column [code] that hold 96, 97 and 98, whose decimal forms
    [matchStringRange] accepts for these bounds. *)
Example stringRangeFilter_on_uint8_above_9 :
  stringRangeFilter.apply (stringRangeFilter.mk "code" "95" "99") SampleLog.block
    Sample.allRows
  = ([false; false; false; false], Returned)
  /\ map toUint8String (getValuesForColumn SampleLog.block SampleLog.codeHeader)
     = [Some "96"; Some "97"; Some "7"; Some "98"]
  /\ map (fun s => matchStringRange s "95" "99") ["96"; "97"; "7"; "98"]
     = [true; true; false; true].
Proof. repeat split; vm_compute; reflexivity. Qed.
End OnTheSamples.
